(** * File-transfer benchmark: wire codec, sentinel framing and connection handlers

    A shallow embedding of [client_pool.py], [server_threadpool.py] and
    [server_processpool.py].  Byte strings are [list byte]; Python integers are
    [N]; the storage directory is a finite map from file names to contents;
    socket and file-system effects are threaded through an explicit state with
    a small exception monad. *)

From Stdlib Require Import List NArith Lia Bool.
From Stdlib Require Import Strings.Byte Strings.String DecimalString.
From Stdlib Require Floats.
From Equations Require Import Equations.
From stdpp Require Import base option list countable gmap.

Local Open Scope N_scope.

(** ** Byte strings *)

Abbreviation bytes := (list byte).

(** A Python bytes literal [b'...']. *)
Definition bs (s : string) : bytes := list_byte_of_string s.

Definition byte_val (c : byte) : N := Byte.to_N c.

(** Store into an [unsigned char]: the value is reduced modulo 256. *)
Definition byte_of (n : N) : byte :=
  match Byte.of_N (n mod 256) with
  | Some c => c
  | None => x00
  end.

(** [data[:n]] and [data[n:]] with a Python integer bound. *)
Fixpoint takeN (n : N) (s : bytes) : bytes :=
  match s with
  | [] => []
  | c :: t => if n =? 0 then [] else c :: takeN (N.pred n) t
  end.

Fixpoint dropN (n : N) (s : bytes) : bytes :=
  match s with
  | [] => []
  | c :: t => if n =? 0 then s else dropN (N.pred n) t
  end.

Fixpoint starts_with (p s : bytes) : bool :=
  match p, s with
  | [], _ => true
  | _ :: _, [] => false
  | x :: p', y :: s' => Byte.eqb x y && starts_with p' s'
  end.

(** [sub in data] on bytes objects. *)
Fixpoint contains (sub s : bytes) : bool :=
  starts_with sub s ||
  match s with
  | [] => false
  | _ :: t => contains sub t
  end.

(** [data.replace(old, b'')]: every non-overlapping occurrence of [old],
    scanning from the left, is deleted.  [skip] counts the bytes of the
    occurrence being deleted that are still to be dropped. *)
Fixpoint delete_from (old : bytes) (skip : nat) (s : bytes) : bytes :=
  match s with
  | [] => []
  | c :: t =>
      match skip with
      | S k => delete_from old k t
      | O =>
          if starts_with old s
          then delete_from old (Nat.pred (length old)) t
          else c :: delete_from old 0 t
      end
  end.

Definition replace_empty (old s : bytes) : bytes :=
  match old with
  | [] => s
  | _ :: _ => delete_from old 0 s
  end.

(** [bytes.lower()]: only the ASCII letters change. *)
Definition lower_byte (c : byte) : byte :=
  let v := byte_val c in
  if (65 <=? v) && (v <=? 90) then byte_of (v + 32) else c.

Definition lower (s : bytes) : bytes := map lower_byte s.

(** ** The transfer codec: [base64.b64encode] and [base64.b64decode]

    Both are the standard-library functions, which call
    [binascii.b2a_base64(s, newline=False)] and
    [binascii.a2b_base64(s, strict_mode=False)]. *)

Definition table_b2a_base64 : bytes :=
  bs "ABCDEFGHIJKLMNOPQRSTUVWXYZabcdefghijklmnopqrstuvwxyz0123456789+/".

Definition BASE64_PAD : byte := "=".

Definition b2a (n : N) : byte := nth (N.to_nat n) table_b2a_base64 BASE64_PAD.

Fixpoint index_of (c : byte) (tbl : bytes) (i : N) : option N :=
  match tbl with
  | [] => None
  | x :: t => if Byte.eqb c x then Some i else index_of c t (N.succ i)
  end.

(** [table_a2b_base64]: the 6-bit value of an alphabet byte, [None] for
    every other byte. *)
Definition a2b (c : byte) : option N := index_of c table_b2a_base64 0.

(** Three input bytes give four output characters; a final group of one or
    two bytes is completed with padding. *)
Fixpoint b64encode (s : bytes) : bytes :=
  match s with
  | [] => []
  | [x] =>
      let x := byte_val x in
      [b2a (N.shiftr x 2); b2a (N.shiftl (N.land x 3) 4); BASE64_PAD; BASE64_PAD]
  | [x; y] =>
      let x := byte_val x in
      let y := byte_val y in
      [b2a (N.shiftr x 2);
       b2a (N.lor (N.shiftl (N.land x 3) 4) (N.shiftr y 4));
       b2a (N.shiftl (N.land y 15) 2); BASE64_PAD]
  | x :: y :: z :: rest =>
      let x := byte_val x in
      let y := byte_val y in
      let z := byte_val z in
      b2a (N.shiftr x 2)
      :: b2a (N.lor (N.shiftl (N.land x 3) 4) (N.shiftr y 4))
      :: b2a (N.lor (N.shiftl (N.land y 15) 2) (N.shiftr z 6))
      :: b2a (N.land z 63)
      :: b64encode rest
  end.

(** The decoding loop of [a2b_base64] in non-strict mode.  [quad_pos] is the
    position inside the current group of four characters, [leftchar] the bits
    kept from the previous character and [pads] the number of padding
    characters seen since the last data character.  Bytes outside the
    alphabet are skipped; a padding run that completes a group ends the
    decoding, whatever follows; input that ends inside a group is an error
    ([None]). *)
Fixpoint a2b_loop (s : bytes) (quad_pos : N) (leftchar : N) (pads : N)
  : option bytes :=
  match s with
  | [] => if quad_pos =? 0 then Some [] else None
  | c :: rest =>
      if Byte.eqb c BASE64_PAD then
        if (2 <=? quad_pos) && (4 <=? quad_pos + (pads + 1))
        then Some []
        else a2b_loop rest quad_pos leftchar
               (if 2 <=? quad_pos then pads + 1 else pads)
      else
        match a2b c with
        | None => a2b_loop rest quad_pos leftchar pads
        | Some v =>
            if quad_pos =? 0 then a2b_loop rest 1 v 0
            else if quad_pos =? 1 then
              cons (byte_of (N.lor (N.shiftl leftchar 2) (N.shiftr v 4)))
                <$> a2b_loop rest 2 (N.land v 15) 0
            else if quad_pos =? 2 then
              cons (byte_of (N.lor (N.shiftl leftchar 4) (N.shiftr v 2)))
                <$> a2b_loop rest 3 (N.land v 3) 0
            else
              cons (byte_of (N.lor (N.shiftl leftchar 6) v))
                <$> a2b_loop rest 0 0 0
        end
  end.

Definition b64decode (s : bytes) : option bytes := a2b_loop s 0 0 0.

Definition count_data_chars (s : bytes) : N :=
  N.of_nat (length (filter (fun c => bool_decide (is_Some (a2b c))) s)).

(** [str(error)] of the [binascii.Error] raised when the input ends inside
    a group; the text depends on the number of alphabet characters read. *)
Definition binascii_error_text (s : bytes) : bytes :=
  let n := count_data_chars s in
  if n mod 4 =? 1
  then bs "Invalid base64-encoded string: number of data characters ("
       ++ bs (NilZero.string_of_uint (N.to_uint n))
       ++ bs ") cannot be 1 more than a multiple of 4"
  else bs "Incorrect padding".

(** ** Reading a file in blocks

    [while True: block = f.read(size); if not block: break; ...] on a file
    opened for reading: the blocks handed to the loop body, in order. *)
Equations? read_chunks (size : N) (data : bytes) : list bytes
  by wf (length data) lt :=
  read_chunks size data with Equations.Prop.Logic.inspect (takeN size data) := {
    | exist _ nil _ := nil;
    | exist _ (cons c chunk) Hchunk :=
        cons (cons c chunk) (read_chunks size (dropN size data)) }.
Proof.
  destruct data as [|d data]; simpl in *; [discriminate|].
  destruct (size =? 0); [discriminate|].
  clear. generalize (N.pred size). induction data as [|x data IH]; intros n; simpl; [lia|].
  destruct (n =? 0); simpl; [lia|]. specialize (IH (N.pred n)). lia.
Qed.

(** ** Text of the request line

    The request is [recv(...).decode()], a [str].  The model covers ASCII
    text, on which UTF-8 decoding and encoding are the identity; a request
    with a byte above 127 is sent down the [UnicodeDecodeError] path. *)

Definition is_ascii (c : byte) : bool := byte_val c <? 128.

(** [str.isspace] on the ASCII range. *)
Definition isspace (c : byte) : bool :=
  let v := byte_val c in
  ((9 <=? v) && (v <=? 13)) || ((28 <=? v) && (v <=? 32)).

Definition upper_byte (c : byte) : byte :=
  let v := byte_val c in
  if (97 <=? v) && (v <=? 122) then byte_of (v - 32) else c.

Definition upper (s : bytes) : bytes := map upper_byte s.

Fixpoint lstrip (s : bytes) : bytes :=
  match s with
  | [] => []
  | c :: t => if isspace c then lstrip t else s
  end.

Definition rstrip (s : bytes) : bytes := rev (lstrip (rev s)).

Definition strip (s : bytes) : bytes := rstrip (lstrip s).

(** [s.split()]: the maximal runs of non-whitespace characters.  [word] is
    the run being read. *)
Fixpoint split_from (word : bytes) (s : bytes) : list bytes :=
  match s with
  | [] => match word with [] => [] | _ :: _ => [word] end
  | c :: t =>
      if isspace c
      then match word with
           | [] => split_from [] t
           | _ :: _ => word :: split_from [] t
           end
      else split_from (word ++ [c]) t
  end.

Definition split (s : bytes) : list bytes := split_from [] s.

(** The literal ['\n']. *)
Definition NEWLINE : bytes := [x0a].

(** [sep.join(items)]. *)
Fixpoint join (sep : bytes) (items : list bytes) : bytes :=
  match items with
  | [] => []
  | [x] => x
  | x :: rest => x ++ sep ++ join sep rest
  end.

(** [os.path.join(directory, name)] on POSIX, for a directory without a
    trailing slash. *)
Definition path_join (directory name : bytes) : bytes :=
  if starts_with (bs "/") name then name else directory ++ bs "/" ++ name.

#[global] Instance byte_eq_decision : EqDecision byte := Byte.byte_eq_dec.

#[global] Instance byte_countable : Countable byte :=
  inj_countable Byte.to_N Byte.of_N Byte.of_to_N.

(** ** Exceptions, the socket and the file system *)

Inductive exn : Type :=
| socket_timeout
| OSError (text : bytes)
| UnicodeDecodeError (text : bytes)
| binascii_Error (text : bytes)
| TypeError (text : bytes).

(** [str(error)]. *)
Definition str_exn (e : exn) : bytes :=
  match e with
  | socket_timeout => bs "timed out"
  | OSError t | UnicodeDecodeError t | binascii_Error t | TypeError t => t
  end.

(** What one [recv] call gives: some bytes, or an exception. *)
Inductive recv_event : Type :=
| Data (d : bytes)
| Fault (e : exn).

(** What [recv] does once the scripted events are used up: the peer has
    closed its side (every further [recv] returns [b'']) or stays silent
    (the socket timeout fires). *)
Inductive peer_end : Type := PeerClosed | PeerSilent.

Record world : Type := World {
  incoming : list recv_event;
  at_end : peer_end;
  (** [None]: every send succeeds; [Some k]: the next [k] sends succeed and
      every later one raises. *)
  writable : option nat;
  sent : list bytes;
  closed : bool;
  (** regular files, by path *)
  files : gmap bytes bytes;
  (** paths on which [open] raises *)
  open_fault : bytes -> option exn;
  listdir_fault : option exn;
  connect_fault : option exn;
  uuid4 : bytes;
  successful_ops : N;
  failed_ops : N }.

Definition set_incoming (v : list recv_event) (w : world) : world :=
  World v (at_end w) (writable w) (sent w) (closed w) (files w) (open_fault w)
    (listdir_fault w) (connect_fault w) (uuid4 w) (successful_ops w) (failed_ops w).

Definition set_socket (wr : option nat) (s : list bytes) (w : world) : world :=
  World (incoming w) (at_end w) wr s (closed w) (files w) (open_fault w)
    (listdir_fault w) (connect_fault w) (uuid4 w) (successful_ops w) (failed_ops w).

Definition set_closed (v : bool) (w : world) : world :=
  World (incoming w) (at_end w) (writable w) (sent w) v (files w) (open_fault w)
    (listdir_fault w) (connect_fault w) (uuid4 w) (successful_ops w) (failed_ops w).

Definition set_files (v : gmap bytes bytes) (w : world) : world :=
  World (incoming w) (at_end w) (writable w) (sent w) (closed w) v (open_fault w)
    (listdir_fault w) (connect_fault w) (uuid4 w) (successful_ops w) (failed_ops w).

Definition set_counters (s f : N) (w : world) : world :=
  World (incoming w) (at_end w) (writable w) (sent w) (closed w) (files w)
    (open_fault w) (listdir_fault w) (connect_fault w) (uuid4 w) s f.

(** A computation returns a value, raises, or never returns. *)
Inductive outcome (A : Type) : Type :=
| Ok (a : A)
| Raise (e : exn)
| Hang.
Arguments Ok {A} a.
Arguments Raise {A} e.
Arguments Hang {A}.

Definition M (A : Type) : Type := world -> outcome A * world.

Definition ret {A} (a : A) : M A := fun w => (Ok a, w).

Definition raise {A} (e : exn) : M A := fun w => (Raise e, w).

Definition hang {A} : M A := fun w => (Hang, w).

Definition bind {A B} (m : M A) (k : A -> M B) : M B :=
  fun w =>
    match m w with
    | (Ok a, w') => k a w'
    | (Raise e, w') => (Raise e, w')
    | (Hang, w') => (Hang, w')
    end.

Declare Scope M_scope.
Delimit Scope M_scope with M.
Notation "x <- m ;; k" := (bind m (fun x => k))
  (at level 100, m at next level, right associativity) : M_scope.
Notation "m ;; k" := (bind m (fun _ => k))
  (at level 100, right associativity) : M_scope.
Local Open Scope M_scope.

(** [try: body / except Exception as error: handler]. *)
Definition try_except {A} (body : M A) (handler : exn -> M A) : M A :=
  fun w =>
    match body w with
    | (Raise e, w') => handler e w'
    | r => r
    end.

(** [try: body / finally: cleanup]. *)
Definition try_finally {A} (body : M A) (cleanup : M unit) : M A :=
  fun w =>
    match body w with
    | (Hang, w') => (Hang, w')
    | (r, w') =>
        match cleanup w' with
        | (Ok _, w'') => (r, w'')
        | (Raise e, w'') => (Raise e, w'')
        | (Hang, w'') => (Hang, w'')
        end
    end.

(** [sock.recv(bufsize)]; the events of the script are the results of the
    successive calls. *)
Definition recv (bufsize : N) : M bytes :=
  fun w =>
    match incoming w with
    | Data d :: rest => (Ok d, set_incoming rest w)
    | Fault e :: rest => (Raise e, set_incoming rest w)
    | [] =>
        match at_end w with
        | PeerClosed => (Ok [], w)
        | PeerSilent => (Raise socket_timeout, w)
        end
    end.

(** [sock.send(data)] and [sock.sendall(data)]; a send that does not raise
    transmits all of [data]. *)
Definition send (data : bytes) : M unit :=
  fun w =>
    match writable w with
    | None => (Ok tt, set_socket None (sent w ++ [data]) w)
    | Some (S k) => (Ok tt, set_socket (Some k) (sent w ++ [data]) w)
    | Some O => (Raise (OSError (bs "[Errno 32] Broken pipe")), w)
    end.

Definition sendall (data : bytes) : M unit := send data.

Definition connect : M unit :=
  fun w =>
    match connect_fault w with
    | Some e => (Raise e, w)
    | None => (Ok tt, w)
    end.

Definition close : M unit := fun w => (Ok tt, set_closed true w).

(** [while True:] around a body that performs one [recv] per round.  Once
    the script is used up and the peer has closed, a round that does not
    leave the loop changes nothing, so a loop still running after one round
    more than there are scripted events runs forever. *)
Definition while_true {A} (rounds : nat -> M A) : M A :=
  fun w => rounds (S (length (incoming w))) w.

Definition decode (d : bytes) : M bytes :=
  if forallb is_ascii d then ret d
  else raise (UnicodeDecodeError (bs "'utf-8' codec can't decode the data")).

Definition b64decode_or_raise (s : bytes) : M bytes :=
  match b64decode s with
  | Some d => ret d
  | None => raise (binascii_Error (binascii_error_text s))
  end.

Definition no_such_file (path : bytes) : exn :=
  OSError (bs "[Errno 2] No such file or directory: '" ++ path ++ bs "'").

Definition os_path_exists (path : bytes) : M bool :=
  fun w => (Ok (bool_decide (is_Some (files w !! path))), w).

(** [open(path, 'rb')] followed by reading: the contents at opening time. *)
Definition open_rb (path : bytes) : M bytes :=
  fun w =>
    match open_fault w path with
    | Some e => (Raise e, w)
    | None =>
        match files w !! path with
        | Some content => (Ok content, w)
        | None => (Raise (no_such_file path), w)
        end
    end.

(** [open(path, 'wb')]: the file is created or emptied. *)
Definition open_wb (path : bytes) : M unit :=
  fun w =>
    match open_fault w path with
    | Some e => (Raise e, w)
    | None => (Ok tt, set_files (<[path := []]> (files w)) w)
    end.

(** [f.write(data)] on a file opened with [open_wb]. *)
Definition file_write (path data : bytes) : M unit :=
  fun w =>
    (Ok tt, set_files (<[path := default [] (files w !! path) ++ data]> (files w)) w).

Definition os_remove (path : bytes) : M unit :=
  fun w =>
    match files w !! path with
    | Some _ => (Ok tt, set_files (delete path (files w)) w)
    | None => (Raise (no_such_file path), w)
    end.

Definition os_path_getsize (path : bytes) : M N :=
  fun w =>
    match files w !! path with
    | Some content => (Ok (N.of_nat (length content)), w)
    | None => (Raise (no_such_file path), w)
    end.

Definition entry_name (directory path : bytes) : option bytes :=
  let prefix := directory ++ bs "/" in
  if starts_with prefix path then Some (drop (length prefix) path) else None.

(** [os.listdir(directory)] for a flat directory. *)
Definition os_listdir (directory : bytes) : M (list bytes) :=
  fun w =>
    match listdir_fault w with
    | Some e => (Raise e, w)
    | None => (Ok (omap (entry_name directory) (map fst (map_to_list (files w)))), w)
    end.

(** [with lock: counter += 1]. *)
Definition incr_successful_ops : M unit :=
  fun w => (Ok tt, set_counters (successful_ops w + 1) (failed_ops w) w).

Definition incr_failed_ops : M unit :=
  fun w => (Ok tt, set_counters (successful_ops w) (failed_ops w + 1) w).

(** The receiving loop shared by the client download and the thread-pool
    upload:
    [while True: part = recv(n); if sentinel in part: data += part.replace(sentinel, b''); break; data += part]. *)
Fixpoint recv_rounds (sentinel : bytes) (bufsize : N) (received_data : bytes)
  (fuel : nat) : M bytes :=
  match fuel with
  | O => hang
  | S fuel' =>
      data_part <- recv bufsize ;;
      if contains sentinel data_part
      then ret (received_data ++ replace_empty sentinel data_part)
      else recv_rounds sentinel bufsize (received_data ++ data_part) fuel'
  end.

Definition recv_until (sentinel : bytes) (bufsize : N) : M bytes :=
  while_true (recv_rounds sentinel bufsize []).

(** ** client_pool.py *)

Module Client.

Definition TRANSFER_BLOCK : N := 1048576.
Definition LOCAL_FOLDER : bytes := bs "client_data".
Definition RECEIVED_FOLDER : bytes := bs "client_downloads".

(** The body of the reading loop of [perform_upload], once per block. *)
Fixpoint send_blocks (blocks : list bytes) : M unit :=
  match blocks with
  | [] => ret tt
  | data_block :: rest =>
      let encoded_block := b64encode data_block in
      send encoded_block ;;
      send_blocks rest
  end.

Definition perform_upload (file_name : bytes) : M (bool * bytes) :=
  try_except
    (let file_path := path_join LOCAL_FOLDER file_name in
     file_size <- os_path_getsize file_path ;;
     try_finally
       (connect ;;
        send (bs "UPLOAD " ++ file_name) ;;
        server_response <- recv TRANSFER_BLOCK ;;
        if negb (bool_decide (server_response = bs "PROCEED")) then
          text <- decode server_response ;;
          ret (false, bs "Server response: " ++ text)
        else
          content <- open_rb file_path ;;
          send_blocks (read_chunks TRANSFER_BLOCK content) ;;
          send (bs "__EOF__") ;;
          reply <- recv TRANSFER_BLOCK ;;
          result <- decode reply ;;
          ret (true, result))
       close)
    (fun e => ret (false, str_exn e)).

Definition perform_download (file_name : bytes) : M (bool * bytes) :=
  try_except
    (try_finally
       (connect ;;
        send (bs "DOWNLOAD " ++ file_name) ;;
        received_data <- recv_until (bs "__EOF__") TRANSFER_BLOCK ;;
        decoded_content <- b64decode_or_raise received_data ;;
        let save_path := path_join RECEIVED_FOLDER file_name in
        open_wb save_path ;;
        file_write save_path decoded_content ;;
        ret (true, bs "Download completed"))
       close)
    (fun e => ret (false, str_exn e)).

End Client.

(** ** server_threadpool.py *)

Module ThreadPool.

Definition DATA_CHUNK : N := 1048576.
Definition STORAGE_FOLDER : bytes := bs "server_storage".

(** The body of the reading loop of the FETCH branch, once per chunk. *)
Fixpoint send_chunks (chunks : list bytes) : M unit :=
  match chunks with
  | [] => ret tt
  | data_chunk :: rest =>
      let encoded_chunk := b64encode data_chunk in
      sendall encoded_chunk ;;
      send_chunks rest
  end.

(** The [if action == ... elif ...] chain of [process_client_request]. *)
Definition dispatch (action : bytes) (command_parts : list bytes) : M unit :=
  if bool_decide (action = bs "DIRECTORY") then
    file_list <- os_listdir STORAGE_FOLDER ;;
    let response :=
      match file_list with
      | [] => bs "Directory empty"
      | _ :: _ => join NEWLINE file_list
      end in
    send response ;;
    incr_successful_ops
  else if bool_decide (action = bs "STORE") then
    match command_parts with
    | _ :: target_filename :: _ =>
        send (bs "READY_FOR_DATA") ;;
        received_data <- recv_until (bs "__COMPLETE__") DATA_CHUNK ;;
        try_except
          (decoded_content <- b64decode_or_raise received_data ;;
           let file_path := path_join STORAGE_FOLDER target_filename in
           open_wb file_path ;;
           file_write file_path decoded_content ;;
           send (bs "File stored successfully") ;;
           incr_successful_ops)
          (fun error =>
             send (bs "Storage error: " ++ str_exn error) ;;
             incr_failed_ops)
    | _ =>
        send (bs "Filename required") ;;
        incr_failed_ops
    end
  else if bool_decide (action = bs "FETCH") then
    match command_parts with
    | _ :: target_filename :: _ =>
        let file_path := path_join STORAGE_FOLDER target_filename in
        found <- os_path_exists file_path ;;
        if negb found then
          send (bs "File unavailable") ;;
          incr_failed_ops
        else
          try_except
            (content <- open_rb file_path ;;
             send_chunks (read_chunks DATA_CHUNK content) ;;
             send (bs "__COMPLETE__") ;;
             incr_successful_ops)
            (fun error =>
               send (bs "Retrieval error: " ++ str_exn error) ;;
               incr_failed_ops)
    | _ =>
        send (bs "Filename required") ;;
        incr_failed_ops
    end
  else
    send (bs "Unrecognized command") ;;
    incr_failed_ops.

(** The [try] block of [process_client_request]; each [return] of the
    source ends a branch here. *)
Definition handle_request : M unit :=
  raw <- recv DATA_CHUNK ;;
  request_data <- decode raw ;;
  match request_data with
  | [] => incr_failed_ops
  | _ :: _ =>
      let command_parts := split (strip request_data) in
      match command_parts with
      | [] =>
          send (bs "Invalid request format") ;;
          incr_failed_ops
      | command :: _ =>
          let action := upper command in
          dispatch action command_parts
      end
  end.

Definition process_client_request : M unit :=
  try_finally
    (try_except handle_request
       (fun error =>
          try_except (send (bs "Error: " ++ str_exn error)) (fun _ => ret tt) ;;
          incr_failed_ops))
    close.

End ThreadPool.

(** ** server_processpool.py *)

Module ProcessPool.

Definition CHUNK_SIZE : N := 1048576.
Definition STORAGE_DIR : bytes := bs "server_storage".

(** The second argument of [execute_command]: [None], a file name, or a
    pair of a file name and a path. *)
Inductive parameters_t : Type :=
| PNone
| PName (filename : bytes)
| PPair (filename temp_path : bytes).

Definition execute_command (command : bytes) (parameters : parameters_t) : M bytes :=
  try_except
    (if bool_decide (command = bs "LIST_FILES") then
       files <- os_listdir STORAGE_DIR ;;
       ret match files with
           | [] => bs "Empty directory"
           | _ :: _ => join NEWLINE files
           end
     else if bool_decide (command = bs "STORE_FILE") then
       match parameters with
       | PPair filename temp_path =>
           found <- os_path_exists temp_path ;;
           if negb found then ret (bs "Temp file missing: " ++ temp_path)
           else
             encoded_content <- open_rb temp_path ;;
             file_content <- b64decode_or_raise encoded_content ;;
             let destination := path_join STORAGE_DIR filename in
             open_wb destination ;;
             file_write destination file_content ;;
             os_remove temp_path ;;
             ret (bs "File stored successfully")
       | _ => raise (TypeError (bs "cannot unpack the parameters"))
       end
     else if bool_decide (command = bs "RETRIEVE_FILE") then
       match parameters with
       | PName filename =>
           let file_path := path_join STORAGE_DIR filename in
           found <- os_path_exists file_path ;;
           if negb found then ret (bs "File unavailable")
           else
             content <- open_rb file_path ;;
             ret (b64encode content ++ bs "__EOF__")
       | _ => raise (TypeError (bs "expected str, bytes or os.PathLike object"))
       end
     else ret (bs "Invalid operation"))
    (fun error => ret (bs "Operation failed: " ++ str_exn error)).

(** The receiving loop of the UPLOAD branch, which writes each part to the
    staging file. *)
Fixpoint stage_rounds (temp_path : bytes) (fuel : nat) : M unit :=
  match fuel with
  | O => hang
  | S fuel' =>
      data_chunk <- recv CHUNK_SIZE ;;
      if contains (bs "__EOF__") data_chunk
      then file_write temp_path (replace_empty (bs "__EOF__") data_chunk)
      else file_write temp_path data_chunk ;; stage_rounds temp_path fuel'
  end.

(** The [if operation == ... elif ...] chain of [manage_connection];
    [executor.submit(f, ...).result()] is the call of [f]. *)
Definition dispatch (operation : bytes) (parts : list bytes) : M unit :=
  if bool_decide (operation = bs "LIST") then
    response <- execute_command (bs "LIST_FILES") PNone ;;
    sendall response ;;
    incr_successful_ops
  else if bool_decide (operation = bs "UPLOAD") then
    match parts with
    | _ :: filename :: _ =>
        send (bs "PROCEED") ;;
        u <- (fun w => (Ok (uuid4 w), w)) ;;
        let temp_filename := filename ++ bs "_" ++ u ++ bs ".tmp" in
        let temp_path := path_join STORAGE_DIR temp_filename in
        open_wb temp_path ;;
        while_true (stage_rounds temp_path) ;;
        response <- execute_command (bs "STORE_FILE") (PPair filename temp_path) ;;
        sendall response ;;
        if contains (bs "success") (lower response)
        then incr_successful_ops
        else incr_failed_ops
    | _ =>
        send (bs "Missing filename") ;;
        incr_failed_ops
    end
  else if bool_decide (operation = bs "DOWNLOAD") then
    match parts with
    | _ :: filename :: _ =>
        response <- execute_command (bs "RETRIEVE_FILE") (PName filename) ;;
        if contains (bs "unavailable") (lower response) then
          sendall response ;;
          incr_failed_ops
        else
          sendall response ;;
          incr_successful_ops
    | _ =>
        send (bs "Missing filename") ;;
        incr_failed_ops
    end
  else
    send (bs "Unknown operation") ;;
    incr_failed_ops.

(** The [try] block of [manage_connection]. *)
Definition handle_request : M unit :=
  raw <- recv CHUNK_SIZE ;;
  text <- decode raw ;;
  let request := strip text in
  match request with
  | [] => incr_failed_ops
  | _ :: _ =>
      let parts := split request in
      match parts with
      | [] =>
          send (bs "Invalid request") ;;
          incr_failed_ops
      | command :: _ =>
          let operation := upper command in
          dispatch operation parts
      end
  end.

Definition manage_connection : M unit :=
  try_finally
    (try_except handle_request
       (fun error =>
          try_except (send (bs "Error: " ++ str_exn error)) (fun _ => ret tt) ;;
          incr_failed_ops))
    close.

End ProcessPool.

(** ** Auxiliary definitions used in the proofs *)

(** Every byte, for checks by enumeration. *)
Definition all_bytes : list byte := omap Byte.of_N (map N.of_nat (seq 0 256)).

(** The four 6-bit groups of a block of three bytes. *)
Definition sx0 (x : byte) : N := N.shiftr (byte_val x) 2.
Definition sx1 (x y : byte) : N :=
  N.lor (N.shiftl (N.land (byte_val x) 3) 4) (N.shiftr (byte_val y) 4).
Definition sx2 (y z : byte) : N :=
  N.lor (N.shiftl (N.land (byte_val y) 15) 2) (N.shiftr (byte_val z) 6).
Definition sx3 (z : byte) : N := N.land (byte_val z) 63.

(** The output alphabet of the codec: the table and the padding byte. *)
Definition is_b64_char (c : byte) : bool :=
  existsb (Byte.eqb c) (table_b2a_base64 ++ [BASE64_PAD]).

Definition UNDERSCORE : byte := "_".

(** A fresh connection: the reads its [recv] calls will return, what the
    peer does afterwards, and the files present; the socket stays writable
    and no file-system call fails. *)
Definition connection (reads : list bytes) (e : peer_end)
  (fs : gmap bytes bytes) : world :=
  World (map Data reads) e None [] false fs (fun _ => None) None None
    (bs "0f8fad5b-d9cb-469f-a165-70867728950e") 0 0.

(** What is left of the write budget after a successful send. *)
Definition after_send (budget : option nat) : option nat :=
  match budget with
  | Some (S k) => Some k
  | other => other
  end.

(** The [except] clause of both handlers: an attempt to report the error,
    then one failure counted. *)
Definition report_failure (error : exn) : M unit :=
  try_except (send (bs "Error: " ++ str_exn error)) (fun _ => ret tt) ;;
  incr_failed_ops.

(** The two server variants side by side. *)
Inductive variant : Type := thread_pool | process_pool.

Definition handler (v : variant) : M unit :=
  match v with
  | thread_pool => ThreadPool.process_client_request
  | process_pool => ProcessPool.manage_connection
  end.

Definition handle_request (v : variant) : M unit :=
  match v with
  | thread_pool => ThreadPool.handle_request
  | process_pool => ProcessPool.handle_request
  end.

Definition dispatch (v : variant) : bytes -> list bytes -> M unit :=
  match v with
  | thread_pool => ThreadPool.dispatch
  | process_pool => ProcessPool.dispatch
  end.

Definition storage_root (v : variant) : bytes :=
  match v with
  | thread_pool => ThreadPool.STORAGE_FOLDER
  | process_pool => ProcessPool.STORAGE_DIR
  end.

(** The command words and markers each variant uses. *)
Definition list_word (v : variant) : bytes :=
  match v with thread_pool => bs "DIRECTORY" | process_pool => bs "LIST" end.

Definition upload_word (v : variant) : bytes :=
  match v with thread_pool => bs "STORE" | process_pool => bs "UPLOAD" end.

Definition download_word (v : variant) : bytes :=
  match v with thread_pool => bs "FETCH" | process_pool => bs "DOWNLOAD" end.

Definition go_ahead (v : variant) : bytes :=
  match v with thread_pool => bs "READY_FOR_DATA" | process_pool => bs "PROCEED" end.

Definition sentinel (v : variant) : bytes :=
  match v with thread_pool => bs "__COMPLETE__" | process_pool => bs "__EOF__" end.

Definition empty_marker (v : variant) : bytes :=
  match v with thread_pool => bs "Directory empty" | process_pool => bs "Empty directory" end.

Definition missing_name (v : variant) : bytes :=
  match v with thread_pool => bs "Filename required" | process_pool => bs "Missing filename" end.

Definition unknown_command (v : variant) : bytes :=
  match v with thread_pool => bs "Unrecognized command" | process_pool => bs "Unknown operation" end.

(** The reply to a listing request: the names in the storage directory
    joined by newlines, or the variant's marker when there is none. *)
Definition listing (v : variant) (w : world) : bytes :=
  let names := omap (entry_name (storage_root v)) (map fst (map_to_list (files w))) in
  match names with
  | [] => empty_marker v
  | _ :: _ => join NEWLINE names
  end.

(** Outcomes of a handler run used in the statements below: the request is
    answered with [text] (if the socket can be written) and counted as a
    failure; or it is counted as a failure without any answer.  In both the
    handler returns normally, the files and the success counter are
    untouched and the connection is closed. *)
Definition replies_and_fails (v : variant) (w : world) (text : bytes) : Prop :=
  let r := handler v w in
  fst r = Ok tt /\ files (snd r) = files w /\
  successful_ops (snd r) = successful_ops w /\
  failed_ops (snd r) = failed_ops w + 1 /\
  closed (snd r) = true /\
  (writable w <> Some O -> sent (snd r) = sent w ++ [text]).

Definition fails_silently (v : variant) (w : world) : Prop :=
  let r := handler v w in
  fst r = Ok tt /\ files (snd r) = files w /\
  successful_ops (snd r) = successful_ops w /\
  failed_ops (snd r) = failed_ops w + 1 /\
  closed (snd r) = true /\
  sent (snd r) = sent w.

(** What a variant sends for a download of a file with the given contents:
    the thread-pool server one message per block read and then the
    sentinel, the process-pool server a single message. *)
Definition download_reply (v : variant) (content : bytes) : list bytes :=
  match v with
  | thread_pool =>
      map b64encode (read_chunks ThreadPool.DATA_CHUNK content) ++ [bs "__COMPLETE__"]
  | process_pool => [b64encode content ++ bs "__EOF__"]
  end.

(** The staging path of an upload in the process-pool variant. *)
Definition staging_path (name : bytes) (w : world) : bytes :=
  path_join ProcessPool.STORAGE_DIR (name ++ bs "_" ++ uuid4 w ++ bs ".tmp").

(** Between [w] and [w'] the two counters went up by [n] in total and
    neither went down. *)
Definition ticks (n : N) (w w' : world) : Prop :=
  successful_ops w <= successful_ops w' /\
  failed_ops w <= failed_ops w' /\
  successful_ops w' + failed_ops w' = successful_ops w + failed_ops w + n.

(** A computation that has counted [n] operations when it returns and none
    when it raises; it hangs only on a peer that has closed, having counted
    nothing. *)
Definition counts (n : N) {A : Type} (m : M A) : Prop :=
  forall w,
    match m w with
    | (Ok _, w') => ticks n w w' /\ at_end w' = at_end w
    | (Raise _, w') => ticks 0 w w' /\ at_end w' = at_end w
    | (Hang, w') => ticks 0 w w' /\ at_end w = PeerClosed
    end.

Definition exactly_one_incremented (w w' : world) : Prop :=
  (successful_ops w' = successful_ops w + 1 /\ failed_ops w' = failed_ops w) \/
  (successful_ops w' = successful_ops w /\ failed_ops w' = failed_ops w + 1).

(** A computation that leaves the counters and the peer alone and never
    hangs. *)
Definition quiet {A : Type} (m : M A) : Prop :=
  forall w, fst (m w) <> Hang /\
            successful_ops (snd (m w)) = successful_ops w /\
            failed_ops (snd (m w)) = failed_ops w /\
            at_end (snd (m w)) = at_end w.

(** ** One client against the process-pool server

    The reads of one side are the messages the other side sent, each cut
    into pieces of at most the buffer size given to [recv]. *)
Definition delivered (bufsize : N) (messages : list bytes) : list bytes :=
  concat (map (read_chunks bufsize) messages).

(** The client uploads [content], stored locally under [file_name]; the
    server receives what the client sent.  The client is given the two
    replies of a successful upload. *)
Definition upload_client (file_name content : bytes) : outcome (bool * bytes) * world :=
  Client.perform_upload file_name
    (connection [bs "PROCEED"; bs "File stored successfully"] PeerClosed
       {[ path_join Client.LOCAL_FOLDER file_name := content ]}).

Definition upload_server (file_name content : bytes) : outcome unit * world :=
  ProcessPool.manage_connection
    (connection
       (delivered ProcessPool.CHUNK_SIZE (sent (snd (upload_client file_name content))))
       PeerSilent ∅).

(** The client then downloads [file_name] from the storage the upload left. *)
Definition download_server (file_name content : bytes) : outcome unit * world :=
  ProcessPool.manage_connection
    (connection [bs "DOWNLOAD " ++ file_name] PeerSilent
       (files (snd (upload_server file_name content)))).

Definition download_client (file_name content : bytes) : outcome (bool * bytes) * world :=
  Client.perform_download file_name
    (connection
       (delivered Client.TRANSFER_BLOCK (sent (snd (download_server file_name content))))
       PeerClosed ∅).

(** A computation that leaves every stored file as it was. *)
Definition keeps_files {A : Type} (m : M A) : Prop :=
  forall w, files (snd (m w)) = files w.

(** The decimal digits, and a byte string with its digits taken out. *)
Definition is_digit (c : byte) : bool :=
  let v := byte_val c in (48 <=? v) && (v <=? 57).

Definition without_digits (s : bytes) : bytes :=
  List.filter (fun c => negb (is_digit c)) s.

(** ** One client against either server: requests that are turned down

    The server handles a connection on which the request line arrives; the
    client then reads what the server sent before it closed. *)
Definition request_served (v : variant) (request : bytes) (fs : gmap bytes bytes)
  : outcome unit * world :=
  handler v (connection [request] PeerSilent fs).

Definition upload_against (v : variant) (file_name content : bytes)
  (fs : gmap bytes bytes) : outcome (bool * bytes) * world :=
  Client.perform_upload file_name
    (connection
       (delivered Client.TRANSFER_BLOCK
          (sent (snd (request_served v (bs "UPLOAD " ++ file_name) fs))))
       PeerClosed {[ path_join Client.LOCAL_FOLDER file_name := content ]}).

Definition download_against (v : variant) (file_name : bytes)
  (fs : gmap bytes bytes) : outcome (bool * bytes) * world :=
  Client.perform_download file_name
    (connection
       (delivered Client.TRANSFER_BLOCK
          (sent (snd (request_served v (bs "DOWNLOAD " ++ file_name) fs))))
       PeerClosed ∅).

(** ** Timing an operation: [execute_operation] of client_pool.py *)

(** A Python number: an [int] or a [float] (IEEE 754 binary64). *)
Inductive number : Type :=
| Int (n : Z)
| Float (f : PrimFloat.float).

(** [float(n)] for a non-negative integer, as the division of an [int] by a
    [float] computes it: the nearest binary64 value, ties to even.  (Python
    raises [OverflowError] from 2**1024 on, far above any file size.) *)
Definition float_of_N (n : N) : PrimFloat.float :=
  FloatOps.SF2Prim
    (SpecFloat.binary_normalize FloatOps.prec FloatOps.emax (Z.of_N n) 0 false).

(** [execute_operation(op_type, file_name)]; [start_time] and [end_time] are
    what the two calls of [time.time()] return. *)
Definition execute_operation (start_time end_time : PrimFloat.float)
  (op_type file_name : bytes) : M (bool * number * number * bytes) :=
  let timed (r : bool * bytes) : M (bool * number * number * bytes) :=
    let (success, message) := r in
    let duration := PrimFloat.sub end_time start_time in
    let file_path :=
      path_join (if bool_decide (op_type = bs "upload")
                 then Client.LOCAL_FOLDER else Client.RECEIVED_FOLDER) file_name in
    size <- (if success then
               found <- os_path_exists file_path ;;
               if found then os_path_getsize file_path else ret 0
             else ret 0) ;;
    let speed :=
      if PrimFloat.ltb PrimFloat.zero duration
      then Float (PrimFloat.div (float_of_N size) duration)
      else Int 0 in
    ret (success, Float duration, speed, message) in
  if bool_decide (op_type = bs "upload") then
    r <- Client.perform_upload file_name ;; timed r
  else if bool_decide (op_type = bs "download") then
    r <- Client.perform_download file_name ;; timed r
  else ret (false, Int 0, Int 0, bs "Invalid operation: " ++ op_type).

Definition is_zero (x : number) : Prop :=
  match x with
  | Int n => n = 0%Z
  | Float f => f = PrimFloat.zero
  end.


(** ** The benchmark driver: [run_client] of client_pool.py *)

Definition float_of_Z (z : Z) : PrimFloat.float :=
  FloatOps.SF2Prim (SpecFloat.binary_normalize FloatOps.prec FloatOps.emax z 0 false).

Definition to_float (x : number) : PrimFloat.float :=
  match x with
  | Int n => float_of_Z n
  | Float f => f
  end.

(** [x + y]: exact on two [int]s, in floating point otherwise. *)
Definition number_add (x y : number) : number :=
  match x, y with
  | Int a, Int b => Int (a + b)
  | _, _ => Float (PrimFloat.add (to_float x) (to_float y))
  end.

(** [x / n] for an [int] [n] other than zero: always a [float].  (For an
    [int] [x] Python rounds the exact quotient; this agrees with the division
    of the two converted values when both are below 2**53.) *)
Definition number_div (x : number) (n : Z) : number :=
  Float (PrimFloat.div (to_float x) (float_of_Z n)).

(** What [execute_operation] returns: status, duration, speed, message. *)
Definition task_outcome : Type := bool * number * number * bytes.

(** The lines [run_client] prints, each with the values it formats. *)
Inductive printed : Type :=
| Usage
| InvalidSizeOption (size_option : bytes)
| InvalidExecutionMode
| StartingTest (operation target_file : bytes) (worker_count : Z) (execution_mode : bytes)
| TaskReport (status : bool) (elapsed throughput : number) (msg : bytes)
| TestSummary (operation target_file : bytes) (worker_count : Z)
    (execution_mode : bytes) (avg_time avg_speed : number)
    (success_total failure_total : Z).

(** How [run_client] ends: it returns, or a [ValueError] leaves it, raised
    by [int(sys.argv[3])] or by the constructor of the executor. *)
Inductive ending : Type :=
| Returns
| ValueError_int (text : bytes)
| ValueError_max_workers.

Definition file_mapping : gmap bytes bytes :=
  {[ bs "10MB" := bs "10mb.txt"; bs "50MB" := bs "50mb.txt"; bs "100MB" := bs "100mb.txt" ]}.

(** The four running totals of the loop over the completed tasks. *)
Record totals : Type := Totals {
  success_total : Z;
  failure_total : Z;
  time_accumulated : number;
  speed_accumulated : number }.

(** The body of [for task in as_completed(tasks)], without its [print]. *)
Definition count_task (t : totals) (r : task_outcome) : totals :=
  let '(status, elapsed, throughput, _) := r in
  if status
  then Totals (success_total t + 1) (failure_total t)
         (number_add (time_accumulated t) elapsed)
         (number_add (speed_accumulated t) throughput)
  else Totals (success_total t) (failure_total t + 1)
         (time_accumulated t) (speed_accumulated t).

Definition report_task (r : task_outcome) : printed :=
  let '(status, elapsed, throughput, msg) := r in
  TaskReport status elapsed throughput msg.

Section RunClient.

(** [int(text)] of Python, and the executor: [completed i op file] is what
    the [i]-th task to complete, a call [execute_operation(op, file)],
    returned. *)
Variable int : bytes -> option Z.
Variable completed : nat -> bytes -> bytes -> task_outcome.

(** [run_client()] with [sys.argv = argv]; the arguments are ASCII text. *)
Definition run_client (argv : list bytes) : list printed * ending :=
  match argv with
  | [_; argv1; argv2; argv3; argv4] =>
      let operation := lower argv1 in
      let size_option := argv2 in
      match int argv3 with
      | None => ([], ValueError_int argv3)
      | Some worker_count =>
          let execution_mode := lower argv4 in
          match file_mapping !! size_option with
          | None => ([InvalidSizeOption size_option], Returns)
          | Some target_file =>
              if negb (bool_decide (execution_mode = bs "thread"))
                 && negb (bool_decide (execution_mode = bs "process"))
              then ([InvalidExecutionMode], Returns)
              else
                let starting :=
                  StartingTest operation target_file worker_count execution_mode in
                if (worker_count <=? 0)%Z then ([starting], ValueError_max_workers)
                else
                  let results :=
                    map (fun i => completed i operation target_file)
                      (seq 0 (Z.to_nat worker_count)) in
                  let t := fold_left count_task results (Totals 0 0 (Int 0) (Int 0)) in
                  let avg_time :=
                    if (success_total t =? 0)%Z then Int 0
                    else number_div (time_accumulated t) (success_total t) in
                  let avg_speed :=
                    if (success_total t =? 0)%Z then Int 0
                    else number_div (speed_accumulated t) (success_total t) in
                  (starting :: map report_task results
                     ++ [TestSummary (upper operation) target_file worker_count
                           execution_mode avg_time avg_speed
                           (success_total t) (failure_total t)],
                   Returns)
          end
      end
  | _ => ([Usage], Returns)
  end.

End RunClient.

(** ** The accept loop of server_threadpool.py with one worker

    [launch_server(1)]: the executor has a single worker thread, which runs
    the submitted handlers one after another in the order in which the
    connections were accepted.  A connection is given by what its socket
    will do; the storage and the counters are shared by all of them. *)
Record accepted : Type := Accepted {
  conn_reads : list recv_event;
  conn_peer : peer_end;
  conn_writable : option nat }.

(** [client_conn, client_addr = server.accept()]: a fresh socket. *)
Definition accept (c : accepted) (w : world) : world :=
  World (conn_reads c) (conn_peer c) (conn_writable c) [] false (files w)
    (open_fault w) (listdir_fault w) (connect_fault w) (uuid4 w)
    (successful_ops w) (failed_ops w).

(** The handlers of the accepted connections, run in turn by the one
    worker; a handler that never returns keeps the worker for ever.  The
    result is the state once the listed connections have been dealt with;
    the loop of the source then waits in [accept] again. *)
Fixpoint launch_server (connections : list accepted) : M unit :=
  match connections with
  | [] => ret tt
  | c :: rest =>
      (fun w => ThreadPool.process_client_request (accept c w)) ;;
      launch_server rest
  end.

(** * Properties of the byte-string operations *)

Lemma all_bytes_complete (c : byte) : existsb (Byte.eqb c) all_bytes = true.
Proof. destruct c; vm_compute; reflexivity. Qed.

Lemma forall_bytes (P : byte -> bool) :
  forallb P all_bytes = true -> forall c, P c = true.
Proof.
  intros H c. rewrite forallb_forall in H. apply H.
  pose proof (all_bytes_complete c) as Hc.
  apply existsb_exists in Hc as (d & Hd & Heq).
  apply Byte.byte_dec_bl in Heq. now subst.
Qed.

Lemma forall_bytes2 (P : byte -> byte -> bool) :
  forallb (fun x => forallb (P x) all_bytes) all_bytes = true ->
  forall x y, P x y = true.
Proof.
  intros H x y. apply forall_bytes.
  apply (forall_bytes (fun x => forallb (P x) all_bytes) H).
Qed.

Lemma byte_eqb_refl (c : byte) : Byte.eqb c c = true.
Proof. now apply Byte.byte_dec_lb. Qed.

Lemma byte_eqb_neq (c d : byte) : c <> d -> Byte.eqb c d = false.
Proof.
  intros H. destruct (Byte.eqb c d) eqn:E; [|reflexivity].
  now apply Byte.byte_dec_bl in E.
Qed.

Lemma b2a_a2b (s : N) : s < 64 -> a2b (b2a s) = Some s /\ Byte.eqb (b2a s) BASE64_PAD = false.
Proof.
  intros H.
  assert (Hk : exists k, (k < 64)%nat /\ s = N.of_nat k).
  { exists (N.to_nat s). split; lia. }
  destruct Hk as (k & Hk & ->).
  do 64 (destruct k as [|k]; [vm_compute; split; reflexivity|]). lia.
Qed.

Lemma sx0_lt x : sx0 x < 64.
Proof.
  apply N.ltb_lt. revert x. apply forall_bytes. vm_compute. reflexivity.
Qed.
Lemma sx1_lt x y : sx1 x y < 64.
Proof.
  apply N.ltb_lt. revert x y. apply (forall_bytes2 (fun x y => sx1 x y <? 64)). vm_compute. reflexivity.
Qed.
Lemma sx2_lt y z : sx2 y z < 64.
Proof.
  apply N.ltb_lt. revert y z. apply (forall_bytes2 (fun y z => sx2 y z <? 64)). vm_compute. reflexivity.
Qed.
Lemma sx3_lt z : sx3 z < 64.
Proof.
  apply N.ltb_lt. revert z. apply forall_bytes. vm_compute. reflexivity.
Qed.

Lemma byte_eqb_eq (c d : byte) : Byte.eqb c d = true -> c = d.
Proof. apply Byte.byte_dec_bl. Qed.

(** Recombining the 6-bit groups, as the decoding loop does. *)
Lemma join_first x y :
  byte_of (N.lor (N.shiftl (sx0 x) 2) (N.shiftr (sx1 x y) 4)) = x.
Proof.
  apply byte_eqb_eq. revert x y.
  apply (forall_bytes2 (fun x y =>
    Byte.eqb (byte_of (N.lor (N.shiftl (sx0 x) 2) (N.shiftr (sx1 x y) 4))) x)).
  vm_compute. reflexivity.
Qed.

Lemma keep_second x y : N.land (sx1 x y) 15 = N.shiftr (byte_val y) 4.
Proof.
  apply N.eqb_eq. revert x y.
  apply (forall_bytes2 (fun x y => N.land (sx1 x y) 15 =? N.shiftr (byte_val y) 4)).
  vm_compute. reflexivity.
Qed.

Lemma join_second y z :
  byte_of (N.lor (N.shiftl (N.shiftr (byte_val y) 4) 4) (N.shiftr (sx2 y z) 2)) = y.
Proof.
  apply byte_eqb_eq. revert y z.
  apply (forall_bytes2 (fun y z =>
    Byte.eqb (byte_of (N.lor (N.shiftl (N.shiftr (byte_val y) 4) 4) (N.shiftr (sx2 y z) 2))) y)).
  vm_compute. reflexivity.
Qed.

Lemma keep_third y z : N.land (sx2 y z) 3 = N.shiftr (byte_val z) 6.
Proof.
  apply N.eqb_eq. revert y z.
  apply (forall_bytes2 (fun y z => N.land (sx2 y z) 3 =? N.shiftr (byte_val z) 6)).
  vm_compute. reflexivity.
Qed.

Lemma join_third z :
  byte_of (N.lor (N.shiftl (N.shiftr (byte_val z) 6) 6) (sx3 z)) = z.
Proof.
  apply byte_eqb_eq. revert z.
  apply (forall_bytes (fun z =>
    Byte.eqb (byte_of (N.lor (N.shiftl (N.shiftr (byte_val z) 6) 6) (sx3 z))) z)).
  vm_compute. reflexivity.
Qed.

Lemma sx1_last x : N.shiftl (N.land (byte_val x) 3) 4 = sx1 x x00.
Proof. unfold sx1. simpl (N.shiftr _ 4). now rewrite N.lor_0_r. Qed.

Lemma sx2_last y : N.shiftl (N.land (byte_val y) 15) 2 = sx2 y x00.
Proof. unfold sx2. simpl (N.shiftr _ 6). now rewrite N.lor_0_r. Qed.

(** One step of the decoding loop on an alphabet character. *)
Lemma a2b_loop_data (s : N) (rest : bytes) (q lc p : N) :
  s < 64 ->
  a2b_loop (b2a s :: rest) q lc p =
    if q =? 0 then a2b_loop rest 1 s 0
    else if q =? 1 then
      cons (byte_of (N.lor (N.shiftl lc 2) (N.shiftr s 4))) <$> a2b_loop rest 2 (N.land s 15) 0
    else if q =? 2 then
      cons (byte_of (N.lor (N.shiftl lc 4) (N.shiftr s 2))) <$> a2b_loop rest 3 (N.land s 3) 0
    else cons (byte_of (N.lor (N.shiftl lc 6) s)) <$> a2b_loop rest 0 0 0.
Proof.
  intros Hs. destruct (b2a_a2b s Hs) as [Ha Hp].
  cbn [a2b_loop]. now rewrite Hp, Ha.
Qed.

(** At the start of a group the kept bits and the padding count are dead. *)
Lemma a2b_loop_start (s : bytes) (lc p : N) : a2b_loop s 0 lc p = a2b_loop s 0 0 0.
Proof.
  induction s as [|c s IH]; [reflexivity|].
  cbn [a2b_loop]. destruct (Byte.eqb c BASE64_PAD).
  - cbn. apply IH.
  - destruct (a2b c); [reflexivity|]. apply IH.
Qed.

Lemma a2b_loop_group (x y z : byte) (rest : bytes) (lc p : N) :
  a2b_loop (b2a (sx0 x) :: b2a (sx1 x y) :: b2a (sx2 y z) :: b2a (sx3 z) :: rest) 0 lc p
  = (fun d => x :: y :: z :: d) <$> a2b_loop rest 0 0 0.
Proof.
  rewrite a2b_loop_data by apply sx0_lt. cbn [N.eqb].
  rewrite a2b_loop_data by apply sx1_lt. cbn [N.eqb Pos.eqb].
  rewrite a2b_loop_data by apply sx2_lt. cbn [N.eqb Pos.eqb].
  rewrite a2b_loop_data by apply sx3_lt. cbn [N.eqb Pos.eqb].
  rewrite join_first, keep_second, join_second, keep_third, join_third.
  destruct (a2b_loop rest 0 0 0); reflexivity.
Qed.

Lemma a2b_loop_last1 (x : byte) (rest : bytes) (lc p : N) :
  a2b_loop (b2a (sx0 x) :: b2a (sx1 x x00) :: BASE64_PAD :: BASE64_PAD :: rest) 0 lc p
  = Some [x].
Proof.
  rewrite a2b_loop_data by apply sx0_lt. cbn [N.eqb].
  rewrite a2b_loop_data by apply sx1_lt. cbn [N.eqb Pos.eqb].
  rewrite join_first. reflexivity.
Qed.

Lemma a2b_loop_last2 (x y : byte) (rest : bytes) (lc p : N) :
  a2b_loop (b2a (sx0 x) :: b2a (sx1 x y) :: b2a (sx2 y x00) :: BASE64_PAD :: rest) 0 lc p
  = Some [x; y].
Proof.
  rewrite a2b_loop_data by apply sx0_lt. cbn [N.eqb].
  rewrite a2b_loop_data by apply sx1_lt. cbn [N.eqb Pos.eqb].
  rewrite a2b_loop_data by apply sx2_lt. cbn [N.eqb Pos.eqb].
  rewrite join_first, keep_second, join_second. reflexivity.
Qed.

Lemma list_ind3 {A} (P : list A -> Prop) :
  P [] -> (forall x, P [x]) -> (forall x y, P [x; y]) ->
  (forall x y z l, P l -> P (x :: y :: z :: l)) ->
  forall l, P l.
Proof.
  intros H0 H1 H2 H3.
  fix IH 1. intros [|x [|y [|z l]]];
    [apply H0 | apply H1 | apply H2 | apply H3, IH].
Qed.

(** Decoding an encoding followed by anything: a padded encoding ends the
    decoding, an unpadded one lets it continue. *)
Lemma a2b_loop_b64encode (x rest : bytes) (lc p : N) :
  a2b_loop (b64encode x ++ rest) 0 lc p =
    if Nat.eqb (length x mod 3) 0
    then app x <$> b64decode rest
    else Some x.
Proof.
  revert lc p. induction x as [|a|a c|a c d x IH] using list_ind3; intros lc p.
  - cbn. rewrite a2b_loop_start. unfold b64decode. now destruct (a2b_loop rest 0 0 0).
  - cbn [b64encode app length Nat.modulo]. rewrite sx1_last. apply a2b_loop_last1.
  - cbn [b64encode app]. rewrite sx2_last. apply a2b_loop_last2.
  - change (b64encode (a :: c :: d :: x)) with
      (b2a (sx0 a) :: b2a (sx1 a c) :: b2a (sx2 c d) :: b2a (sx3 d) :: b64encode x).
    cbn [app]. rewrite a2b_loop_group, IH.
    replace (length (a :: c :: d :: x) mod 3)%nat with (length x mod 3)%nat.
    2:{ cbn [length]. replace (S (S (S (length x)))) with (length x + 1 * 3)%nat by lia.
        now rewrite Nat.Div0.mod_add. }
    destruct (Nat.eqb (length x mod 3) 0); [|reflexivity].
    destruct (b64decode rest); reflexivity.
Qed.

Lemma b64decode_b64encode (x : bytes) : b64decode (b64encode x) = Some x.
Proof.
  unfold b64decode. rewrite <- (app_nil_r (b64encode x)), a2b_loop_b64encode.
  destruct (Nat.eqb _ 0); [|reflexivity]. cbn. now rewrite app_nil_r.
Qed.

(** ** Searching and deleting a token *)

Lemma starts_with_app (p r : bytes) : starts_with p (p ++ r) = true.
Proof.
  induction p as [|c p IH]; [reflexivity|]. cbn. now rewrite byte_eqb_refl, IH.
Qed.

Lemma starts_with_split (p s : bytes) :
  starts_with p s = true -> exists r, s = p ++ r.
Proof.
  revert s. induction p as [|c p IH]; intros s H.
  - now exists s.
  - destruct s as [|d s]; [discriminate|]. cbn in H.
    apply andb_true_iff in H as [Hc Hp]. apply byte_eqb_eq in Hc as ->.
    destruct (IH s Hp) as [r ->]. now exists r.
Qed.

Lemma starts_with_other (u c : byte) (s t : bytes) :
  c <> u -> starts_with (u :: s) (c :: t) = false.
Proof. intros H. cbn. rewrite byte_eqb_neq; [reflexivity|congruence]. Qed.

Lemma contains_prefix (sub s : bytes) :
  starts_with sub s = true -> contains sub s = true.
Proof. intros H. destruct s; cbn [contains]; now rewrite H. Qed.

Lemma contains_app (sub u v : bytes) : contains sub (u ++ sub ++ v) = true.
Proof.
  induction u as [|c u IH].
  - cbn [app]. apply contains_prefix, starts_with_app.
  - cbn [app contains]. rewrite IH. apply orb_true_r.
Qed.

Lemma contains_split (sub d : bytes) :
  contains sub d = true -> exists u v, d = u ++ sub ++ v.
Proof.
  induction d as [|c d IH]; cbn [contains]; intros H.
  - rewrite orb_false_r in H. destruct (starts_with_split _ _ H) as [r ->].
    now exists [], r.
  - apply orb_true_iff in H as [H|H].
    + destruct (starts_with_split _ _ H) as [r ->]. now exists [], r.
    + destruct (IH H) as (u & v & ->). now exists (c :: u), v.
Qed.

Lemma contains_without_first (u : byte) (s p : bytes) :
  Forall (fun c => c <> u) p -> contains (u :: s) p = false.
Proof.
  induction 1 as [|c p Hc Hp IH]; [reflexivity|].
  cbn [contains]. now rewrite starts_with_other, IH.
Qed.

Lemma contains_short (sub d : bytes) :
  (length d < length sub)%nat -> contains sub d = false.
Proof.
  intros H. destruct (contains sub d) eqn:E; [|reflexivity].
  destruct (contains_split _ _ E) as (u & v & ->).
  rewrite !length_app in H. lia.
Qed.

Lemma delete_from_skip_all (old t : bytes) (k : nat) :
  (length t <= k)%nat -> delete_from old k t = [].
Proof.
  revert k. induction t as [|c t IH]; intros k H; [reflexivity|].
  cbn in H. destruct k as [|k]; [lia|]. cbn. apply IH. lia.
Qed.

(** Deleting every occurrence of a token from a payload that is followed by
    the token, when the first byte of the token does not occur in the
    payload, strips exactly the trailing token. *)
Lemma replace_empty_trailing (u : byte) (s p : bytes) :
  Forall (fun c => c <> u) p ->
  replace_empty (u :: s) (p ++ u :: s) = p.
Proof.
  intros Hp. unfold replace_empty.
  induction Hp as [|c p Hc Hp IH].
  - cbn [app delete_from]. rewrite (starts_with_app (u :: s) []) || idtac.
    replace (starts_with (u :: s) (u :: s)) with true.
    2:{ symmetry. rewrite <- (app_nil_r (u :: s)) at 2. apply starts_with_app. }
    apply delete_from_skip_all. cbn. lia.
  - cbn [app delete_from]. rewrite starts_with_other by assumption. now rewrite IH.
Qed.

(** An occurrence of the token in [p ++ token], with [p] free of the
    token's first byte, can only be the trailing one. *)
Lemma occurrence_is_trailing (u : byte) (s p a c : bytes) :
  Forall (fun x => x <> u) p ->
  a ++ (u :: s) ++ c = p ++ u :: s ->
  a = p /\ c = [].
Proof.
  intros Hp. revert a. induction Hp as [|x p Hx Hp IH]; intros a H.
  - apply (f_equal (@length byte)) in H.
    rewrite !length_app in H. cbn [length] in H. rewrite ?length_app in H.
    destruct a; [|cbn in H; lia]. destruct c; [now split|cbn in H; lia].
  - destruct a as [|y a].
    + cbn in H. injection H as H _. congruence.
    + cbn in H. injection H as -> H. destruct (IH a H) as [-> ->]. now split.
Qed.

(** ** The output alphabet of the encoding *)

Lemma b2a_in_alphabet (n : N) : is_b64_char (b2a n) = true.
Proof.
  unfold b2a.
  destruct (nth_in_or_default (N.to_nat n) table_b2a_base64 BASE64_PAD) as [H| ->];
    [|reflexivity].
  revert H. generalize (nth (N.to_nat n) table_b2a_base64 BASE64_PAD). intros c H.
  assert (Hall : forallb is_b64_char table_b2a_base64 = true) by (vm_compute; reflexivity).
  rewrite forallb_forall in Hall. now apply Hall.
Qed.

Lemma b64encode_alphabet (x : bytes) : forallb is_b64_char (b64encode x) = true.
Proof.
  induction x as [|a|a c|a c d x IH] using list_ind3; cbn [b64encode forallb].
  - reflexivity.
  - now rewrite !b2a_in_alphabet.
  - now rewrite !b2a_in_alphabet.
  - now rewrite !b2a_in_alphabet, IH.
Qed.

Lemma alphabet_no_underscore (p : bytes) :
  forallb is_b64_char p = true -> Forall (fun c => c <> UNDERSCORE) p.
Proof.
  intros H. apply List.Forall_forall. intros c Hc.
  rewrite forallb_forall in H. specialize (H c Hc). intros ->. discriminate H.
Qed.

Lemma concat_encodings_alphabet (chunks : list bytes) :
  forallb is_b64_char (concat (map b64encode chunks)) = true.
Proof.
  induction chunks as [|c chunks IH]; [reflexivity|].
  cbn [map concat]. now rewrite forallb_app, b64encode_alphabet, IH.
Qed.

(** ** Slices and blocks *)

Lemma takeN_firstn (n : N) (s : bytes) : takeN n s = firstn (N.to_nat n) s.
Proof.
  revert n. induction s as [|c s IH]; intros n; cbn [takeN].
  - now rewrite firstn_nil.
  - destruct (N.eqb_spec n 0) as [->|Hn]; [reflexivity|].
    replace (N.to_nat n) with (S (N.to_nat (N.pred n))) by lia.
    cbn. now rewrite IH.
Qed.

Lemma dropN_skipn (n : N) (s : bytes) : dropN n s = skipn (N.to_nat n) s.
Proof.
  revert n. induction s as [|c s IH]; intros n; cbn [dropN].
  - now rewrite skipn_nil.
  - destruct (N.eqb_spec n 0) as [->|Hn]; [reflexivity|].
    replace (N.to_nat n) with (S (N.to_nat (N.pred n))) by lia.
    cbn. now rewrite IH.
Qed.

Lemma takeN_dropN (n : N) (s : bytes) : takeN n s ++ dropN n s = s.
Proof. rewrite takeN_firstn, dropN_skipn. apply firstn_skipn. Qed.

Lemma takeN_all (n : N) (s : bytes) :
  N.of_nat (length s) <= n -> takeN n s = s /\ dropN n s = [].
Proof.
  intros H. rewrite takeN_firstn, dropN_skipn. split.
  - apply firstn_all2. lia.
  - apply skipn_all2. lia.
Qed.

Lemma takeN_length (n : N) (s : bytes) :
  n <= N.of_nat (length s) -> N.of_nat (length (takeN n s)) = n.
Proof. intros H. rewrite takeN_firstn, length_firstn. lia. Qed.

Lemma read_chunks_nil (size : N) : read_chunks size [] = [].
Proof. now simp read_chunks. Qed.

Lemma read_chunks_step (size : N) (data : bytes) :
  read_chunks size data =
    match takeN size data with
    | [] => []
    | chunk => chunk :: read_chunks size (dropN size data)
    end.
Proof.
  funelim (read_chunks size data).
  - now rewrite e.
  - now rewrite Hchunk.
Qed.

(** A file of at most one block is read, and so encoded, in one piece. *)
Lemma read_chunks_small (size : N) (data : bytes) :
  N.of_nat (length data) <= size ->
  concat (map b64encode (read_chunks size data)) = b64encode data.
Proof.
  intros H. rewrite read_chunks_step.
  destruct (takeN_all size data H) as [-> Hd]. rewrite Hd.
  destruct data; [reflexivity|]. rewrite read_chunks_nil. cbn [map concat].
  apply app_nil_r.
Qed.

(** A longer file is read in several blocks, the first one full. *)
Lemma read_chunks_large (size : N) (data : bytes) :
  0 < size -> size < N.of_nat (length data) ->
  exists more, read_chunks size data = takeN size data :: more
    /\ N.of_nat (length (takeN size data)) = size.
Proof.
  intros Hs H. rewrite read_chunks_step.
  pose proof (takeN_length size data ltac:(lia)) as Hl.
  destruct (takeN size data) eqn:E.
  - cbn in Hl. lia.
  - eexists. split; [reflexivity|exact Hl].
Qed.


(** ** The receiving loops *)

Lemma contains_end (sub a : bytes) : contains sub (a ++ sub) = true.
Proof. rewrite <- (app_nil_r sub) at 2. apply contains_app. Qed.

Lemma contains_empty (sub : bytes) : sub <> [] -> contains sub [] = false.
Proof. destruct sub; [congruence|reflexivity]. Qed.


Lemma recv_data (n : N) (w : world) (d : bytes) (rest : list recv_event) :
  incoming w = Data d :: rest -> recv n w = (Ok d, set_incoming rest w).
Proof. intros H. unfold recv. now rewrite H. Qed.

Lemma set_incoming_twice (a c : list recv_event) (w : world) :
  set_incoming a (set_incoming c w) = set_incoming a w.
Proof. reflexivity. Qed.

(** The reads [pre] hold only payload, the read after them ends with the
    token: the loop returns the payload. *)
Lemma recv_rounds_whole (u : byte) (s : bytes) (n : N) (pre : list bytes) (a : bytes) :
  Forall (fun c => c <> u) (concat pre ++ a) ->
  forall (acc : bytes) (more : list recv_event) (w : world) (fuel : nat),
    incoming w = map Data (pre ++ [a ++ u :: s]) ++ more ->
    (length pre < fuel)%nat ->
    recv_rounds (u :: s) n acc fuel w = (Ok (acc ++ concat pre ++ a), set_incoming more w).
Proof.
  induction pre as [|d pre IH]; intros Hp acc more w fuel Hin Hfuel;
    (destruct fuel as [|fuel]; [lia|]); cbn [recv_rounds]; unfold bind.
  - rewrite (recv_data n w _ _ Hin).
    rewrite contains_end.
    rewrite replace_empty_trailing by exact Hp. reflexivity.
  - cbn [concat] in Hp. rewrite <- app_assoc in Hp.
    apply Forall_app in Hp as [Hd Hp].
    rewrite (recv_data n w _ _ Hin).
    rewrite contains_without_first by exact Hd.
    rewrite (IH Hp (acc ++ d) more _ fuel); [|reflexivity|cbn in Hfuel; lia].
    cbn [concat]. now rewrite <- !app_assoc.
Qed.

(** The same with the hypotheses on the byte stream as a whole. *)
Lemma recv_rounds_stream (u : byte) (s : bytes) (n : N) (pre : list bytes)
  (last p : bytes) :
  Forall (fun c => c <> u) p ->
  concat pre ++ last = p ++ u :: s ->
  contains (u :: s) last = true ->
  forall (acc : bytes) (more : list recv_event) (w : world) (fuel : nat),
    incoming w = map Data (pre ++ [last]) ++ more ->
    (length pre < fuel)%nat ->
    recv_rounds (u :: s) n acc fuel w = (Ok (acc ++ p), set_incoming more w).
Proof.
  intros Hp Hcat Hlast acc more w fuel Hin Hfuel.
  destruct (contains_split _ _ Hlast) as (a & c & ->).
  rewrite app_assoc in Hcat.
  destruct (occurrence_is_trailing u s p (concat pre ++ a) c Hp Hcat) as [<- ->].
  rewrite app_nil_r in Hin. cbn [app] in Hin.
  apply (recv_rounds_whole u s n pre a Hp acc more w fuel Hin Hfuel).
Qed.

Lemma recv_until_stream (u : byte) (s : bytes) (n : N) (pre : list bytes)
  (last p : bytes) (more : list recv_event) (w : world) :
  Forall (fun c => c <> u) p ->
  concat pre ++ last = p ++ u :: s ->
  contains (u :: s) last = true ->
  incoming w = map Data (pre ++ [last]) ++ more ->
  recv_until (u :: s) n w = (Ok p, set_incoming more w).
Proof.
  intros Hp Hcat Hlast Hin. unfold recv_until, while_true.
  rewrite (recv_rounds_stream u s n pre last p Hp Hcat Hlast [] more w _ Hin); [reflexivity|].
  rewrite Hin, length_app, length_map, length_app. cbn. lia.
Qed.

(** Once the script is used up and the peer has closed, no number of
    rounds leaves the loop. *)
Lemma recv_rounds_closed (sentinel : bytes) (n : N) (w : world) :
  sentinel <> [] -> incoming w = [] -> at_end w = PeerClosed ->
  forall (fuel : nat) (acc : bytes), recv_rounds sentinel n acc fuel w = (Hang, w).
Proof.
  intros Hs Hin Hend fuel. induction fuel as [|fuel IH]; intros acc; [reflexivity|].
  cbn [recv_rounds]. unfold bind, recv. rewrite Hin, Hend, contains_empty by exact Hs.
  apply IH.
Qed.

(** More rounds than one per scripted read, plus one, change nothing. *)
Lemma recv_rounds_enough (sentinel : bytes) (n : N) (extra : nat) :
  sentinel <> [] ->
  forall (w : world) (fuel : nat) (acc : bytes),
    (length (incoming w) < fuel)%nat ->
    recv_rounds sentinel n acc (fuel + extra) w = recv_rounds sentinel n acc fuel w.
Proof.
  intros Hs w. remember (incoming w) as evs eqn:Hev. revert w Hev.
  induction evs as [|ev evs IH]; intros w Hev fuel acc Hf;
    (destruct fuel as [|fuel]; [cbn in Hf; lia|]);
    cbn [Nat.add recv_rounds]; unfold bind, recv; rewrite <- Hev.
  - destruct (at_end w) eqn:Hend; [|reflexivity].
    rewrite contains_empty by exact Hs.
    now rewrite !recv_rounds_closed.
  - destruct ev as [d|e]; [|reflexivity].
    destruct (contains sentinel d); [reflexivity|].
    apply IH; [reflexivity|cbn in Hf; lia].
Qed.

(** A token cut in two by a read boundary is in neither read. *)
Lemma straddle_first (u : byte) (s p a c : bytes) :
  Forall (fun x => x <> u) p -> a ++ c = u :: s -> c <> [] ->
  contains (u :: s) (p ++ a) = false.
Proof.
  intros Hp Hcut Hc. destruct (contains (u :: s) (p ++ a)) eqn:E; [|reflexivity].
  destruct (contains_split _ _ E) as (x & y & Hxy).
  assert (H : x ++ (u :: s) ++ (y ++ c) = p ++ u :: s).
  { transitivity ((p ++ a) ++ c).
    - rewrite Hxy. now rewrite <- !app_assoc.
    - rewrite <- app_assoc. now rewrite Hcut. }
  destruct (occurrence_is_trailing u s p x (y ++ c) Hp H) as [_ Hyc].
  apply app_eq_nil in Hyc as [_ ->]. congruence.
Qed.

Lemma straddle_second (u : byte) (s a c : bytes) :
  a ++ c = u :: s -> a <> [] -> contains (u :: s) c = false.
Proof.
  intros Hcut Ha. apply contains_short. rewrite <- Hcut, length_app.
  destruct a; [congruence|cbn; lia].
Qed.

(** When no read contains the token the loop uses up the script and then
    hangs or times out. *)
Lemma recv_rounds_missed (sentinel : bytes) (n : N) (reads : list bytes) :
  sentinel <> [] ->
  Forall (fun d => contains sentinel d = false) reads ->
  forall (w : world) (fuel : nat) (acc : bytes),
    incoming w = map Data reads ->
    (length reads < fuel)%nat ->
    recv_rounds sentinel n acc fuel w =
      (match at_end w with PeerClosed => Hang | PeerSilent => Raise socket_timeout end,
       set_incoming [] w).
Proof.
  intros Hs Hall. induction Hall as [|d reads Hd Hall IH]; intros w fuel acc Hin Hf;
    (destruct fuel as [|fuel]; [cbn in Hf; lia|]); cbn [recv_rounds]; unfold bind.
  - unfold recv. cbn in Hin. rewrite Hin.
    destruct w as [inc e wr se cl fs op ld cf uu so fo]; cbn in *; subst inc.
    destruct e; [|reflexivity].
    rewrite contains_empty by exact Hs.
    now rewrite recv_rounds_closed.
  - rewrite (recv_data n w d (map Data reads) Hin), Hd.
    rewrite (IH _ fuel); [reflexivity|reflexivity|cbn in Hf; lia].
Qed.

(** ** The staging loop of the process-pool server *)

Lemma stage_rounds_whole (tp : bytes) (pre : list bytes) (a : bytes) :
  Forall (fun c => c <> UNDERSCORE) (concat pre ++ a) ->
  forall (more : list recv_event) (w : world) (fuel : nat),
    incoming w = map Data (pre ++ [a ++ bs "__EOF__"]) ++ more ->
    (length pre < fuel)%nat ->
    ProcessPool.stage_rounds tp fuel w =
      (Ok tt, set_incoming more
                (set_files (<[tp := default [] (files w !! tp) ++ concat pre ++ a]> (files w)) w)).
Proof.
  change (bs "__EOF__") with (UNDERSCORE :: bs "_EOF__").
  induction pre as [|d pre IH]; intros Hp more w fuel Hin Hfuel;
    (destruct fuel as [|fuel]; [lia|]); cbn [ProcessPool.stage_rounds]; unfold bind.
  - rewrite (recv_data _ w _ _ Hin).
    change (bs "__EOF__") with (UNDERSCORE :: bs "_EOF__").
    rewrite contains_end, replace_empty_trailing by exact Hp. reflexivity.
  - cbn [concat] in Hp. rewrite <- app_assoc in Hp.
    apply Forall_app in Hp as [Hd Hp].
    rewrite (recv_data _ w _ _ Hin).
    change (bs "__EOF__") with (UNDERSCORE :: bs "_EOF__").
    rewrite contains_without_first by exact Hd.
    unfold file_write at 1. cbn [fst snd].
    rewrite (IH Hp more _ fuel); [|reflexivity|cbn in Hfuel; lia].
    destruct w as [inc e wr se cl fs op ld cf uu so fo]; cbn.
    rewrite lookup_insert_eq, insert_insert_eq. cbn.
    now rewrite <- !app_assoc.
Qed.

Lemma stage_rounds_stream (tp : bytes) (pre : list bytes) (last p : bytes)
  (more : list recv_event) (w : world) :
  Forall (fun c => c <> UNDERSCORE) p ->
  concat pre ++ last = p ++ bs "__EOF__" ->
  contains (bs "__EOF__") last = true ->
  incoming w = map Data (pre ++ [last]) ++ more ->
  while_true (ProcessPool.stage_rounds tp) w =
    (Ok tt, set_incoming more
              (set_files (<[tp := default [] (files w !! tp) ++ p]> (files w)) w)).
Proof.
  intros Hp Hcat Hlast Hin.
  destruct (contains_split _ _ Hlast) as (a & c & ->).
  rewrite app_assoc in Hcat.
  change (bs "__EOF__") with (UNDERSCORE :: bs "_EOF__") in Hcat.
  destruct (occurrence_is_trailing _ _ p (concat pre ++ a) c Hp Hcat) as [<- ->].
  rewrite app_nil_r in Hin. unfold while_true.
  rewrite (stage_rounds_whole tp pre a Hp more w); [reflexivity|exact Hin|].
  rewrite Hin, length_app, length_map, length_app. cbn. lia.
Qed.

(** ** From the request line to the dispatch *)

Lemma split_nonempty_input (raw : bytes) :
  split (strip raw) <> [] -> exists c t, raw = c :: t /\ exists c' t', strip raw = c' :: t'.
Proof.
  intros H. destruct raw as [|c t]; [now contradiction H|].
  exists c, t. split; [reflexivity|].
  destruct (strip (c :: t)) as [|c' t']; [now contradiction H|]. eauto.
Qed.

Lemma decode_ascii (raw : bytes) (w : world) :
  forallb is_ascii raw = true -> decode raw w = (Ok raw, w).
Proof. intros H. unfold decode. now rewrite H. Qed.

Lemma ThreadPool_handle_request_dispatch (w : world) (raw : bytes)
  (rest : list recv_event) (command : bytes) (args : list bytes) :
  incoming w = Data raw :: rest ->
  forallb is_ascii raw = true ->
  split (strip raw) = command :: args ->
  ThreadPool.handle_request w
  = ThreadPool.dispatch (upper command) (command :: args) (set_incoming rest w).
Proof.
  intros Hin Hascii Hsplit. unfold ThreadPool.handle_request, bind.
  rewrite (recv_data _ w raw rest Hin), decode_ascii by exact Hascii.
  destruct (split_nonempty_input raw) as (c & t & -> & _); [now rewrite Hsplit|].
  now rewrite Hsplit.
Qed.

Lemma ProcessPool_handle_request_dispatch (w : world) (raw : bytes)
  (rest : list recv_event) (command : bytes) (args : list bytes) :
  incoming w = Data raw :: rest ->
  forallb is_ascii raw = true ->
  split (strip raw) = command :: args ->
  ProcessPool.handle_request w
  = ProcessPool.dispatch (upper command) (command :: args) (set_incoming rest w).
Proof.
  intros Hin Hascii Hsplit. unfold ProcessPool.handle_request, bind.
  rewrite (recv_data _ w raw rest Hin), decode_ascii by exact Hascii.
  destruct (split_nonempty_input raw) as (_ & _ & _ & c & t & Hs); [now rewrite Hsplit|].
  rewrite Hs in *. now rewrite Hsplit.
Qed.

(** Evaluate a test between two literals. *)
Ltac literal_tests :=
  repeat match goal with
  | |- context [bool_decide (?x = ?y)] =>
      let v := eval vm_compute in (bool_decide (x = y)) in
      change (bool_decide (x = y)) with v; cbv iota
  end.


(** ** Sending *)

Lemma send_writable (d : bytes) (w : world) :
  writable w <> Some O ->
  send d w = (Ok tt, set_socket (after_send (writable w)) (sent w ++ [d]) w).
Proof.
  intros H. unfold send. destruct (writable w) as [[|k]|]; [congruence|reflexivity..].
Qed.

Lemma send_broken (d : bytes) (w : world) :
  writable w = Some O ->
  send d w = (Raise (OSError (bs "[Errno 32] Broken pipe")), w).
Proof. intros H. unfold send. now rewrite H. Qed.

Lemma report_failure_run (error : exn) (w : world) :
  exists w', report_failure error w = (Ok tt, w') /\
    files w' = files w /\ successful_ops w' = successful_ops w /\
    failed_ops w' = failed_ops w + 1 /\ closed w' = closed w /\
    at_end w' = at_end w /\
    sent w' = (if bool_decide (writable w = Some O) then sent w
               else sent w ++ [bs "Error: " ++ str_exn error]).
Proof.
  unfold report_failure, bind, try_except, send, incr_failed_ops, ret.
  destruct w as [inc e wr se cl fs op ld cf uu so fo]; cbn.
  destruct wr as [[|k]|]; cbn; eexists; (split; [reflexivity|]); cbn; repeat split.
Qed.

Lemma ProcessPool_manage_ok (w w' : world) :
  ProcessPool.handle_request w = (Ok tt, w') ->
  ProcessPool.manage_connection w = (Ok tt, set_closed true w').
Proof.
  intros H.
  change (ProcessPool.manage_connection w) with
    (try_finally (try_except ProcessPool.handle_request report_failure) close w).
  unfold try_finally, try_except. now rewrite H.
Qed.

Lemma ProcessPool_manage_raise (w w' : world) (e : exn) :
  ProcessPool.handle_request w = (Raise e, w') ->
  ProcessPool.manage_connection w
  = (Ok tt, set_closed true (snd (report_failure e w'))).
Proof.
  intros H.
  change (ProcessPool.manage_connection w) with
    (try_finally (try_except ProcessPool.handle_request report_failure) close w).
  unfold try_finally, try_except. rewrite H.
  destruct (report_failure_run e w') as (w'' & -> & _). reflexivity.
Qed.

Lemma ThreadPool_process_ok (w w' : world) :
  ThreadPool.handle_request w = (Ok tt, w') ->
  ThreadPool.process_client_request w = (Ok tt, set_closed true w').
Proof.
  intros H.
  change (ThreadPool.process_client_request w) with
    (try_finally (try_except ThreadPool.handle_request report_failure) close w).
  unfold try_finally, try_except. now rewrite H.
Qed.

Lemma ThreadPool_process_raise (w w' : world) (e : exn) :
  ThreadPool.handle_request w = (Raise e, w') ->
  ThreadPool.process_client_request w
  = (Ok tt, set_closed true (snd (report_failure e w'))).
Proof.
  intros H.
  change (ThreadPool.process_client_request w) with
    (try_finally (try_except ThreadPool.handle_request report_failure) close w).
  unfold try_finally, try_except. rewrite H.
  destruct (report_failure_run e w') as (w'' & -> & _). reflexivity.
Qed.

(** A reply of one message followed by one failure counted, as both
    handlers give to a request they reject. *)
Lemma reject_run (text : bytes) (w : world) :
  (send text ;; incr_failed_ops) w =
    if bool_decide (writable w = Some O)
    then (Raise (OSError (bs "[Errno 32] Broken pipe")), w)
    else (Ok tt, set_counters (successful_ops w) (failed_ops w + 1)
                   (set_socket (after_send (writable w)) (sent w ++ [text]) w)).
Proof.
  unfold bind, send, incr_failed_ops.
  destruct w as [inc e wr se cl fs op ld cf uu so fo]; cbn.
  destruct wr as [[|k]|]; reflexivity.
Qed.

Lemma ProcessPool_retrieve_missing (w : world) (name : bytes) :
  files w !! path_join ProcessPool.STORAGE_DIR name = None ->
  ProcessPool.execute_command (bs "RETRIEVE_FILE") (ProcessPool.PName name) w
  = (Ok (bs "File unavailable"), w).
Proof.
  intros Hf. unfold ProcessPool.execute_command. literal_tests.
  unfold try_except, bind, os_path_exists. now rewrite Hf.
Qed.

Lemma handle_request_dispatch (v : variant) (w : world) (raw : bytes)
  (rest : list recv_event) (command : bytes) (args : list bytes) :
  incoming w = Data raw :: rest ->
  forallb is_ascii raw = true ->
  split (strip raw) = command :: args ->
  handle_request v w = dispatch v (upper command) (command :: args) (set_incoming rest w).
Proof.
  destruct v; [apply ThreadPool_handle_request_dispatch
              |apply ProcessPool_handle_request_dispatch].
Qed.

Lemma handler_ok (v : variant) (w w' : world) :
  handle_request v w = (Ok tt, w') -> handler v w = (Ok tt, set_closed true w').
Proof. destruct v; [apply ThreadPool_process_ok|apply ProcessPool_manage_ok]. Qed.

Lemma handler_raise (v : variant) (w w' : world) (e : exn) :
  handle_request v w = (Raise e, w') ->
  handler v w = (Ok tt, set_closed true (snd (report_failure e w'))).
Proof. destruct v; [apply ThreadPool_process_raise|apply ProcessPool_manage_raise]. Qed.

(** A request answered by one message and counted as a failure. *)
Lemma handler_rejects (v : variant) (w w1 : world) (text : bytes) :
  handle_request v w = (send text ;; incr_failed_ops) w1 ->
  files w1 = files w -> successful_ops w1 = successful_ops w ->
  failed_ops w1 = failed_ops w -> sent w1 = sent w -> writable w1 = writable w ->
  replies_and_fails v w text.
Proof.
  intros H Hf Hs Hfl Hse Hwr. unfold replies_and_fails. rewrite reject_run in H.
  destruct (bool_decide (writable w1 = Some O)) eqn:Hb.
  - apply bool_decide_eq_true in Hb.
    rewrite (handler_raise v w w1 _ H).
    destruct (report_failure_run (OSError (bs "[Errno 32] Broken pipe")) w1)
      as (w' & -> & Hf' & Hs' & Hfl' & _ & _ & _).
    cbn [fst snd]. repeat split; cbn; congruence.
  - rewrite (handler_ok v w _ H). cbn [fst snd].
    destruct w1; cbn in *; subst. repeat split.
Qed.


Lemma handler_silent (v : variant) (w w1 : world) :
  handle_request v w = incr_failed_ops w1 ->
  files w1 = files w -> successful_ops w1 = successful_ops w ->
  failed_ops w1 = failed_ops w -> sent w1 = sent w ->
  fails_silently v w.
Proof.
  intros H Hf Hs Hfl Hse. unfold fails_silently.
  rewrite (handler_ok v w _ H). cbn [fst snd].
  destruct w1; cbn in *; subst. repeat split.
Qed.


(** ** The successful paths *)

Lemma send_then_succeed (text : bytes) (w : world) :
  writable w <> Some O ->
  (send text ;; incr_successful_ops) w =
    (Ok tt, set_counters (successful_ops w + 1) (failed_ops w)
              (set_socket (after_send (writable w)) (sent w ++ [text]) w)).
Proof.
  intros H. unfold bind. rewrite send_writable by exact H. reflexivity.
Qed.

Lemma dispatch_list (v : variant) (w : world) (parts : list bytes) :
  listdir_fault w = None -> writable w <> Some O ->
  dispatch v (list_word v) parts w =
    (Ok tt, set_counters (successful_ops w + 1) (failed_ops w)
              (set_socket (after_send (writable w)) (sent w ++ [listing v w]) w)).
Proof.
  intros Hl Hw. destruct v; cbn [dispatch list_word].
  - unfold ThreadPool.dispatch. literal_tests.
    unfold bind at 1. unfold os_listdir. rewrite Hl.
    rewrite send_then_succeed by exact Hw. reflexivity.
  - unfold ProcessPool.dispatch. literal_tests.
    unfold bind at 1. unfold ProcessPool.execute_command. literal_tests.
    unfold try_except, bind at 1, os_listdir. rewrite Hl. cbn [ret].
    change (sendall ?x) with (send x).
    rewrite send_then_succeed by exact Hw. reflexivity.
Qed.

Lemma send_chunks_run (chunks : list bytes) (w : world) :
  writable w = None ->
  ThreadPool.send_chunks chunks w
  = (Ok tt, set_socket None (sent w ++ map b64encode chunks) w).
Proof.
  revert w. induction chunks as [|c chunks IH]; intros w Hw.
  - cbn. rewrite app_nil_r. destruct w; cbn in *; now subst.
  - cbn [ThreadPool.send_chunks map]. unfold bind, sendall, send. rewrite Hw.
    rewrite IH by reflexivity. cbn [sent set_socket].
    rewrite <- app_assoc. reflexivity.
Qed.

Lemma send_blocks_run (blocks : list bytes) (w : world) :
  writable w = None ->
  Client.send_blocks blocks w
  = (Ok tt, set_socket None (sent w ++ map b64encode blocks) w).
Proof.
  revert w. induction blocks as [|c blocks IH]; intros w Hw.
  - cbn. rewrite app_nil_r. destruct w; cbn in *; now subst.
  - cbn [Client.send_blocks map]. unfold bind, send. rewrite Hw.
    rewrite IH by reflexivity. cbn [sent set_socket].
    rewrite <- app_assoc. reflexivity.
Qed.

Lemma open_rb_present (path content : bytes) (w : world) :
  files w !! path = Some content -> open_fault w path = None ->
  open_rb path w = (Ok content, w).
Proof. intros Hf Ho. unfold open_rb. now rewrite Ho, Hf. Qed.

Lemma os_path_exists_present (path content : bytes) (w : world) :
  files w !! path = Some content -> os_path_exists path w = (Ok true, w).
Proof. intros Hf. unfold os_path_exists. now rewrite Hf. Qed.

(** FETCH of a file that is there, thread-pool variant. *)
Lemma ThreadPool_fetch_present (w : world) (command name content : bytes)
  (more : list bytes) :
  files w !! path_join ThreadPool.STORAGE_FOLDER name = Some content ->
  open_fault w (path_join ThreadPool.STORAGE_FOLDER name) = None ->
  writable w = None ->
  ThreadPool.dispatch (bs "FETCH") (command :: name :: more) w =
    (Ok tt, set_counters (successful_ops w + 1) (failed_ops w)
       (set_socket None
          (sent w ++ map b64encode (read_chunks ThreadPool.DATA_CHUNK content)
                  ++ [bs "__COMPLETE__"]) w)).
Proof.
  intros Hf Ho Hw. unfold ThreadPool.dispatch. literal_tests.
  unfold bind at 1. rewrite (os_path_exists_present _ content) by exact Hf.
  cbn [negb]. unfold try_except, bind at 1.
  rewrite open_rb_present with (content := content) by assumption.
  unfold bind at 1. rewrite send_chunks_run by exact Hw.
  unfold bind, send, incr_successful_ops. cbn.
  now rewrite <- app_assoc.
Qed.

(** DOWNLOAD of a file that is there, process-pool variant: the reply is
    sent in every case; which counter moves depends on the text of the
    reply. *)
Lemma ProcessPool_download_present (w : world) (command name content : bytes)
  (more : list bytes) :
  files w !! path_join ProcessPool.STORAGE_DIR name = Some content ->
  open_fault w (path_join ProcessPool.STORAGE_DIR name) = None ->
  writable w <> Some O ->
  let response := b64encode content ++ bs "__EOF__" in
  ProcessPool.dispatch (bs "DOWNLOAD") (command :: name :: more) w =
    (Ok tt,
     (if contains (bs "unavailable") (lower response)
      then set_counters (successful_ops w) (failed_ops w + 1)
      else set_counters (successful_ops w + 1) (failed_ops w))
       (set_socket (after_send (writable w)) (sent w ++ [response]) w)).
Proof.
  intros Hf Ho Hw response. unfold ProcessPool.dispatch. literal_tests.
  unfold bind at 1. unfold ProcessPool.execute_command. literal_tests.
  unfold try_except, bind at 1.
  rewrite (os_path_exists_present _ content) by exact Hf. cbn [negb].
  unfold bind at 1. rewrite open_rb_present with (content := content) by assumption.
  cbn [ret]. fold response.
  destruct (contains (bs "unavailable") (lower response)).
  - change (sendall ?x) with (send x). unfold bind. rewrite send_writable by exact Hw.
    reflexivity.
  - change (sendall ?x) with (send x). now rewrite send_then_succeed by exact Hw.
Qed.

Lemma b64decode_or_raise_ok (s d : bytes) (w : world) :
  b64decode s = Some d -> b64decode_or_raise s w = (Ok d, w).
Proof. intros H. unfold b64decode_or_raise. now rewrite H. Qed.

(** STORE with a well-formed stream, thread-pool variant. *)
Lemma ThreadPool_store_run (w : world) (command name : bytes) (more : list bytes)
  (pre : list bytes) (last p data : bytes) (later : list recv_event) :
  writable w = None ->
  incoming w = map Data (pre ++ [last]) ++ later ->
  Forall (fun c => c <> UNDERSCORE) p ->
  concat pre ++ last = p ++ bs "__COMPLETE__" ->
  contains (bs "__COMPLETE__") last = true ->
  b64decode p = Some data ->
  open_fault w (path_join ThreadPool.STORAGE_FOLDER name) = None ->
  ThreadPool.dispatch (bs "STORE") (command :: name :: more) w =
    (Ok tt,
     set_counters (successful_ops w + 1) (failed_ops w)
       (set_socket None (sent w ++ [bs "READY_FOR_DATA"; bs "File stored successfully"])
          (set_files (<[path_join ThreadPool.STORAGE_FOLDER name := data]> (files w))
             (set_incoming later w)))).
Proof.
  intros Hw Hin Hp Hcat Hlast Hdec Hop.
  unfold ThreadPool.dispatch. literal_tests.
  unfold bind at 1. unfold send at 1. rewrite Hw.
  unfold bind at 1.
  change (bs "__COMPLETE__") with (UNDERSCORE :: bs "_COMPLETE__") in *.
  rewrite (recv_until_stream UNDERSCORE _ _ pre last p later _ Hp Hcat Hlast)
    by exact Hin.
  unfold try_except, bind at 1. rewrite (b64decode_or_raise_ok p data) by exact Hdec.
  unfold bind, open_wb, file_write, send, incr_successful_ops.
  destruct w as [inc e wr se cl fs op ld cf uu so fo]; cbn in *; subst.
  rewrite Hop. cbn. rewrite lookup_insert_eq, insert_insert_eq. cbn.
  now rewrite <- app_assoc.
Qed.

Lemma ProcessPool_store_file_run (w : world) (name temp_path p data : bytes) :
  files w !! temp_path = Some p ->
  open_fault w temp_path = None ->
  open_fault w (path_join ProcessPool.STORAGE_DIR name) = None ->
  temp_path <> path_join ProcessPool.STORAGE_DIR name ->
  b64decode p = Some data ->
  ProcessPool.execute_command (bs "STORE_FILE") (ProcessPool.PPair name temp_path) w =
    (Ok (bs "File stored successfully"),
     set_files (delete temp_path
                  (<[path_join ProcessPool.STORAGE_DIR name := data]> (files w))) w).
Proof.
  intros Hf Hot Hod Hne Hdec.
  unfold ProcessPool.execute_command. literal_tests.
  unfold try_except, bind at 1. rewrite (os_path_exists_present _ p) by exact Hf.
  cbn [negb]. unfold bind at 1. rewrite (open_rb_present _ p) by assumption.
  unfold bind at 1. rewrite (b64decode_or_raise_ok p data) by exact Hdec.
  unfold bind, open_wb, file_write, os_remove, ret.
  destruct w as [inc e wr se cl fs op ld cf uu so fo]; cbn in *.
  rewrite Hod. cbn. rewrite lookup_insert_eq, insert_insert_eq. cbn.
  rewrite lookup_insert_ne by congruence. rewrite Hf. reflexivity.
Qed.

(** UPLOAD with a well-formed stream, process-pool variant. *)
Lemma ProcessPool_upload_run (w : world) (command name : bytes) (more : list bytes)
  (pre : list bytes) (last p data : bytes) (later : list recv_event) :
  let temp_path :=
    path_join ProcessPool.STORAGE_DIR (name ++ bs "_" ++ uuid4 w ++ bs ".tmp") in
  let destination := path_join ProcessPool.STORAGE_DIR name in
  writable w = None ->
  incoming w = map Data (pre ++ [last]) ++ later ->
  Forall (fun c => c <> UNDERSCORE) p ->
  concat pre ++ last = p ++ bs "__EOF__" ->
  contains (bs "__EOF__") last = true ->
  b64decode p = Some data ->
  open_fault w temp_path = None -> open_fault w destination = None ->
  temp_path <> destination ->
  ProcessPool.dispatch (bs "UPLOAD") (command :: name :: more) w =
    (Ok tt,
     set_counters (successful_ops w + 1) (failed_ops w)
       (set_socket None (sent w ++ [bs "PROCEED"; bs "File stored successfully"])
          (set_files (delete temp_path (<[destination := data]> (<[temp_path := p]> (files w))))
             (set_incoming later w)))).
Proof.
  intros temp_path destination Hw Hin Hp Hcat Hlast Hdec Hot Hod Hne.
  unfold ProcessPool.dispatch. literal_tests.
  unfold bind at 1. unfold send at 1. rewrite Hw.
  unfold bind at 1. cbn [uuid4 set_socket]. fold temp_path.
  unfold bind at 1. unfold open_wb at 1. cbn [open_fault set_socket]. rewrite Hot.
  unfold bind at 1.
  rewrite (stage_rounds_stream temp_path pre last p later _ Hp Hcat Hlast) by exact Hin.
  unfold bind at 1.
  rewrite (ProcessPool_store_file_run _ name temp_path p data);
    try assumption.
  2:{ cbn. rewrite !lookup_insert_eq. reflexivity. }
  cbv beta.
  change (contains (bs "success") (lower (bs "File stored successfully"))) with true.
  cbv iota. unfold bind, sendall, send, incr_successful_ops.
  fold destination. clearbody temp_path destination.
  destruct w as [inc e wr se cl fs op ld cf uu so fo].
  cbn [writable incoming files sent successful_ops failed_ops set_counters
       set_socket set_files set_incoming at_end closed open_fault listdir_fault
       connect_fault uuid4] in *.
  subst. rewrite lookup_insert_eq. cbn [default]. rewrite !insert_insert_eq.
  cbn [app]. now rewrite <- app_assoc.
Qed.

(** Projections of an updated state, without computing on the maps. *)
Ltac state_fields :=
  cbn [writable incoming files sent successful_ops failed_ops set_counters
       set_socket set_files set_incoming set_closed at_end closed open_fault
       listdir_fault connect_fault uuid4 fst snd] in *.

Lemma path_join_length (d name : bytes) :
  length (path_join d name) =
    if starts_with (bs "/") name then length name else (length d + 1 + length name)%nat.
Proof.
  unfold path_join. destruct (starts_with (bs "/") name); [reflexivity|].
  rewrite !length_app. cbn. lia.
Qed.

Lemma starts_with_slash_app (name suffix : bytes) :
  starts_with (bs "/") suffix = false ->
  starts_with (bs "/") (name ++ suffix) = starts_with (bs "/") name.
Proof.
  intros H. destruct name as [|c name]; [exact H|].
  cbn. now destruct (Byte.eqb "/" c).
Qed.

(** The staging file is never the destination file. *)
Lemma staging_path_fresh (name : bytes) (w : world) :
  staging_path name w <> path_join ProcessPool.STORAGE_DIR name.
Proof.
  intros H. apply (f_equal (@length byte)) in H. unfold staging_path in H.
  rewrite !path_join_length in H.
  rewrite starts_with_slash_app in H by reflexivity.
  rewrite !length_app in H. cbn [length bs list_byte_of_string] in H.
  destruct (starts_with (bs "/") name); cbn in H; lia.
Qed.

Lemma unknown_command_rejected (v : variant) (w : world) (raw : bytes)
  (rest : list recv_event) (command : bytes) (args : list bytes) :
  incoming w = Data raw :: rest ->
  forallb is_ascii raw = true ->
  split (strip raw) = command :: args ->
  upper command <> list_word v -> upper command <> upload_word v ->
  upper command <> download_word v ->
  replies_and_fails v w (unknown_command v).
Proof.
  intros Hin Hascii Hsplit Hl Hu Hd.
  apply (handler_rejects v w (set_incoming rest w)); try reflexivity.
  rewrite (handle_request_dispatch v w raw rest command args Hin Hascii Hsplit).
  destruct v; cbn [dispatch list_word upload_word download_word unknown_command] in *.
  - unfold ThreadPool.dispatch. now rewrite !bool_decide_eq_false_2 by assumption.
  - unfold ProcessPool.dispatch. now rewrite !bool_decide_eq_false_2 by assumption.
Qed.

Lemma dispatch_download_present (v : variant) (w : world) (command name content : bytes)
  (more : list bytes) :
  files w !! path_join (storage_root v) name = Some content ->
  open_fault w (path_join (storage_root v) name) = None ->
  writable w = None ->
  exists w', dispatch v (download_word v) (command :: name :: more) w = (Ok tt, w') /\
    sent w' = sent w ++ download_reply v content /\ files w' = files w.
Proof.
  intros Hf Ho Hw. destruct v; cbn [dispatch download_word storage_root download_reply] in *.
  - rewrite (ThreadPool_fetch_present w command name content more Hf Ho Hw).
    eexists. split; [reflexivity|]. split; reflexivity.
  - rewrite (ProcessPool_download_present w command name content more Hf Ho)
      by (rewrite Hw; discriminate).
    eexists. split; [reflexivity|].
    destruct (contains _ _); state_fields; split; reflexivity.
Qed.

Lemma dispatch_upload_run (v : variant) (w : world) (command name : bytes)
  (more pre : list bytes) (last p data : bytes) (later : list recv_event) :
  writable w = None ->
  incoming w = map Data (pre ++ [last]) ++ later ->
  Forall (fun c => c <> UNDERSCORE) p ->
  concat pre ++ last = p ++ sentinel v ->
  contains (sentinel v) last = true ->
  b64decode p = Some data ->
  (forall path, open_fault w path = None) ->
  exists w', dispatch v (upload_word v) (command :: name :: more) w = (Ok tt, w') /\
    sent w' = sent w ++ [go_ahead v; bs "File stored successfully"] /\
    files w' !! path_join (storage_root v) name = Some data /\
    successful_ops w' = successful_ops w + 1 /\ failed_ops w' = failed_ops w /\
    incoming w' = later.
Proof.
  intros Hw Hin Hp Hcat Hlast Hdec Hop.
  destruct v; cbn [dispatch upload_word storage_root sentinel go_ahead] in *.
  - rewrite (ThreadPool_store_run w command name more pre last p data later); auto.
    eexists. split; [reflexivity|]. state_fields. rewrite lookup_insert_eq.
    repeat split.
  - pose proof (staging_path_fresh name w) as Hfresh.
    rewrite (ProcessPool_upload_run w command name more pre last p data later); auto.
    eexists. split; [reflexivity|]. state_fields.
    fold (staging_path name w).
    rewrite lookup_delete_ne by exact Hfresh.
    rewrite lookup_insert_eq. repeat split.
Qed.

(** ** Encoding block by block *)

(** When the block size is not a multiple of three, the first block of a
    longer file is encoded with padding, and decoding the concatenated
    encodings stops there: only the first block comes back. *)
Lemma blockwise_decodes_to_first_block (size : N) (data : bytes) :
  size mod 3 <> 0 -> size < N.of_nat (length data) ->
  b64decode (concat (map b64encode (read_chunks size data))) = Some (takeN size data).
Proof.
  intros Hmod Hlen.
  assert (Hpos : 0 < size) by (destruct size; [now contradiction Hmod|lia]).
  destruct (read_chunks_large size data Hpos Hlen) as (more & -> & Hfirst).
  cbn [map concat]. unfold b64decode. rewrite a2b_loop_b64encode.
  destruct (Nat.eqb_spec (length (takeN size data) mod 3) 0) as [E|E]; [|reflexivity].
  exfalso. apply Hmod. apply (f_equal N.of_nat) in E.
  rewrite Nat2N.inj_mod, Hfirst in E. exact E.
Qed.

Lemma blockwise_differs (size : N) (data : bytes) :
  size mod 3 <> 0 -> size < N.of_nat (length data) ->
  concat (map b64encode (read_chunks size data)) <> b64encode data.
Proof.
  intros Hmod Hlen H. apply (f_equal b64decode) in H.
  rewrite blockwise_decodes_to_first_block, b64decode_b64encode in H by assumption.
  injection H as H. apply (f_equal (fun l => N.of_nat (length l))) in H.
  rewrite takeN_length in H by lia. lia.
Qed.

Lemma block_size_not_multiple_of_three : 1048576 mod 3 <> 0.
Proof. discriminate. Qed.

Lemma handler_download_present (v : variant) (w : world) (raw : bytes)
  (rest : list recv_event) (command name : bytes) (more : list bytes) (content : bytes) :
  incoming w = Data raw :: rest ->
  forallb is_ascii raw = true ->
  split (strip raw) = command :: name :: more ->
  upper command = download_word v ->
  writable w = None -> (forall path, open_fault w path = None) ->
  files w !! path_join (storage_root v) name = Some content ->
  exists w', handler v w = (Ok tt, w') /\
    sent w' = sent w ++ download_reply v content /\ files w' = files w.
Proof.
  intros Hin Hascii Hsplit Hcmd Hw Hop Hfile.
  pose proof (handle_request_dispatch v w raw rest command _ Hin Hascii Hsplit) as Hd.
  rewrite Hcmd in Hd.
  destruct (dispatch_download_present v (set_incoming rest w) command name content more)
    as (w' & Hrun & Hsent & Hfiles); try assumption; try apply Hop.
  rewrite Hrun in Hd. rewrite (handler_ok v w _ Hd).
  eexists. split; [reflexivity|]. state_fields. now split.
Qed.

Lemma download_reply_stream (v : variant) (content : bytes) :
  v = process_pool \/ N.of_nat (length content) <= ThreadPool.DATA_CHUNK ->
  concat (download_reply v content) = b64encode content ++ sentinel v.
Proof.
  intros H. destruct v; cbn [download_reply sentinel].
  - destruct H as [H|H]; [discriminate|].
    rewrite concat_app, read_chunks_small by exact H. cbn [concat].
    now rewrite app_nil_r.
  - cbn [concat]. now rewrite app_nil_r.
Qed.


(** ** The command word *)

Lemma upper_byte_idempotent (c : byte) : upper_byte (upper_byte c) = upper_byte c.
Proof.
  apply byte_eqb_eq. revert c.
  apply (forall_bytes (fun c => Byte.eqb (upper_byte (upper_byte c)) (upper_byte c))).
  vm_compute. reflexivity.
Qed.

Lemma upper_idempotent (s : bytes) : upper (upper s) = upper s.
Proof.
  unfold upper. rewrite map_map. apply map_ext. intros c. apply upper_byte_idempotent.
Qed.

(** The dispatch reads the first token only through [action]. *)
Lemma dispatch_ignores_first_token (v : variant) (action c c' : bytes) (args : list bytes) :
  dispatch v action (c :: args) = dispatch v action (c' :: args).
Proof.
  destruct v; cbn [dispatch];
    [unfold ThreadPool.dispatch|unfold ProcessPool.dispatch];
    destruct args; reflexivity.
Qed.

Lemma handler_from_handle_request (v : variant) (w1 w2 : world) :
  handle_request v w1 = handle_request v w2 -> handler v w1 = handler v w2.
Proof.
  intros H. destruct v; cbn [handler handle_request] in *.
  - change (ThreadPool.process_client_request ?w) with
      (try_finally (try_except ThreadPool.handle_request report_failure) close w).
    unfold try_finally, try_except. now rewrite H.
  - change (ProcessPool.manage_connection ?w) with
      (try_finally (try_except ProcessPool.handle_request report_failure) close w).
    unfold try_finally, try_except. now rewrite H.
Qed.


(** ** Counting operations *)

Lemma ticks_refl (w : world) : ticks 0 w w.
Proof. unfold ticks. lia. Qed.

Lemma ticks_trans (n : N) (w1 w2 w3 : world) :
  ticks 0 w1 w2 -> ticks n w2 w3 -> ticks n w1 w3.
Proof. unfold ticks. lia. Qed.

Lemma quiet_counts {A : Type} (m : M A) : quiet m -> counts 0 m.
Proof.
  intros H w. destruct (H w) as (Hh & Hs & Hf & He). unfold ticks.
  destruct (m w) as [[a|e|] w']; cbn in *; [split; [lia|assumption]..|congruence].
Qed.

Ltac quiet_primitive :=
  intros w; destruct w;
  cbv beta delta [recv send sendall connect close decode b64decode_or_raise
                  os_path_exists open_rb open_wb file_write os_remove
                  os_path_getsize os_listdir ret raise] iota;
  state_fields;
  repeat match goal with
  | |- context [match ?x with _ => _ end] => destruct x
  end; state_fields; repeat split; congruence.

Lemma quiet_ret {A} (a : A) : quiet (ret a).
Proof. quiet_primitive. Qed.
Lemma quiet_raise {A} (e : exn) : quiet (@raise A e).
Proof. quiet_primitive. Qed.
Lemma quiet_recv (n : N) : quiet (recv n).
Proof. quiet_primitive. Qed.
Lemma quiet_send (d : bytes) : quiet (send d).
Proof. quiet_primitive. Qed.
Lemma quiet_sendall (d : bytes) : quiet (sendall d).
Proof. quiet_primitive. Qed.
Lemma quiet_decode (d : bytes) : quiet (decode d).
Proof. intros w. unfold decode. destruct (forallb is_ascii d); now cbn. Qed.
Lemma quiet_b64decode_or_raise (d : bytes) : quiet (b64decode_or_raise d).
Proof. intros w. unfold b64decode_or_raise. destruct (b64decode d); now cbn. Qed.
Lemma quiet_os_path_exists (p : bytes) : quiet (os_path_exists p).
Proof. intros w. now cbn. Qed.
Lemma quiet_open_rb (p : bytes) : quiet (open_rb p).
Proof.
  intros w. unfold open_rb. destruct (open_fault w p); [now cbn|].
  destruct (files w !! p); now cbn.
Qed.
Lemma quiet_open_wb (p : bytes) : quiet (open_wb p).
Proof. intros w. unfold open_wb. destruct (open_fault w p); now cbn. Qed.
Lemma quiet_file_write (p d : bytes) : quiet (file_write p d).
Proof. intros w. now cbn. Qed.
Lemma quiet_os_remove (p : bytes) : quiet (os_remove p).
Proof. intros w. unfold os_remove. destruct (files w !! p); now cbn. Qed.
Lemma quiet_os_listdir (p : bytes) : quiet (os_listdir p).
Proof. intros w. unfold os_listdir. destruct (listdir_fault w); now cbn. Qed.

Lemma quiet_bind {A B} (m : M A) (k : A -> M B) :
  quiet m -> (forall a, quiet (k a)) -> quiet (bind m k).
Proof.
  intros Hm Hk w. unfold bind. destruct (Hm w) as (Hh & Hs & Hf & He).
  destruct (m w) as [[a|e|] w']; cbn in *; [|auto|congruence].
  destruct (Hk a w') as (Hh' & Hs' & Hf' & He'). repeat split; congruence.
Qed.

Lemma quiet_try_except {A} (m : M A) (h : exn -> M A) :
  quiet m -> (forall e, quiet (h e)) -> quiet (try_except m h).
Proof.
  intros Hm Hh w. unfold try_except. destruct (Hm w) as (Hn & Hs & Hf & He).
  destruct (m w) as [[a|e|] w']; cbn in *; [auto| |congruence].
  destruct (Hh e w') as (Hn' & Hs' & Hf' & He'). repeat split; congruence.
Qed.

Lemma counts_bind {A B} (n : N) (m : M A) (k : A -> M B) :
  counts 0 m -> (forall a, counts n (k a)) -> counts n (bind m k).
Proof.
  intros Hm Hk w. unfold bind. specialize (Hm w).
  destruct (m w) as [[a|e|] w']; [|exact Hm..].
  destruct Hm as [Ht He]. specialize (Hk a w').
  destruct (k a w') as [[b|e|] w'']; destruct Hk as [Ht' He'];
    (split; [eapply ticks_trans; eassumption|congruence]).
Qed.

Lemma counts_try_except {A} (n : N) (m : M A) (h : exn -> M A) :
  counts n m -> (forall e, counts n (h e)) -> counts n (try_except m h).
Proof.
  intros Hm Hh w. unfold try_except. specialize (Hm w).
  destruct (m w) as [[a|e|] w']; [exact Hm| |exact Hm].
  destruct Hm as [Ht He]. specialize (Hh e w').
  destruct (h e w') as [[b|e'|] w'']; destruct Hh as [Ht' He'];
    (split; [eapply ticks_trans; eassumption|congruence]).
Qed.

Lemma counts_incr_successful_ops : counts 1 incr_successful_ops.
Proof. intros w. unfold ticks. cbn. repeat split; lia. Qed.

Lemma counts_incr_failed_ops : counts 1 incr_failed_ops.
Proof. intros w. unfold ticks. cbn. repeat split; lia. Qed.

(** The loops count nothing; they hang only on a closed peer. *)
Lemma counts_recv_rounds (sentinel : bytes) (n : N) :
  sentinel <> [] ->
  forall (w : world) (fuel : nat) (acc : bytes),
    (length (incoming w) < fuel)%nat ->
    match recv_rounds sentinel n acc fuel w with
    | (Hang, w') => ticks 0 w w' /\ at_end w = PeerClosed
    | (_, w') => ticks 0 w w' /\ at_end w' = at_end w
    end.
Proof.
  intros Hs w. remember (incoming w) as evs eqn:Hev. revert w Hev.
  induction evs as [|ev evs IH]; intros w Hev fuel acc Hf;
    (destruct fuel as [|fuel]; [cbn in Hf; lia|]);
    cbn [recv_rounds]; unfold bind, recv; rewrite <- Hev.
  - destruct (at_end w) eqn:Hend.
    + rewrite contains_empty by exact Hs.
      rewrite recv_rounds_closed by (try assumption; now symmetry).
      split; [apply ticks_refl|congruence].
    + split; [apply ticks_refl|congruence].
  - destruct ev as [d|e].
    + destruct (contains sentinel d).
      * cbn. split; [unfold ticks; cbn; lia|cbn; congruence].
      * specialize (IH (set_incoming evs w) eq_refl fuel (acc ++ d)).
        cbn in Hf. specialize (IH ltac:(lia)).
        destruct (recv_rounds _ _ _ _ _) as [[a|e|] w']; exact IH.
    + split; [unfold ticks; cbn; lia|cbn; congruence].
Qed.

Lemma counts_recv_until (sentinel : bytes) (n : N) :
  sentinel <> [] -> counts 0 (recv_until sentinel n).
Proof.
  intros Hs w. unfold recv_until, while_true.
  pose proof (counts_recv_rounds sentinel n Hs w (S (length (incoming w))) []
                ltac:(lia)) as H.
  destruct (recv_rounds _ _ _ _ _) as [[a|e|] w']; exact H.
Qed.

Lemma stage_rounds_closed (tp : bytes) (w : world) :
  incoming w = [] -> at_end w = PeerClosed ->
  forall fuel : nat, exists w',
    ProcessPool.stage_rounds tp fuel w = (Hang, w') /\ ticks 0 w w'.
Proof.
  intros Hin Hend fuel. revert w Hin Hend.
  induction fuel as [|fuel IH]; intros w Hin Hend.
  - exists w. split; [reflexivity|apply ticks_refl].
  - cbn [ProcessPool.stage_rounds]. unfold bind at 1. unfold recv. rewrite Hin, Hend.
    cbv iota. change (contains (bs "__EOF__") []) with false. cbv iota.
    unfold bind, file_write.
    destruct (IH (set_files (<[tp:=default [] (files w !! tp) ++ []]> (files w)) w))
      as (w' & -> & Ht); [exact Hin|exact Hend|].
    exists w'. split; [reflexivity|]. unfold ticks in *. state_fields. exact Ht.
Qed.

Lemma counts_stage_rounds (tp : bytes) :
  forall (w : world) (fuel : nat),
    (length (incoming w) < fuel)%nat ->
    match ProcessPool.stage_rounds tp fuel w with
    | (Hang, w') => ticks 0 w w' /\ at_end w = PeerClosed
    | (_, w') => ticks 0 w w' /\ at_end w' = at_end w
    end.
Proof.
  intros w. remember (incoming w) as evs eqn:Hev. revert w Hev.
  induction evs as [|ev evs IH]; intros w Hev fuel Hf;
    (destruct fuel as [|fuel]; [cbn in Hf; lia|]);
    cbn [ProcessPool.stage_rounds]; unfold bind at 1; unfold recv; rewrite <- Hev.
  - destruct (at_end w) eqn:Hend.
    + change (contains (bs "__EOF__") []) with false. cbv iota.
      unfold bind, file_write.
      destruct (stage_rounds_closed tp
                  (set_files (<[tp:=default [] (files w !! tp) ++ []]> (files w)) w)
                  (eq_sym Hev) Hend fuel) as (w' & -> & Ht).
      split; [|congruence]. unfold ticks in *. state_fields. exact Ht.
    + split; [apply ticks_refl|congruence].
  - destruct ev as [d|e].
    + destruct (contains (bs "__EOF__") d).
      * cbn. split; [unfold ticks; cbn; lia|cbn; congruence].
      * unfold bind, file_write.
        specialize (IH (set_files (<[tp:=default [] (files (set_incoming evs w) !! tp) ++ d]>
                                     (files (set_incoming evs w))) (set_incoming evs w))
                       eq_refl fuel).
        cbn in Hf. specialize (IH ltac:(lia)).
        destruct (ProcessPool.stage_rounds _ _ _) as [[a|e|] w'];
          unfold ticks in *; state_fields; exact IH.
    + split; [unfold ticks; cbn; lia|cbn; congruence].
Qed.

Lemma counts_stage (tp : bytes) : counts 0 (while_true (ProcessPool.stage_rounds tp)).
Proof.
  intros w. unfold while_true.
  pose proof (counts_stage_rounds tp w (S (length (incoming w))) ltac:(lia)) as H.
  destruct (ProcessPool.stage_rounds _ _ _) as [[a|e|] w']; exact H.
Qed.

Ltac quieting :=
  repeat first
    [ apply quiet_bind; [|intros ?]
    | apply quiet_try_except; [|intros ?]
    | apply quiet_ret | apply quiet_raise | apply quiet_recv | apply quiet_send
    | apply quiet_sendall | apply quiet_decode | apply quiet_b64decode_or_raise
    | apply quiet_os_path_exists | apply quiet_open_rb | apply quiet_open_wb
    | apply quiet_file_write | apply quiet_os_remove | apply quiet_os_listdir
    | match goal with
      | |- quiet (if ?b then _ else _) => destruct b
      | |- quiet (match ?x with _ => _ end) => destruct x
      end ].

Lemma quiet_execute_command (command : bytes) (parameters : ProcessPool.parameters_t) :
  quiet (ProcessPool.execute_command command parameters).
Proof. unfold ProcessPool.execute_command. quieting. Qed.

Lemma quiet_send_chunks (chunks : list bytes) : quiet (ThreadPool.send_chunks chunks).
Proof. induction chunks; cbn [ThreadPool.send_chunks]; quieting. assumption. Qed.

Lemma quiet_uuid4 : quiet (fun w => (Ok (uuid4 w), w)).
Proof. intros w. now cbn. Qed.

Ltac counting :=
  repeat first
    [ apply counts_incr_successful_ops | apply counts_incr_failed_ops
    | apply counts_recv_until; discriminate
    | apply counts_stage
    | apply counts_bind; [|intros ?]
    | apply counts_try_except; [|intros ?]
    | match goal with
      | |- counts _ (if ?b then _ else _) => destruct b
      | |- counts _ (match ?x with _ => _ end) => destruct x
      end
    | apply quiet_counts;
      first [ apply quiet_execute_command | apply quiet_send_chunks
            | apply quiet_uuid4 | quieting ] ].

Lemma counts_ThreadPool_dispatch (action : bytes) (parts : list bytes) :
  counts 1 (ThreadPool.dispatch action parts).
Proof. unfold ThreadPool.dispatch. counting. Qed.

Lemma counts_ProcessPool_dispatch (operation : bytes) (parts : list bytes) :
  counts 1 (ProcessPool.dispatch operation parts).
Proof. unfold ProcessPool.dispatch. counting. Qed.

Lemma counts_handle_request (v : variant) : counts 1 (handle_request v).
Proof.
  destruct v; cbn [handle_request];
    [unfold ThreadPool.handle_request|unfold ProcessPool.handle_request];
    counting;
    first [apply counts_ThreadPool_dispatch|apply counts_ProcessPool_dispatch].
Qed.

Lemma handler_unfold (v : variant) (w : world) :
  handler v w = try_finally (try_except (handle_request v) report_failure) close w.
Proof. destruct v; reflexivity. Qed.


(** ** Upload followed by download *)

Lemma b64encode_length (x : bytes) :
  N.of_nat (length (b64encode x)) = 4 * ((N.of_nat (length x) + 2) / 3).
Proof.
  induction x as [|a|a c|a c d x IH] using list_ind3.
  - reflexivity.
  - reflexivity.
  - reflexivity.
  - change (b64encode (a :: c :: d :: x)) with
      (b2a (sx0 a) :: b2a (sx1 a c) :: b2a (sx2 c d) :: b2a (sx3 d) :: b64encode x).
    cbn [length]. rewrite !Nat2N.inj_succ, IH.
    replace (N.succ (N.succ (N.succ (N.of_nat (length x)))) + 2)
      with (N.of_nat (length x) + 2 + 1 * 3) by lia.
    rewrite N.div_add by discriminate. lia.
Qed.

Lemma read_chunks_concat (size : N) (data : bytes) :
  0 < size -> concat (read_chunks size data) = data.
Proof.
  intros Hs. remember (length data) as n eqn:Hn. revert data Hn.
  induction n as [n IH] using lt_wf_ind. intros data Hn.
  rewrite read_chunks_step. destruct (takeN size data) as [|c chunk] eqn:E.
  - destruct data; [reflexivity|]. cbn in E.
    destruct (N.eqb_spec size 0); [lia|discriminate].
  - cbn [concat]. rewrite (IH (length (dropN size data))); [| |reflexivity].
    + rewrite <- E. apply takeN_dropN.
    + subst n. rewrite dropN_skipn, length_skipn.
      destruct data; [discriminate|]. cbn [length]. lia.
Qed.

Lemma read_chunks_one (size : N) (data : bytes) :
  data <> [] -> N.of_nat (length data) <= size -> read_chunks size data = [data].
Proof.
  intros Hne Hlen. rewrite read_chunks_step.
  destruct (takeN_all size data Hlen) as [-> ->].
  destruct data; [congruence|]. now rewrite read_chunks_nil.
Qed.

Lemma read_chunks_two (size : N) (data : bytes) :
  0 < size -> size < N.of_nat (length data) -> N.of_nat (length data) <= 2 * size ->
  read_chunks size data = [takeN size data; dropN size data].
Proof.
  intros Hs Hlo Hhi. rewrite read_chunks_step.
  pose proof (takeN_length size data ltac:(lia)) as Hl.
  destruct (takeN size data) as [|c chunk] eqn:E; [cbn in Hl; lia|].
  f_equal. apply read_chunks_one.
  - intros H. apply (f_equal (@length byte)) in H.
    rewrite dropN_skipn, length_skipn in H. cbn in H. lia.
  - rewrite dropN_skipn, length_skipn. lia.
Qed.

Lemma dropN_app_le (n : N) (s t : bytes) :
  n <= N.of_nat (length s) -> dropN n (s ++ t) = dropN n s ++ t.
Proof.
  intros H. rewrite !dropN_skipn. rewrite skipn_app.
  replace (N.to_nat n - length s)%nat with O by lia. reflexivity.
Qed.

Lemma delivered_cons (size : N) (m : bytes) (rest : list bytes) :
  delivered size (m :: rest) = read_chunks size m ++ delivered size rest.
Proof. reflexivity. Qed.

Lemma delivered_app (size : N) (a c : list bytes) :
  delivered size (a ++ c) = delivered size a ++ delivered size c.
Proof. unfold delivered. now rewrite map_app, concat_app. Qed.

Lemma concat_delivered (size : N) (messages : list bytes) :
  0 < size -> concat (delivered size messages) = concat messages.
Proof.
  intros Hs. induction messages as [|m rest IH]; [reflexivity|].
  rewrite delivered_cons, concat_app, IH, read_chunks_concat by exact Hs. reflexivity.
Qed.

(** The client's side of an upload that the server accepts. *)
Lemma perform_upload_run (file_name content reply : bytes) (w : world)
  (later : list recv_event) :
  files w !! path_join Client.LOCAL_FOLDER file_name = Some content ->
  open_fault w (path_join Client.LOCAL_FOLDER file_name) = None ->
  connect_fault w = None -> writable w = None ->
  incoming w = Data (bs "PROCEED") :: Data reply :: later ->
  forallb is_ascii reply = true ->
  exists w', Client.perform_upload file_name w = (Ok (true, reply), w') /\
    sent w' = sent w ++ [bs "UPLOAD " ++ file_name]
                     ++ map b64encode (read_chunks Client.TRANSFER_BLOCK content)
                     ++ [bs "__EOF__"] /\
    files w' = files w.
Proof.
  intros Hf Ho Hc Hw Hin Hascii.
  unfold Client.perform_upload, try_except.
  unfold bind at 1. unfold os_path_getsize. rewrite Hf.
  unfold try_finally.
  unfold bind at 1. unfold connect. rewrite Hc.
  unfold bind at 1. unfold send at 1. rewrite Hw.
  unfold bind at 1. rewrite (recv_data _ _ (bs "PROCEED") (Data reply :: later))
    by (state_fields; exact Hin).
  change (bool_decide (bs "PROCEED" = bs "PROCEED")) with true. cbn [negb].
  unfold bind at 1. rewrite (open_rb_present _ content) by (state_fields; assumption).
  unfold bind at 1. rewrite send_blocks_run by reflexivity.
  unfold bind at 1. unfold send at 1. state_fields.
  unfold bind at 1. rewrite (recv_data _ _ reply later) by reflexivity.
  unfold bind at 1. rewrite decode_ascii by exact Hascii.
  unfold ret, close. eexists. split; [reflexivity|]. state_fields.
  split; [|reflexivity]. now rewrite <- !app_assoc.
Qed.

(** The client's side of a download whose reply arrives with the sentinel
    inside one read. *)
Lemma perform_download_run (file_name : bytes) (w : world)
  (pre : list bytes) (last p data : bytes) (later : list recv_event) :
  connect_fault w = None -> writable w = None ->
  incoming w = map Data (pre ++ [last]) ++ later ->
  Forall (fun c => c <> UNDERSCORE) p ->
  concat pre ++ last = p ++ bs "__EOF__" ->
  contains (bs "__EOF__") last = true ->
  b64decode p = Some data ->
  open_fault w (path_join Client.RECEIVED_FOLDER file_name) = None ->
  exists w', Client.perform_download file_name w = (Ok (true, bs "Download completed"), w') /\
    sent w' = sent w ++ [bs "DOWNLOAD " ++ file_name] /\
    files w' = <[path_join Client.RECEIVED_FOLDER file_name := data]> (files w).
Proof.
  intros Hc Hw Hin Hp Hcat Hlast Hdec Ho.
  unfold Client.perform_download, try_except, try_finally.
  unfold bind at 1. unfold connect. rewrite Hc.
  unfold bind at 1. unfold send at 1. rewrite Hw.
  unfold bind at 1.
  change (bs "__EOF__") with (UNDERSCORE :: bs "_EOF__") in *.
  rewrite (recv_until_stream UNDERSCORE _ _ pre last p later _ Hp Hcat Hlast)
    by (state_fields; exact Hin).
  unfold bind at 1. rewrite (b64decode_or_raise_ok p data) by exact Hdec.
  unfold bind at 1. unfold open_wb. state_fields. rewrite Ho.
  unfold bind, file_write, ret, close. eexists. split; [reflexivity|]. state_fields.
  split; [reflexivity|]. rewrite lookup_insert_eq. cbn [default app].
  apply insert_insert_eq.
Qed.

(** ** An upload followed by a download

    The four runs of the session, for a file 10mb.txt: what the client
    sends, what the server stores from it, what the server sends back and
    what the client writes.  [data] is what the server's decoder makes
    of the blocks the client encoded one by one. *)
Lemma upload_client_run (content : bytes) :
  exists wc, upload_client (bs "10mb.txt") content
             = (Ok (true, bs "File stored successfully"), wc) /\
    sent wc = [bs "UPLOAD 10mb.txt"]
                ++ map b64encode (read_chunks Client.TRANSFER_BLOCK content)
                ++ [bs "__EOF__"].
Proof.
  unfold upload_client.
  destruct (perform_upload_run (bs "10mb.txt") content (bs "File stored successfully")
              (connection [bs "PROCEED"; bs "File stored successfully"] PeerClosed
                 {[ path_join Client.LOCAL_FOLDER (bs "10mb.txt") := content ]}) [])
    as (wc & Hrun & Hsent & _); try reflexivity.
  exists wc. split; [exact Hrun|exact Hsent].
Qed.

Lemma upload_server_run (content data : bytes) :
  b64decode (concat (map b64encode (read_chunks Client.TRANSFER_BLOCK content))) = Some data ->
  exists ws, upload_server (bs "10mb.txt") content = (Ok tt, ws) /\
    sent ws = [bs "PROCEED"; bs "File stored successfully"] /\
    files ws !! bs "server_storage/10mb.txt" = Some data.
Proof.
  intros Hdata. unfold upload_server.
  destruct (upload_client_run content) as (wc & -> & Hsent). cbn [snd].
  rewrite Hsent. cbn [app]. rewrite delivered_cons, delivered_app.
  rewrite (read_chunks_one _ (bs "UPLOAD 10mb.txt")) by (try discriminate; vm_compute; discriminate).
  change (delivered ProcessPool.CHUNK_SIZE [bs "__EOF__"])
    with (read_chunks ProcessPool.CHUNK_SIZE (bs "__EOF__") ++ []).
  rewrite (read_chunks_one _ (bs "__EOF__")) by (try discriminate; vm_compute; discriminate).
  cbn [app].
  set (encs := map b64encode (read_chunks Client.TRANSFER_BLOCK content)) in *.
  set (pre := delivered ProcessPool.CHUNK_SIZE encs).
  set (w := connection (bs "UPLOAD 10mb.txt" :: pre ++ [bs "__EOF__"]) PeerSilent ∅).
  pose proof (handle_request_dispatch process_pool w (bs "UPLOAD 10mb.txt")
                (map Data (pre ++ [bs "__EOF__"])) (bs "UPLOAD") [bs "10mb.txt"]
                eq_refl eq_refl eq_refl) as Hd.
  destruct (dispatch_upload_run process_pool
              (set_incoming (map Data (pre ++ [bs "__EOF__"])) w)
              (bs "UPLOAD") (bs "10mb.txt") [] pre (bs "__EOF__")
              (concat encs) data [])
    as (ws & Hrun & Hs & Hf & _); try reflexivity.
  - state_fields. now rewrite app_nil_r.
  - apply alphabet_no_underscore, concat_encodings_alphabet.
  - unfold pre. rewrite concat_delivered by reflexivity. reflexivity.
  - exact Hdata.
  - change (upper (bs "UPLOAD")) with (upload_word process_pool) in Hd.
    rewrite Hrun in Hd. change (ProcessPool.manage_connection w) with (handler process_pool w).
    rewrite (handler_ok process_pool w _ Hd).
    eexists. split; [reflexivity|]. state_fields. split; [exact Hs|exact Hf].
Qed.

Lemma download_server_run (content data : bytes) :
  b64decode (concat (map b64encode (read_chunks Client.TRANSFER_BLOCK content))) = Some data ->
  exists wd, download_server (bs "10mb.txt") content = (Ok tt, wd) /\
    sent wd = [b64encode data ++ bs "__EOF__"].
Proof.
  intros Hdata. unfold download_server.
  destruct (upload_server_run content data Hdata) as (ws & -> & _ & Hf). cbn [snd].
  destruct (handler_download_present process_pool
              (connection [bs "DOWNLOAD " ++ bs "10mb.txt"] PeerSilent (files ws))
              (bs "DOWNLOAD 10mb.txt") [] (bs "DOWNLOAD") (bs "10mb.txt") [] data)
    as (wd & Hrun & Hs & _); try reflexivity.
  - exact Hf.
  - exists wd. split; [exact Hrun|exact Hs].
Qed.

Lemma download_client_run (content data : bytes) (pre : list bytes) (last : bytes) :
  b64decode (concat (map b64encode (read_chunks Client.TRANSFER_BLOCK content))) = Some data ->
  read_chunks Client.TRANSFER_BLOCK (b64encode data ++ bs "__EOF__") = pre ++ [last] ->
  contains (bs "__EOF__") last = true ->
  exists wc, download_client (bs "10mb.txt") content
             = (Ok (true, bs "Download completed"), wc) /\
    sent wc = [bs "DOWNLOAD 10mb.txt"] /\
    files wc !! bs "client_downloads/10mb.txt" = Some data.
Proof.
  intros Hdata Hreads Hlast. unfold download_client.
  destruct (download_server_run content data Hdata) as (wd & -> & Hsd). cbn [snd].
  rewrite Hsd, delivered_cons.
  change (delivered Client.TRANSFER_BLOCK []) with (@nil bytes).
  rewrite Hreads.
  destruct (perform_download_run (bs "10mb.txt")
              (connection ((pre ++ [last]) ++ []) PeerClosed ∅)
              pre last (b64encode data) data [])
    as (wc & Hrun & Hs & Hf); try reflexivity.
  - state_fields. unfold connection. state_fields. now rewrite !app_nil_r.
  - apply alphabet_no_underscore, b64encode_alphabet.
  - pose proof (concat_delivered Client.TRANSFER_BLOCK
                  [b64encode data ++ bs "__EOF__"] eq_refl) as Hc.
    rewrite delivered_cons in Hc.
    change (delivered Client.TRANSFER_BLOCK []) with (@nil bytes) in Hc.
    rewrite Hreads, app_nil_r, concat_app in Hc. cbn [concat] in Hc.
    rewrite !app_nil_r in Hc. exact Hc.
  - exact Hlast.
  - apply b64decode_b64encode.
  - exists wc. split; [exact Hrun|]. split; [exact Hs|].
    rewrite Hf. apply lookup_insert_eq.
Qed.

(** A file whose encoding and sentinel fit in one read comes back as it
    was. *)
Lemma upload_then_download_of_small_file (content : bytes) :
  4 * ((N.of_nat (length content) + 2) / 3) + 7 <= Client.TRANSFER_BLOCK ->
  fst (upload_client (bs "10mb.txt") content)
    = Ok (true, bs "File stored successfully") /\
  fst (download_client (bs "10mb.txt") content)
    = Ok (true, bs "Download completed") /\
  files (snd (download_client (bs "10mb.txt") content)) !! bs "client_downloads/10mb.txt"
    = Some content.
Proof.
  intros Hlen.
  assert (Hsmall : N.of_nat (length content) <= Client.TRANSFER_BLOCK).
  { pose proof (N.mul_succ_div_gt (N.of_nat (length content) + 2) 3).
    unfold Client.TRANSFER_BLOCK in *. lia. }
  assert (Hdata : b64decode (concat (map b64encode
                    (read_chunks Client.TRANSFER_BLOCK content))) = Some content).
  { rewrite read_chunks_small by exact Hsmall. apply b64decode_b64encode. }
  destruct (upload_client_run content) as (wu & -> & _).
  destruct (download_client_run content content [] (b64encode content ++ bs "__EOF__") Hdata)
    as (wc & -> & _ & Hf).
  - apply read_chunks_one.
    + destruct (b64encode content); discriminate.
    + rewrite length_app, Nat2N.inj_add, b64encode_length. exact Hlen.
  - apply contains_end.
  - cbn [fst snd]. split; [reflexivity|]. split; [reflexivity|exact Hf].
Qed.

Lemma first_block_reply_length (content : bytes) :
  Client.TRANSFER_BLOCK < N.of_nat (length content) ->
  N.of_nat (length (b64encode (takeN Client.TRANSFER_BLOCK content))) = 1398104.
Proof.
  intros Hlen. rewrite b64encode_length, takeN_length by lia. reflexivity.
Qed.


(** * The claims *)

(** C1.  Decoding the encoding of any byte sequence, the empty one
    included, gives the sequence back; the same holds through the framing,
    where the sender appends the sentinel and the receiver deletes it before
    decoding.  No condition on [x] is needed. *)
Theorem C1_decode_encode (x : bytes) :
  b64decode (b64encode x) = Some x /\
  b64decode (replace_empty (bs "__EOF__") (b64encode x ++ bs "__EOF__")) = Some x.
Proof.
  split; [apply b64decode_b64encode|].
  change (bs "__EOF__") with (UNDERSCORE :: bs "_EOF__").
  rewrite replace_empty_trailing; [apply b64decode_b64encode|].
  apply alphabet_no_underscore, b64encode_alphabet.
Qed.

(** C9.  Whatever is encoded, in one piece or block by block, the payload
    consists of alphabet characters only, none of them an underscore; so
    neither sentinel occurs in it, deleting every occurrence of the sentinel
    from payload plus sentinel strips exactly the trailing sentinel, and a
    receiving loop that meets the sentinel inside one read returns exactly
    the payload, however the stream was cut into reads. *)
Theorem C9_sentinel_never_in_payload (chunks : list bytes) (sentinel : bytes) :
  sentinel = bs "__EOF__" \/ sentinel = bs "__COMPLETE__" ->
  let payload := concat (map b64encode chunks) in
  forallb is_b64_char payload = true /\
  Forall (fun c => c <> UNDERSCORE) payload /\
  contains sentinel payload = false /\
  replace_empty sentinel (payload ++ sentinel) = payload /\
  forall (pre : list bytes) (last : bytes) (more : list recv_event) (n : N) (w : world),
    concat pre ++ last = payload ++ sentinel ->
    contains sentinel last = true ->
    incoming w = map Data (pre ++ [last]) ++ more ->
    recv_until sentinel n w = (Ok payload, set_incoming more w).
Proof.
  intros Hs payload.
  assert (Ha : forallb is_b64_char payload = true) by apply concat_encodings_alphabet.
  assert (Hu : Forall (fun c => c <> UNDERSCORE) payload) by now apply alphabet_no_underscore.
  assert (Hshape : exists s, sentinel = UNDERSCORE :: s).
  { destruct Hs as [-> | ->]; eexists; reflexivity. }
  destruct Hshape as [s ->].
  repeat split; try assumption.
  - now apply contains_without_first.
  - now apply replace_empty_trailing.
  - intros pre last more n w Hcat Hlast Hin.
    now apply (recv_until_stream UNDERSCORE s n pre last payload more w).
Qed.

Lemma C9_witness :
  recv_until (bs "__EOF__") 1048576
    (connection [bs "QU"; bs "JD__EOF__"] PeerClosed ∅)
  = (Ok (bs "QUJD"), set_incoming [] (connection [bs "QU"; bs "JD__EOF__"] PeerClosed ∅)).
Proof.
  refine (proj2 (proj2 (proj2 (proj2
    (C9_sentinel_never_in_payload [bs "ABC"] (bs "__EOF__") (or_introl eq_refl)))))
    [bs "QU"] (bs "JD__EOF__") [] 1048576 _ _ _ _); reflexivity.
Defined.

(** C2.  The receiving loops test each read on its own.  With the sentinel
    cut in two by a read boundary the client never leaves its loop, although
    the same bytes in one read are received, decoded and saved; both
    servers wait until the socket times out, store nothing and count a
    failure. *)
Theorem C2_straddling_sentinel_is_missed :
  fst (Client.perform_download (bs "a.txt")
         (connection [bs "QUJD__E"; bs "OF__"] PeerClosed ∅)) = Hang /\
  (let r := Client.perform_download (bs "a.txt")
              (connection [bs "QUJD__EOF__"] PeerClosed ∅) in
   fst r = Ok (true, bs "Download completed") /\
   files (snd r) !! bs "client_downloads/a.txt" = Some (bs "ABC")) /\
  (let r := ProcessPool.manage_connection
              (connection [bs "UPLOAD a.txt"; bs "QUJD__E"; bs "OF__"] PeerSilent ∅) in
   fst r = Ok tt /\
   sent (snd r) = [bs "PROCEED"; bs "Error: timed out"] /\
   files (snd r) !! bs "server_storage/a.txt" = None /\
   successful_ops (snd r) = 0 /\ failed_ops (snd r) = 1) /\
  (let r := ThreadPool.process_client_request
              (connection [bs "STORE a.txt"; bs "QUJD__COMP"; bs "LETE__"] PeerSilent ∅) in
   fst r = Ok tt /\
   sent (snd r) = [bs "READY_FOR_DATA"; bs "Error: timed out"] /\
   files (snd r) !! bs "server_storage/a.txt" = None /\
   successful_ops (snd r) = 0 /\ failed_ops (snd r) = 1).
Proof. vm_compute. repeat split. Qed.



(** C5 (as the code has it).  A request naming no known command, or an
    upload or download command without a file name, is answered with the
    variant's error text while the socket can be written; so is, in the
    thread-pool variant, a line of whitespace.  An empty first read is
    answered by neither variant: the failure is counted and the connection
    closed. *)
Theorem C5_protocol_errors (v : variant) (w : world) (raw : bytes)
  (rest : list recv_event) :
  incoming w = Data raw :: rest ->
  forallb is_ascii raw = true ->
  (forall command args,
     split (strip raw) = command :: args ->
     upper command <> list_word v -> upper command <> upload_word v ->
     upper command <> download_word v ->
     replies_and_fails v w (unknown_command v)) /\
  (forall command,
     split (strip raw) = [command] ->
     upper command = upload_word v \/ upper command = download_word v ->
     replies_and_fails v w (missing_name v)) /\
  (v = thread_pool -> raw <> [] -> split (strip raw) = [] ->
     replies_and_fails v w (bs "Invalid request format")) /\
  (raw = [] -> fails_silently v w).
Proof.
  intros Hin Hascii. split; [|split; [|split]].
  - intros command args Hsplit Hl Hu Hd.
    apply (handler_rejects v w (set_incoming rest w)); try reflexivity.
    rewrite (handle_request_dispatch v w raw rest command args Hin Hascii Hsplit).
    destruct v; cbn [dispatch list_word upload_word download_word unknown_command] in *.
    + unfold ThreadPool.dispatch. now rewrite !bool_decide_eq_false_2 by assumption.
    + unfold ProcessPool.dispatch. now rewrite !bool_decide_eq_false_2 by assumption.
  - intros command Hsplit Hcmd.
    apply (handler_rejects v w (set_incoming rest w)); try reflexivity.
    rewrite (handle_request_dispatch v w raw rest command [] Hin Hascii Hsplit).
    destruct v; cbn [dispatch upload_word download_word missing_name] in *;
      destruct Hcmd as [-> | ->].
    + unfold ThreadPool.dispatch. literal_tests. reflexivity.
    + unfold ThreadPool.dispatch. literal_tests. reflexivity.
    + unfold ProcessPool.dispatch. literal_tests. reflexivity.
    + unfold ProcessPool.dispatch. literal_tests. reflexivity.
  - intros -> Hne Hsplit.
    apply (handler_rejects thread_pool w (set_incoming rest w)); try reflexivity.
    cbn [handle_request]. unfold ThreadPool.handle_request, bind.
    rewrite (recv_data _ w raw rest Hin), decode_ascii by exact Hascii.
    destruct raw; [congruence|]. now rewrite Hsplit.
  - intros ->.
    apply (handler_silent v w (set_incoming rest w)); try reflexivity.
    destruct v; cbn [handle_request];
      [unfold ThreadPool.handle_request|unfold ProcessPool.handle_request];
      unfold bind; now rewrite (recv_data _ w [] rest Hin).
Qed.

Lemma C5_witness :
  replies_and_fails process_pool
    (connection [bs "PING"] PeerClosed ∅) (bs "Unknown operation") /\
  replies_and_fails thread_pool
    (connection [bs "store"] PeerClosed ∅) (bs "Filename required") /\
  replies_and_fails thread_pool
    (connection [bs "  "] PeerClosed ∅) (bs "Invalid request format") /\
  fails_silently process_pool (connection [[]] PeerClosed ∅).
Proof.
  split; [|split; [|split]].
  - refine (proj1 (C5_protocol_errors process_pool
              (connection [bs "PING"] PeerClosed ∅) (bs "PING") [] eq_refl eq_refl)
              (bs "PING") [] eq_refl _ _ _); discriminate.
  - refine (proj1 (proj2 (C5_protocol_errors thread_pool
              (connection [bs "store"] PeerClosed ∅) (bs "store") [] eq_refl eq_refl))
              (bs "store") eq_refl (or_introl eq_refl)).
  - refine (proj1 (proj2 (proj2 (C5_protocol_errors thread_pool
              (connection [bs "  "] PeerClosed ∅) (bs "  ") [] eq_refl eq_refl)))
              eq_refl _ eq_refl); discriminate.
  - exact (proj2 (proj2 (proj2 (C5_protocol_errors process_pool
              (connection [[]] PeerClosed ∅) [] [] eq_refl eq_refl))) eq_refl).
Defined.

(** The claim as worded also covers an empty first line; there the handlers
    send nothing although the socket can be written. *)
Lemma C5_counterexample :
  (let w := connection [[]] PeerClosed ∅ in
   writable w = None /\ sent (snd (handler thread_pool w)) = [] /\
   sent (snd (handler process_pool w)) = []) /\
  (let w := connection [] PeerClosed ∅ in
   writable w = None /\ sent (snd (handler thread_pool w)) = [] /\
   sent (snd (handler process_pool w)) = []).
Proof. vm_compute. repeat split. Qed.

(** C6 (as the code has it).  Each variant has its own command words: LIST,
    UPLOAD and DOWNLOAD in the process-pool server, DIRECTORY, STORE and
    FETCH in the thread-pool server.  Under its own words a variant answers
    a listing request with the names joined by newlines, or its marker for
    an empty directory, and counts a success and no failure when the
    directory can be read and the reply sent; performs an upload whose
    stream is well formed; and sends the encoded file for a download.  The
    thread-pool server rejects the words LIST, UPLOAD and DOWNLOAD. *)
Theorem C6_commands_of_each_variant (v : variant) (w : world) (raw : bytes)
  (rest : list recv_event) (command : bytes) (args : list bytes) :
  incoming w = Data raw :: rest ->
  forallb is_ascii raw = true ->
  split (strip raw) = command :: args ->
  (upper command = list_word v ->
   listdir_fault w = None -> writable w <> Some O ->
   let r := handler v w in
   fst r = Ok tt /\ sent (snd r) = sent w ++ [listing v w] /\
   successful_ops (snd r) = successful_ops w + 1 /\
   failed_ops (snd r) = failed_ops w) /\
  (forall name more pre last p data later,
     upper command = upload_word v -> args = name :: more ->
     writable w = None -> (forall path, open_fault w path = None) ->
     rest = map Data (pre ++ [last]) ++ later ->
     Forall (fun c => c <> UNDERSCORE) p ->
     concat pre ++ last = p ++ sentinel v ->
     contains (sentinel v) last = true ->
     b64decode p = Some data ->
     let r := handler v w in
     fst r = Ok tt /\
     sent (snd r) = sent w ++ [go_ahead v; bs "File stored successfully"] /\
     files (snd r) !! path_join (storage_root v) name = Some data /\
     successful_ops (snd r) = successful_ops w + 1 /\
     failed_ops (snd r) = failed_ops w) /\
  (forall name more content,
     upper command = download_word v -> args = name :: more ->
     writable w = None -> (forall path, open_fault w path = None) ->
     files w !! path_join (storage_root v) name = Some content ->
     let r := handler v w in
     fst r = Ok tt /\ sent (snd r) = sent w ++ download_reply v content) /\
  (v = thread_pool ->
   upper command = bs "LIST" \/ upper command = bs "UPLOAD" \/
   upper command = bs "DOWNLOAD" ->
   replies_and_fails v w (bs "Unrecognized command")).
Proof.
  intros Hin Hascii Hsplit.
  pose proof (handle_request_dispatch v w raw rest command args Hin Hascii Hsplit) as Hd.
  split; [|split; [|split]].
  - intros Hcmd Hl Hw r. subst r. rewrite Hcmd in Hd.
    rewrite dispatch_list in Hd by assumption.
    rewrite (handler_ok v w _ Hd). state_fields. repeat split.
  - intros name more pre last p data later Hcmd -> Hw Hop -> Hp Hcat Hlast Hdec r.
    subst r. rewrite Hcmd in Hd.
    destruct (dispatch_upload_run v (set_incoming (map Data (pre ++ [last]) ++ later) w)
                command name more pre last p data later)
      as (w' & Hrun & Hsent & Hfile & Hs & Hf & _); try assumption; try reflexivity.
    rewrite Hrun in Hd. rewrite (handler_ok v w _ Hd). state_fields.
    repeat split; assumption.
  - intros name more content Hcmd -> Hw Hop Hfile r. subst r. rewrite Hcmd in Hd.
    destruct (dispatch_download_present v (set_incoming rest w) command name content more)
      as (w' & Hrun & Hsent & _); try assumption; try apply Hop.
    rewrite Hrun in Hd. rewrite (handler_ok v w _ Hd). state_fields.
    split; [reflexivity|assumption].
  - intros -> Hcmd.
    apply (unknown_command_rejected thread_pool w raw rest command args Hin Hascii Hsplit);
      cbn [list_word upload_word download_word];
      destruct Hcmd as [-> | [-> | ->]]; discriminate.
Qed.

Lemma C6_witness :
  (let w := connection [bs "list"] PeerClosed ∅ in
   let r := handler process_pool w in
   fst r = Ok tt /\ sent (snd r) = sent w ++ [listing process_pool w] /\
   successful_ops (snd r) = successful_ops w + 1 /\
   failed_ops (snd r) = failed_ops w) /\
  replies_and_fails thread_pool (connection [bs "LIST"] PeerClosed ∅)
    (bs "Unrecognized command").
Proof.
  split.
  - refine (proj1 (C6_commands_of_each_variant process_pool
             (connection [bs "list"] PeerClosed ∅) (bs "list") [] (bs "list") []
             eq_refl eq_refl eq_refl) eq_refl eq_refl _). discriminate.
  - exact (proj2 (proj2 (proj2 (C6_commands_of_each_variant thread_pool
             (connection [bs "LIST"] PeerClosed ∅) (bs "LIST") [] (bs "LIST") []
             eq_refl eq_refl eq_refl))) eq_refl (or_introl eq_refl)).
Defined.

(** The claim as worded has both variants serve LIST, UPLOAD and DOWNLOAD;
    the thread-pool server answers each of them [Unrecognized command] and
    counts a failure. *)
Lemma C6_counterexample :
  (let r := handler thread_pool (connection [bs "LIST"] PeerClosed ∅) in
   sent (snd r) = [bs "Unrecognized command"] /\
   successful_ops (snd r) = 0 /\ failed_ops (snd r) = 1) /\
  (let r := handler thread_pool (connection [bs "UPLOAD a.txt"] PeerClosed ∅) in
   sent (snd r) = [bs "Unrecognized command"] /\ failed_ops (snd r) = 1) /\
  (let r := handler thread_pool
              (connection [bs "DOWNLOAD a.txt"] PeerClosed
                 {[ bs "server_storage/a.txt" := bs "abc" ]}) in
   sent (snd r) = [bs "Unrecognized command"] /\ failed_ops (snd r) = 1).
Proof. vm_compute. repeat split. Qed.

(** C3 (as the code has it).  For a stored file the process-pool server
    emits the encoding of the whole file followed by [__EOF__]; the
    thread-pool server, for a file of at most one block of 1048576 bytes,
    emits the encoding of the whole file followed by its own sentinel
    [__COMPLETE__].  The two streams carry the same encoded payload and
    differ in the sentinel. *)
Theorem C3_download_stream (v : variant) (w : world) (raw : bytes)
  (rest : list recv_event) (command name : bytes) (more : list bytes) (content : bytes) :
  incoming w = Data raw :: rest ->
  forallb is_ascii raw = true ->
  split (strip raw) = command :: name :: more ->
  upper command = download_word v ->
  writable w = None -> (forall path, open_fault w path = None) ->
  files w !! path_join (storage_root v) name = Some content ->
  v = process_pool \/ N.of_nat (length content) <= ThreadPool.DATA_CHUNK ->
  let r := handler v w in
  fst r = Ok tt /\
  concat (sent (snd r)) = concat (sent w) ++ b64encode content ++ sentinel v /\
  b64encode content ++ sentinel thread_pool <> b64encode content ++ sentinel process_pool.
Proof.
  intros Hin Hascii Hsplit Hcmd Hw Hop Hfile Hsize r. subst r.
  destruct (handler_download_present v w raw rest command name more content)
    as (w' & -> & Hsent & _); try assumption.
  cbn [fst snd]. split; [reflexivity|]. split.
  - now rewrite Hsent, concat_app, download_reply_stream.
  - intros H. apply app_inv_head in H. discriminate H.
Qed.

Lemma C3_witness :
  let w := connection [bs "FETCH a.txt"] PeerClosed {[ bs "server_storage/a.txt" := bs "a" ]} in
  let r := handler thread_pool w in
  fst r = Ok tt /\
  concat (sent (snd r)) = concat (sent w) ++ b64encode (bs "a") ++ sentinel thread_pool /\
  b64encode (bs "a") ++ sentinel thread_pool <> b64encode (bs "a") ++ sentinel process_pool.
Proof.
  apply (C3_download_stream thread_pool
           (connection [bs "FETCH a.txt"] PeerClosed {[ bs "server_storage/a.txt" := bs "a" ]})
           (bs "FETCH a.txt") [] (bs "FETCH") (bs "a.txt") [] (bs "a"));
    try reflexivity.
  right. vm_compute. discriminate.
Defined.

(** A file longer than one block: the thread-pool stream is not the
    encoding of the whole file followed by the sentinel. *)
Lemma ThreadPool_stream_of_long_file (content : bytes) :
  ThreadPool.DATA_CHUNK < N.of_nat (length content) ->
  concat (sent (snd (handler thread_pool
                       (connection [bs "FETCH big.bin"] PeerClosed
                          {[ bs "server_storage/big.bin" := content ]}))))
    <> b64encode content ++ bs "__COMPLETE__".
Proof.
  intros Hlen.
  destruct (handler_download_present thread_pool
              (connection [bs "FETCH big.bin"] PeerClosed
                 {[ bs "server_storage/big.bin" := content ]})
              (bs "FETCH big.bin") [] (bs "FETCH") (bs "big.bin") [] content)
    as (w' & -> & Hsent & _); try reflexivity.
  cbn [snd]. rewrite Hsent. cbn [sent connection app download_reply].
  rewrite concat_app. cbn [concat]. rewrite app_nil_r.
  intros H. apply app_inv_tail in H.
  now apply (blockwise_differs ThreadPool.DATA_CHUNK content
               block_size_not_multiple_of_three Hlen).
Qed.

Lemma length_of_zeros (n : N) : N.of_nat (length (repeat x00 (N.to_nat n))) = n.
Proof. rewrite repeat_length. apply N2Nat.id. Qed.

(** The claim as worded makes the two variants' streams identical, and the
    thread-pool stream the encoding of the whole file for every file.  For
    the one-byte file [a] the streams differ in the sentinel; for a file of
    1048577 bytes the thread-pool stream is not the whole-file encoding
    followed by the sentinel. *)
Lemma C3_counterexample :
  (concat (sent (snd (handler thread_pool
                        (connection [bs "FETCH a.txt"] PeerClosed
                           {[ bs "server_storage/a.txt" := bs "a" ]}))))
     = bs "YQ==__COMPLETE__" /\
   concat (sent (snd (handler process_pool
                        (connection [bs "DOWNLOAD a.txt"] PeerClosed
                           {[ bs "server_storage/a.txt" := bs "a" ]}))))
     = bs "YQ==__EOF__") /\
  concat (sent (snd (handler thread_pool
                       (connection [bs "FETCH big.bin"] PeerClosed
                          {[ bs "server_storage/big.bin" := repeat x00 (N.to_nat 1048577) ]}))))
    <> b64encode (repeat x00 (N.to_nat 1048577)) ++ bs "__COMPLETE__".
Proof.
  split; [split; vm_compute; reflexivity|].
  apply ThreadPool_stream_of_long_file.
  rewrite length_of_zeros. reflexivity.
Qed.

(** C10.  The first whitespace-separated token of the request line is
    upper-cased and only then compared with the command words; the
    remaining tokens reach the dispatch as they were received.  So a request
    is handled exactly as the request that has the upper-case form of its
    first token, while a file name is looked up in the case it was sent in. *)
Theorem C10_command_word_case_insensitive (v : variant) (w : world) (raw : bytes)
  (rest : list recv_event) (command : bytes) (args : list bytes) :
  incoming w = Data raw :: rest ->
  forallb is_ascii raw = true ->
  split (strip raw) = command :: args ->
  handle_request v w = dispatch v (upper command) (command :: args) (set_incoming rest w) /\
  (forall raw',
     forallb is_ascii raw' = true ->
     split (strip raw') = upper command :: args ->
     handler v (set_incoming (Data raw' :: rest) w) = handler v w) /\
  (let fs : gmap bytes bytes := {[ bs "server_storage/a.txt" := bs "abc" ]} in
   sent (snd (handler process_pool (connection [bs "download a.txt"] PeerClosed fs)))
     = [bs "YWJj__EOF__"] /\
   sent (snd (handler process_pool (connection [bs "Download A.TXT"] PeerClosed fs)))
     = [bs "File unavailable"] /\
   sent (snd (handler thread_pool (connection [bs "fetch a.txt"] PeerClosed fs)))
     = [bs "YWJj"; bs "__COMPLETE__"] /\
   sent (snd (handler thread_pool (connection [bs "Fetch A.TXT"] PeerClosed fs)))
     = [bs "File unavailable"]).
Proof.
  intros Hin Hascii Hsplit.
  pose proof (handle_request_dispatch v w raw rest command args Hin Hascii Hsplit) as Hd.
  split; [exact Hd|]. split.
  - intros raw' Hascii' Hsplit'. apply handler_from_handle_request.
    rewrite Hd.
    rewrite (handle_request_dispatch v (set_incoming (Data raw' :: rest) w) raw' rest
               (upper command) args eq_refl Hascii' Hsplit').
    rewrite upper_idempotent. state_fields.
    apply (f_equal (fun f => f (set_incoming rest w))).
    apply dispatch_ignores_first_token.
  - vm_compute. repeat split.
Qed.

Lemma C10_witness :
  handler process_pool (set_incoming [Data (bs "UPLOAD  a.txt")]
                          (connection [bs " upload a.txt"] PeerSilent ∅))
  = handler process_pool (connection [bs " upload a.txt"] PeerSilent ∅).
Proof.
  exact (proj1 (proj2 (C10_command_word_case_insensitive process_pool
           (connection [bs " upload a.txt"] PeerSilent ∅) (bs " upload a.txt") []
           (bs "upload") [bs "a.txt"] eq_refl eq_refl eq_refl))
           (bs "UPLOAD  a.txt") eq_refl eq_refl).
Defined.

(** C7. Uploading a file and then downloading it does not give back the
    same bytes when the file is longer than one transfer block of
    1048576 bytes: the client encodes every block on its own, every full
    block's encoding ends in padding, and the server's decoder stops at
    the first padding.  Both sides report success, and the downloaded
    file holds only the first block. *)
Theorem C7_upload_then_download_truncates (content : bytes) :
  Client.TRANSFER_BLOCK < N.of_nat (length content) ->
  fst (upload_client (bs "10mb.txt") content)
    = Ok (true, bs "File stored successfully") /\
  fst (upload_server (bs "10mb.txt") content) = Ok tt /\
  sent (snd (upload_server (bs "10mb.txt") content))
    = [bs "PROCEED"; bs "File stored successfully"] /\
  fst (download_client (bs "10mb.txt") content)
    = Ok (true, bs "Download completed") /\
  sent (snd (download_client (bs "10mb.txt") content)) = [bs "DOWNLOAD 10mb.txt"] /\
  files (snd (download_client (bs "10mb.txt") content)) !! bs "client_downloads/10mb.txt"
    = Some (takeN Client.TRANSFER_BLOCK content) /\
  takeN Client.TRANSFER_BLOCK content <> content.
Proof.
  intros Hlen.
  set (first := takeN Client.TRANSFER_BLOCK content).
  assert (Hdata : b64decode (concat (map b64encode
                    (read_chunks Client.TRANSFER_BLOCK content))) = Some first).
  { apply blockwise_decodes_to_first_block;
      [apply block_size_not_multiple_of_three|exact Hlen]. }
  pose proof (first_block_reply_length content Hlen) as Henc. fold first in Henc.
  set (msg := b64encode first ++ bs "__EOF__").
  assert (Hmsg : N.of_nat (length msg) = 1398111).
  { unfold msg. rewrite length_app, Nat2N.inj_add, Henc. reflexivity. }
  destruct (upload_client_run content) as (wu & Hu & _).
  destruct (upload_server_run content first Hdata) as (ws & Hs & Hsent & _).
  destruct (download_client_run content first
              [takeN Client.TRANSFER_BLOCK msg] (dropN Client.TRANSFER_BLOCK msg) Hdata)
    as (wc & Hc & Hcs & Hcf).
  { apply (read_chunks_two Client.TRANSFER_BLOCK msg);
      unfold Client.TRANSFER_BLOCK; lia. }
  { unfold msg. rewrite dropN_app_le by (unfold Client.TRANSFER_BLOCK; lia).
    apply contains_end. }
  rewrite Hu, Hs, Hc. cbn [fst snd].
  split; [reflexivity|]. split; [reflexivity|]. split; [exact Hsent|].
  split; [reflexivity|]. split; [exact Hcs|]. split; [exact Hcf|].
  intros Heq. apply (f_equal (fun s => N.of_nat (length s))) in Heq.
  unfold first in Heq. rewrite takeN_length in Heq by lia. lia.
Qed.

Lemma C7_witness :
  let content := repeat x00 (N.to_nat 1048577) in
  Client.TRANSFER_BLOCK < N.of_nat (length content) /\
  files (snd (download_client (bs "10mb.txt") content)) !! bs "client_downloads/10mb.txt"
    = Some (takeN Client.TRANSFER_BLOCK content) /\
  takeN Client.TRANSFER_BLOCK content <> content.
Proof.
  intros content.
  assert (Hlen : Client.TRANSFER_BLOCK < N.of_nat (length content)).
  { unfold content. rewrite length_of_zeros. reflexivity. }
  split; [exact Hlen|].
  split; apply (C7_upload_then_download_truncates content Hlen).
Defined.

(** * Further properties of the client *)

(** X1. A download whose peer closes the connection without any read
    holding the sentinel -- a textual error reply such as
    [File unavailable], or a sentinel cut in two -- never returns: the
    loop keeps reading the empty string.  Nothing is written. *)
Theorem X1_download_without_sentinel_never_returns (file_name : bytes) (w : world)
  (reads : list bytes) :
  connect_fault w = None -> writable w = None ->
  incoming w = map Data reads -> at_end w = PeerClosed ->
  Forall (fun d => contains (bs "__EOF__") d = false) reads ->
  let r := Client.perform_download file_name w in
  fst r = Hang /\ files (snd r) = files w /\
  sent (snd r) = sent w ++ [bs "DOWNLOAD " ++ file_name].
Proof.
  intros Hc Hw Hin He Hreads.
  assert (Hrun : Client.perform_download file_name w
                 = (Hang, set_incoming []
                            (set_socket None (sent w ++ [bs "DOWNLOAD " ++ file_name]) w))).
  { unfold Client.perform_download, try_except, try_finally, bind, connect, send,
      recv_until, while_true.
    rewrite Hc, Hw.
    rewrite (recv_rounds_missed (bs "__EOF__") Client.TRANSFER_BLOCK reads);
      [|discriminate|exact Hreads|exact Hin|state_fields; rewrite Hin, length_map; lia].
    state_fields. rewrite He. reflexivity. }
  cbv zeta. rewrite Hrun. state_fields. auto.
Qed.

Lemma X1_witness :
  fst (Client.perform_download (bs "a.txt")
         (connection [bs "File unavailable"] PeerClosed ∅)) = Hang.
Proof.
  refine (proj1 (X1_download_without_sentinel_never_returns (bs "a.txt")
            (connection [bs "File unavailable"] PeerClosed ∅)
            [bs "File unavailable"] eq_refl eq_refl eq_refl eq_refl _)).
  repeat constructor.
Defined.

(** X2. An upload sends nothing of the file unless the first thing read
    from the server is exactly [PROCEED]: whatever else comes first -- another
    reply, an empty read, a socket error -- and whatever fails on the way,
    the call returns [False] with a message, at most the request line has been
    sent, and no file is touched.  A textual reply is reported back after
    [Server response: ]. *)
Theorem X2_upload_sends_no_data_unless_told (file_name : bytes) (w : world)
  (first : recv_event) (later : list recv_event) :
  incoming w = first :: later -> first <> Data (bs "PROCEED") ->
  let r := Client.perform_upload file_name w in
  (exists message, fst r = Ok (false, message)) /\
  (sent (snd r) = sent w \/ sent (snd r) = sent w ++ [bs "UPLOAD " ++ file_name]) /\
  files (snd r) = files w /\
  (forall reply content,
     first = Data reply -> forallb is_ascii reply = true ->
     files w !! path_join Client.LOCAL_FOLDER file_name = Some content ->
     connect_fault w = None -> writable w <> Some O ->
     fst r = Ok (false, bs "Server response: " ++ reply) /\
     sent (snd r) = sent w ++ [bs "UPLOAD " ++ file_name] /\ closed (snd r) = true).
Proof.
  intros Hin Hfirst. destruct w as [inc ae wr st cl fs ofault lf cf u so fo].
  cbn [incoming] in Hin. subst inc. cbv zeta.
  unfold Client.perform_upload, try_except, try_finally, bind, os_path_getsize,
    connect, send, recv, close, decode, ret, raise.
  state_fields.
  destruct (fs !! path_join Client.LOCAL_FOLDER file_name) as [content|] eqn:Hfile;
    state_fields.
  2:{ split; [eexists; reflexivity|]. split; [now left|]. split; [reflexivity|].
      intros reply content' _ _ Hc. discriminate. }
  destruct cf as [e|]; state_fields.
  { split; [eexists; reflexivity|]. split; [now left|]. split; [reflexivity|].
    intros reply content' _ _ _ Hc. discriminate. }
  destruct wr as [[|k]|]; state_fields.
  - split; [eexists; reflexivity|]. split; [now left|]. split; [reflexivity|].
    intros reply content' _ _ _ _ Hwr. now contradiction Hwr.
  - destruct first as [d|e]; state_fields.
    + rewrite bool_decide_eq_false_2 by congruence. cbn [negb].
      destruct (forallb is_ascii d) eqn:Hascii; state_fields.
      * split; [eexists; reflexivity|]. split; [now right|]. split; [reflexivity|].
        intros reply content' [= <-] _ _ _ _. auto.
      * split; [eexists; reflexivity|]. split; [now right|]. split; [reflexivity|].
        intros reply content' [= <-] Ha. congruence.
    + split; [eexists; reflexivity|]. split; [now right|]. split; [reflexivity|].
      intros reply content' Hd. discriminate.
  - destruct first as [d|e]; state_fields.
    + rewrite bool_decide_eq_false_2 by congruence. cbn [negb].
      destruct (forallb is_ascii d) eqn:Hascii; state_fields.
      * split; [eexists; reflexivity|]. split; [now right|]. split; [reflexivity|].
        intros reply content' [= <-] _ _ _ _. auto.
      * split; [eexists; reflexivity|]. split; [now right|]. split; [reflexivity|].
        intros reply content' [= <-] Ha. congruence.
    + split; [eexists; reflexivity|]. split; [now right|]. split; [reflexivity|].
      intros reply content' Hd. discriminate.
Qed.

Lemma X2_witness :
  fst (Client.perform_upload (bs "a.txt")
         (connection [bs "Unrecognized command"] PeerClosed
            {[ bs "client_data/a.txt" := bs "ABC" ]}))
  = Ok (false, bs "Server response: Unrecognized command").
Proof.
  pose proof (X2_upload_sends_no_data_unless_told (bs "a.txt")
                (connection [bs "Unrecognized command"] PeerClosed
                   {[ bs "client_data/a.txt" := bs "ABC" ]})
                (Data (bs "Unrecognized command")) [] eq_refl) as H.
  destruct H as (_ & _ & _ & H); [discriminate|].
  apply (H (bs "Unrecognized command") (bs "ABC")); try reflexivity.
  discriminate.
Defined.

(** * Further properties of the servers *)

(** ** What leaves the storage alone *)

Ltac keeps_primitive :=
  intros w; destruct w;
  cbv beta delta [recv send sendall connect close decode b64decode_or_raise
                  os_path_exists open_rb os_listdir ret raise
                  incr_successful_ops incr_failed_ops] iota;
  state_fields;
  repeat match goal with
  | |- context [match ?x with _ => _ end] => destruct x
  end; reflexivity.

Lemma keeps_ret {A} (a : A) : keeps_files (ret a).
Proof. keeps_primitive. Qed.
Lemma keeps_raise {A} (e : exn) : keeps_files (@raise A e).
Proof. keeps_primitive. Qed.
Lemma keeps_recv (n : N) : keeps_files (recv n).
Proof. keeps_primitive. Qed.
Lemma keeps_send (d : bytes) : keeps_files (send d).
Proof. keeps_primitive. Qed.
Lemma keeps_sendall (d : bytes) : keeps_files (sendall d).
Proof. keeps_primitive. Qed.
Lemma keeps_close : keeps_files close.
Proof. keeps_primitive. Qed.
Lemma keeps_decode (d : bytes) : keeps_files (decode d).
Proof. keeps_primitive. Qed.
Lemma keeps_b64decode_or_raise (d : bytes) : keeps_files (b64decode_or_raise d).
Proof. keeps_primitive. Qed.
Lemma keeps_os_path_exists (p : bytes) : keeps_files (os_path_exists p).
Proof. keeps_primitive. Qed.
Lemma keeps_open_rb (p : bytes) : keeps_files (open_rb p).
Proof.
  intros w. unfold open_rb. destruct (open_fault w p); [reflexivity|].
  destruct (files w !! p); reflexivity.
Qed.
Lemma keeps_os_listdir (p : bytes) : keeps_files (os_listdir p).
Proof. keeps_primitive. Qed.
Lemma keeps_incr_successful_ops : keeps_files incr_successful_ops.
Proof. keeps_primitive. Qed.
Lemma keeps_incr_failed_ops : keeps_files incr_failed_ops.
Proof. keeps_primitive. Qed.

Lemma keeps_bind {A B} (m : M A) (k : A -> M B) :
  keeps_files m -> (forall a, keeps_files (k a)) -> keeps_files (bind m k).
Proof.
  intros Hm Hk w. unfold bind. specialize (Hm w).
  destruct (m w) as [[a|e|] w']; cbn [snd] in *; [|exact Hm|exact Hm].
  rewrite (Hk a w'). exact Hm.
Qed.

Lemma keeps_try_except {A} (m : M A) (h : exn -> M A) :
  keeps_files m -> (forall e, keeps_files (h e)) -> keeps_files (try_except m h).
Proof.
  intros Hm Hh w. unfold try_except. specialize (Hm w).
  destruct (m w) as [[a|e|] w']; cbn [snd] in *; [exact Hm| |exact Hm].
  rewrite (Hh e w'). exact Hm.
Qed.

Lemma keeps_try_finally {A} (m : M A) (c : M unit) :
  keeps_files m -> keeps_files c -> keeps_files (try_finally m c).
Proof.
  intros Hm Hc w. unfold try_finally. specialize (Hm w).
  destruct (m w) as [[a|e|] w']; cbn [snd] in *; [| |exact Hm];
    specialize (Hc w'); destruct (c w') as [[[]|e'|] w'']; cbn [snd] in *; congruence.
Qed.

Lemma keeps_recv_rounds (sentinel : bytes) (n : N) (fuel : nat) :
  forall acc, keeps_files (recv_rounds sentinel n acc fuel).
Proof.
  induction fuel as [|fuel IH]; intros acc; cbn [recv_rounds].
  - intros w. reflexivity.
  - apply keeps_bind; [apply keeps_recv|]. intros d.
    destruct (contains sentinel d); [apply keeps_ret|apply IH].
Qed.

Lemma keeps_recv_until (sentinel : bytes) (n : N) : keeps_files (recv_until sentinel n).
Proof. intros w. unfold recv_until, while_true. apply keeps_recv_rounds. Qed.

Lemma keeps_send_chunks (chunks : list bytes) : keeps_files (ThreadPool.send_chunks chunks).
Proof.
  induction chunks as [|c chunks IH]; cbn [ThreadPool.send_chunks].
  - apply keeps_ret.
  - apply keeps_bind; [apply keeps_sendall|intros _; exact IH].
Qed.

Ltac keeping :=
  repeat first
    [ apply keeps_bind; [|intros ?]
    | apply keeps_try_except; [|intros ?]
    | apply keeps_try_finally
    | apply keeps_ret | apply keeps_raise | apply keeps_recv | apply keeps_send
    | apply keeps_sendall | apply keeps_decode | apply keeps_b64decode_or_raise
    | apply keeps_os_path_exists | apply keeps_open_rb | apply keeps_os_listdir
    | apply keeps_incr_successful_ops | apply keeps_incr_failed_ops
    | apply keeps_close | apply keeps_recv_until | apply keeps_send_chunks
    | match goal with
      | |- keeps_files (if ?b then _ else _) => destruct b
      | |- keeps_files (match ?x with _ => _ end) => destruct x
      end ].

Lemma keeps_execute_command (command : bytes) (parameters : ProcessPool.parameters_t) :
  command <> bs "STORE_FILE" ->
  keeps_files (ProcessPool.execute_command command parameters).
Proof.
  intros Hc. unfold ProcessPool.execute_command.
  rewrite (bool_decide_eq_false_2 (command = bs "STORE_FILE")) by exact Hc.
  keeping.
Qed.

Lemma keeps_dispatch (v : variant) (action : bytes) (parts : list bytes) :
  (action = upload_word v -> length parts < 2)%nat ->
  keeps_files (dispatch v action parts).
Proof.
  intros Hup. destruct v; cbn [dispatch upload_word] in *.
  - unfold ThreadPool.dispatch.
    destruct (bool_decide (action = bs "DIRECTORY")); [keeping|].
    destruct (bool_decide (action = bs "STORE")) eqn:Hs.
    + apply bool_decide_eq_true_1 in Hs. specialize (Hup Hs).
      destruct parts as [|c [|name more]]; [keeping|keeping|cbn in Hup; lia].
    + keeping.
  - unfold ProcessPool.dispatch.
    destruct (bool_decide (action = bs "LIST"));
      [apply keeps_bind; [apply keeps_execute_command; discriminate|intros ?; keeping]|].
    destruct (bool_decide (action = bs "UPLOAD")) eqn:Hs.
    + apply bool_decide_eq_true_1 in Hs. specialize (Hup Hs).
      destruct parts as [|c [|name more]]; [keeping|keeping|cbn in Hup; lia].
    + destruct (bool_decide (action = bs "DOWNLOAD")); [|keeping].
      destruct parts as [|c [|name more]]; [keeping|keeping|].
      apply keeps_bind; [apply keeps_execute_command; discriminate|intros ?; keeping].
Qed.

Lemma keeps_report_failure (e : exn) : keeps_files (report_failure e).
Proof. unfold report_failure. keeping. Qed.

(** X3. Only an upload request that names a file changes the storage.
    When what arrives first on a connection is ASCII text other than such
    a request -- a listing or download request, an unknown or incomplete
    command, a blank or empty line -- or is no data at all -- a socket
    error, a timeout, a closed peer -- then, whatever fails while it is
    served, the handler leaves every stored file as it was. *)
Theorem X3_only_uploads_change_files (v : variant) (w : world) :
  (forall raw rest,
     incoming w = Data raw :: rest ->
     forallb is_ascii raw = true /\
     forall command name more,
       split (strip raw) = command :: name :: more ->
       upper command <> upload_word v) ->
  files (snd (handler v w)) = files w.
Proof.
  intros Hfirst.
  assert (Hnot : forall raw rest command name more,
            incoming w = Data raw :: rest ->
            split (strip raw) = command :: name :: more ->
            upper command <> upload_word v).
  { intros raw rest command name more Hin Hsplit.
    exact (proj2 (Hfirst raw rest Hin) command name more Hsplit). }
  clear Hfirst.
  assert (Hreq : files (snd (handle_request v w)) = files w).
  { assert (Hparts : forall raw rest command args,
              incoming w = Data raw :: rest -> split (strip raw) = command :: args ->
              keeps_files (dispatch v (upper command) (command :: args))).
    { intros raw rest command args Hin Hsplit. apply keeps_dispatch. intros Hup.
      destruct args as [|name more]; [cbn; lia|].
      now destruct (Hnot raw rest command name more Hin Hsplit). }
    clear Hnot.
    destruct v; cbn [handle_request dispatch] in *.
    - unfold ThreadPool.handle_request, bind at 1, recv.
      destruct (incoming w) as [|[raw|e] rest] eqn:Hin;
        [destruct (at_end w)| |]; try reflexivity.
      unfold bind at 1, decode.
        destruct (forallb is_ascii raw); [|reflexivity].
        unfold ret. destruct raw as [|c raw]; [reflexivity|].
        destruct (split (strip (c :: raw))) as [|command args] eqn:Hsplit.
        * change (files w) with (files (set_incoming rest w)).
          apply (keeps_bind (send _) (fun _ => incr_failed_ops));
            [apply keeps_send|intros _; apply keeps_incr_failed_ops].
        * change (files w) with (files (set_incoming rest w)).
          apply (Hparts (c :: raw) rest command args eq_refl Hsplit).
    - unfold ProcessPool.handle_request, bind at 1, recv.
      destruct (incoming w) as [|[raw|e] rest] eqn:Hin;
        [destruct (at_end w)| |]; try reflexivity.
      unfold bind at 1, decode.
        destruct (forallb is_ascii raw); [|reflexivity].
        unfold ret. destruct (strip raw) as [|c request] eqn:Hstrip; [reflexivity|].
        destruct (split (c :: request)) as [|command args] eqn:Hsplit.
        * change (files w) with (files (set_incoming rest w)).
          apply (keeps_bind (send _) (fun _ => incr_failed_ops));
            [apply keeps_send|intros _; apply keeps_incr_failed_ops].
        * rewrite <- Hstrip in Hsplit.
          change (files w) with (files (set_incoming rest w)).
          apply (Hparts raw rest command args eq_refl Hsplit). }
  rewrite handler_unfold. unfold try_finally, try_except.
  destruct (handle_request v w) as [[[]|e|] w'] eqn:Hrun; cbn [snd] in Hreq.
  - exact Hreq.
  - pose proof (keeps_report_failure e w') as Hrep.
    destruct (report_failure e w') as [[[]|e'|] w'']; cbn [snd] in Hrep |- *;
      unfold close; state_fields; congruence.
  - exact Hreq.
Qed.

Lemma X3_witness :
  let w := connection [bs "LIST"] PeerSilent {[ bs "server_storage/a.txt" := bs "ABC" ]} in
  files (snd (handler process_pool w)) = files w.
Proof.
  intros w. apply (X3_only_uploads_change_files process_pool w).
  intros raw rest [= <- <-]. split; [reflexivity|].
  intros command name more Hsplit. discriminate Hsplit.
Defined.

(** ** Uploads whose payload cannot be decoded *)

Lemma digits_of_uint (d : Decimal.uint) :
  forallb is_digit (bs (NilEmpty.string_of_uint d)) = true.
Proof. induction d; cbn; auto. Qed.

Lemma digits_of_number (n : N) :
  forallb is_digit (bs (NilZero.string_of_uint (N.to_uint n))) = true.
Proof.
  unfold NilZero.string_of_uint.
  destruct (N.to_uint n) eqn:E; try reflexivity;
    rewrite <- E; apply digits_of_uint.
Qed.

Lemma without_digits_app (a c : bytes) :
  without_digits (a ++ c) = without_digits a ++ without_digits c.
Proof. apply List.filter_app. Qed.

Lemma lower_digit (c : byte) : is_digit c = true -> is_digit (lower_byte c) = true.
Proof.
  intros Hc.
  pose proof (forall_bytes (fun c => implb (is_digit c) (is_digit (lower_byte c)))) as H.
  specialize (H eq_refl c). cbv beta in H. now rewrite Hc in H.
Qed.

Lemma without_digits_digits (d : bytes) :
  forallb is_digit d = true -> without_digits (lower d) = [].
Proof.
  induction d as [|c d IH]; [reflexivity|]. cbn [forallb]. intros H.
  apply andb_prop in H as [Hc Hd]. cbn [lower map without_digits List.filter].
  rewrite (lower_digit c Hc). cbn [negb]. apply (IH Hd).
Qed.

Lemma without_digits_none (s : bytes) :
  forallb (fun c => negb (is_digit c)) s = true -> without_digits s = s.
Proof.
  induction s as [|c s IH]; [reflexivity|]. cbn [forallb]. intros H.
  apply andb_prop in H as [Hc Hs]. cbn [without_digits List.filter].
  rewrite Hc. f_equal. apply (IH Hs).
Qed.

Lemma contains_without_digits (sub t : bytes) :
  forallb (fun c => negb (is_digit c)) sub = true ->
  contains sub t = true -> contains sub (without_digits t) = true.
Proof.
  intros Hsub Hc. apply contains_split in Hc as (u & v & ->).
  rewrite !without_digits_app, (without_digits_none sub Hsub). apply contains_app.
Qed.

(** No error text of the decoder reads as a success. *)
Lemma decoding_error_is_no_success (s : bytes) :
  contains (bs "success") (lower (bs "Operation failed: " ++ binascii_error_text s)) = false.
Proof.
  destruct (contains _ _) eqn:Hc; [|reflexivity].
  apply contains_without_digits in Hc; [|reflexivity].
  unfold binascii_error_text in Hc.
  destruct (count_data_chars s mod 4 =? 1).
  - unfold lower in Hc. rewrite !map_app in Hc. fold (lower (bs "Operation failed: ")) in Hc.
    rewrite !without_digits_app in Hc.
    change (map lower_byte (bs (NilZero.string_of_uint (N.to_uint (count_data_chars s)))))
      with (lower (bs (NilZero.string_of_uint (N.to_uint (count_data_chars s))))) in Hc.
    rewrite (without_digits_digits _ (digits_of_number _)) in Hc.
    vm_compute in Hc. discriminate Hc.
  - vm_compute in Hc. discriminate Hc.
Qed.

Lemma b64decode_or_raise_error (s : bytes) (w : world) :
  b64decode s = None ->
  b64decode_or_raise s w = (Raise (binascii_Error (binascii_error_text s)), w).
Proof. intros H. unfold b64decode_or_raise. now rewrite H. Qed.

Lemma ThreadPool_store_undecodable (w : world) (command name : bytes) (more : list bytes)
  (pre : list bytes) (last p : bytes) (later : list recv_event) :
  writable w = None ->
  incoming w = map Data (pre ++ [last]) ++ later ->
  Forall (fun c => c <> UNDERSCORE) p ->
  concat pre ++ last = p ++ bs "__COMPLETE__" ->
  contains (bs "__COMPLETE__") last = true ->
  b64decode p = None ->
  ThreadPool.dispatch (bs "STORE") (command :: name :: more) w =
    (Ok tt,
     set_counters (successful_ops w) (failed_ops w + 1)
       (set_socket None
          (sent w ++ [bs "READY_FOR_DATA"; bs "Storage error: " ++ binascii_error_text p])
          (set_incoming later w))).
Proof.
  intros Hw Hin Hp Hcat Hlast Hdec.
  unfold ThreadPool.dispatch. literal_tests.
  unfold bind at 1. unfold send at 1. rewrite Hw.
  unfold bind at 1.
  change (bs "__COMPLETE__") with (UNDERSCORE :: bs "_COMPLETE__") in *.
  rewrite (recv_until_stream UNDERSCORE _ _ pre last p later _ Hp Hcat Hlast)
    by exact Hin.
  unfold try_except, bind at 1. rewrite (b64decode_or_raise_error p) by exact Hdec.
  unfold bind, send, incr_failed_ops.
  destruct w as [inc e wr se cl fs op ld cf uu so fo]; state_fields; subst.
  now rewrite <- app_assoc.
Qed.

Lemma ProcessPool_upload_undecodable (w : world) (command name : bytes) (more : list bytes)
  (pre : list bytes) (last p : bytes) (later : list recv_event) :
  writable w = None ->
  incoming w = map Data (pre ++ [last]) ++ later ->
  Forall (fun c => c <> UNDERSCORE) p ->
  concat pre ++ last = p ++ bs "__EOF__" ->
  contains (bs "__EOF__") last = true ->
  b64decode p = None ->
  open_fault w (staging_path name w) = None ->
  ProcessPool.dispatch (bs "UPLOAD") (command :: name :: more) w =
    (Ok tt,
     set_counters (successful_ops w) (failed_ops w + 1)
       (set_socket None
          (sent w ++ [bs "PROCEED"; bs "Operation failed: " ++ binascii_error_text p])
          (set_files (<[staging_path name w := p]> (files w))
             (set_incoming later w)))).
Proof.
  intros Hw Hin Hp Hcat Hlast Hdec Hot.
  unfold staging_path in *.
  set (temp_path := path_join ProcessPool.STORAGE_DIR (name ++ bs "_" ++ uuid4 w ++ bs ".tmp")) in *.
  unfold ProcessPool.dispatch. literal_tests.
  unfold bind at 1. unfold send at 1. rewrite Hw.
  unfold bind at 1. cbn [uuid4 set_socket]. fold temp_path.
  unfold bind at 1. unfold open_wb at 1. cbn [open_fault set_socket]. rewrite Hot.
  unfold bind at 1.
  rewrite (stage_rounds_stream temp_path pre last p later _ Hp Hcat Hlast) by exact Hin.
  state_fields. rewrite lookup_insert_eq. cbn [default app]. rewrite insert_insert_eq.
  unfold bind at 1.
  unfold ProcessPool.execute_command. literal_tests.
  unfold try_except, bind at 1.
  rewrite (os_path_exists_present temp_path p) by (state_fields; apply lookup_insert_eq).
  cbn [negb]. unfold bind at 1.
  rewrite (open_rb_present temp_path p)
    by (state_fields; first [apply lookup_insert_eq|exact Hot]).
  unfold bind at 1. rewrite (b64decode_or_raise_error p) by exact Hdec.
  unfold ret at 1.
  unfold bind at 1, sendall, send. state_fields.
  cbn [str_exn]. unfold id. cbn [app].
  rewrite decoding_error_is_no_success.
  unfold incr_failed_ops.
  clearbody temp_path.
  destruct w as [inc e wr se cl fs op ld cf uu so fo]; state_fields; subst.
  now rewrite <- app_assoc.
Qed.

(** X4. Thread-pool server: an upload whose payload is not decodable (it
    ends inside a group of four characters) is answered with
    [Storage error: ] and the decoder's message, counted as a failure, and
    stores nothing. *)
Theorem X4_undecodable_store_is_rejected (w : world) (raw command name : bytes)
  (more pre : list bytes) (last p : bytes) (later : list recv_event) :
  incoming w = Data raw :: map Data (pre ++ [last]) ++ later ->
  forallb is_ascii raw = true ->
  split (strip raw) = command :: name :: more ->
  upper command = bs "STORE" ->
  writable w = None ->
  Forall (fun c => c <> UNDERSCORE) p ->
  concat pre ++ last = p ++ bs "__COMPLETE__" ->
  contains (bs "__COMPLETE__") last = true ->
  b64decode p = None ->
  let r := ThreadPool.process_client_request w in
  fst r = Ok tt /\
  sent (snd r) = sent w ++ [bs "READY_FOR_DATA";
                            bs "Storage error: " ++ binascii_error_text p] /\
  files (snd r) = files w /\
  successful_ops (snd r) = successful_ops w /\
  failed_ops (snd r) = failed_ops w + 1.
Proof.
  intros Hin Hascii Hsplit Hcmd Hw Hp Hcat Hlast Hdec. cbv zeta.
  pose proof (ThreadPool_handle_request_dispatch w raw _ command (name :: more)
                Hin Hascii Hsplit) as Hd.
  rewrite Hcmd in Hd.
  rewrite (ThreadPool_store_undecodable _ command name more pre last p later) in Hd;
    [|exact Hw|reflexivity|exact Hp|exact Hcat|exact Hlast|exact Hdec].
  rewrite (ThreadPool_process_ok w _ Hd). state_fields. auto.
Qed.

Lemma X4_witness :
  sent (snd (ThreadPool.process_client_request
               (connection [bs "STORE a.txt"; bs "QUJDR__COMPLETE__"] PeerSilent ∅)))
  = [bs "READY_FOR_DATA";
     bs "Storage error: Invalid base64-encoded string: number of data characters (5) cannot be 1 more than a multiple of 4"].
Proof.
  refine (proj1 (proj2 (X4_undecodable_store_is_rejected
            (connection [bs "STORE a.txt"; bs "QUJDR__COMPLETE__"] PeerSilent ∅)
            (bs "STORE a.txt") (bs "STORE") (bs "a.txt") [] []
            (bs "QUJDR__COMPLETE__") (bs "QUJDR") []
            eq_refl eq_refl eq_refl eq_refl eq_refl _ eq_refl eq_refl eq_refl))).
  repeat constructor; discriminate.
Defined.

(** X5. Process-pool server: an upload whose payload is not decodable is
    answered with [Operation failed: ] and the decoder's message and
    counted as a failure; the destination is not written, but the staging
    file with the received payload stays in the storage directory. *)
Theorem X5_undecodable_upload_leaves_staging_file (w : world) (raw command name : bytes)
  (more pre : list bytes) (last p : bytes) (later : list recv_event) :
  incoming w = Data raw :: map Data (pre ++ [last]) ++ later ->
  forallb is_ascii raw = true ->
  split (strip raw) = command :: name :: more ->
  upper command = bs "UPLOAD" ->
  writable w = None ->
  open_fault w (staging_path name w) = None ->
  Forall (fun c => c <> UNDERSCORE) p ->
  concat pre ++ last = p ++ bs "__EOF__" ->
  contains (bs "__EOF__") last = true ->
  b64decode p = None ->
  let r := ProcessPool.manage_connection w in
  fst r = Ok tt /\
  sent (snd r) = sent w ++ [bs "PROCEED";
                            bs "Operation failed: " ++ binascii_error_text p] /\
  files (snd r) = <[staging_path name w := p]> (files w) /\
  successful_ops (snd r) = successful_ops w /\
  failed_ops (snd r) = failed_ops w + 1.
Proof.
  intros Hin Hascii Hsplit Hcmd Hw Hot Hp Hcat Hlast Hdec. cbv zeta.
  pose proof (ProcessPool_handle_request_dispatch w raw _ command (name :: more)
                Hin Hascii Hsplit) as Hd.
  rewrite Hcmd in Hd.
  rewrite (ProcessPool_upload_undecodable _ command name more pre last p later) in Hd;
    [|exact Hw|reflexivity|exact Hp|exact Hcat|exact Hlast|exact Hdec|exact Hot].
  rewrite (ProcessPool_manage_ok w _ Hd). state_fields. auto.
Qed.

Lemma X5_witness :
  let r := ProcessPool.manage_connection
             (connection [bs "UPLOAD a.txt"; bs "QUJDRA__EOF__"] PeerSilent ∅) in
  sent (snd r) = [bs "PROCEED"; bs "Operation failed: Incorrect padding"] /\
  files (snd r)
  = {[ bs "server_storage/a.txt_0f8fad5b-d9cb-469f-a165-70867728950e.tmp" := bs "QUJDRA" ]}.
Proof.
  pose proof (X5_undecodable_upload_leaves_staging_file
                (connection [bs "UPLOAD a.txt"; bs "QUJDRA__EOF__"] PeerSilent ∅)
                (bs "UPLOAD a.txt") (bs "UPLOAD") (bs "a.txt") [] []
                (bs "QUJDRA__EOF__") (bs "QUJDRA") []
                eq_refl eq_refl eq_refl eq_refl eq_refl eq_refl) as H.
  destruct H as (_ & Hs & Hf & _); [repeat constructor; discriminate|reflexivity..|].
  split; [exact Hs|exact Hf].
Defined.

(** ** Failures inside a listing or a download *)

(** X6. When the storage directory cannot be listed, the thread-pool
    server answers [Error: ] with the error text and counts a failure; the
    process-pool server answers [Operation failed: ] with the error text and
    counts a success. *)
Theorem X6_failed_listing (v : variant) (w : world) (raw : bytes)
  (rest : list recv_event) (command : bytes) (args : list bytes) (e : exn) :
  incoming w = Data raw :: rest ->
  forallb is_ascii raw = true ->
  split (strip raw) = command :: args ->
  upper command = list_word v ->
  listdir_fault w = Some e ->
  writable w = None ->
  let r := handler v w in
  fst r = Ok tt /\ files (snd r) = files w /\
  match v with
  | thread_pool =>
      sent (snd r) = sent w ++ [bs "Error: " ++ str_exn e] /\
      successful_ops (snd r) = successful_ops w /\
      failed_ops (snd r) = failed_ops w + 1
  | process_pool =>
      sent (snd r) = sent w ++ [bs "Operation failed: " ++ str_exn e] /\
      successful_ops (snd r) = successful_ops w + 1 /\
      failed_ops (snd r) = failed_ops w
  end.
Proof.
  intros Hin Hascii Hsplit Hcmd Hl Hw. cbv zeta.
  pose proof (handle_request_dispatch v w raw rest command args Hin Hascii Hsplit) as Hd.
  rewrite Hcmd in Hd. destruct v; cbn [dispatch list_word] in Hd.
  - assert (Hrun : ThreadPool.dispatch (bs "DIRECTORY") (command :: args) (set_incoming rest w)
                   = (Raise e, set_incoming rest w)).
    { unfold ThreadPool.dispatch. literal_tests.
      unfold bind, os_listdir. state_fields. now rewrite Hl. }
    rewrite Hrun in Hd. rewrite (handler_raise thread_pool w _ e Hd).
    destruct (report_failure_run e (set_incoming rest w))
      as (w' & -> & Hf & Hs & Hfo & _ & _ & Hsent).
    state_fields. rewrite Hw in Hsent.
    rewrite bool_decide_eq_false_2 in Hsent by discriminate. auto.
  - assert (Hrun : ProcessPool.dispatch (bs "LIST") (command :: args) (set_incoming rest w)
                   = (Ok tt, set_counters (successful_ops w + 1) (failed_ops w)
                               (set_socket None
                                  (sent w ++ [bs "Operation failed: " ++ str_exn e])
                                  (set_incoming rest w)))).
    { unfold ProcessPool.dispatch. literal_tests.
      unfold ProcessPool.execute_command. literal_tests.
      unfold try_except, bind, os_listdir, sendall, send, ret, incr_successful_ops.
      clear Hd Hin. destruct w as [inc ae wr se cl fs op ld cf uu so fo].
      state_fields. subst. reflexivity. }
    rewrite Hrun in Hd. rewrite (handler_ok process_pool w _ Hd). state_fields. auto.
Qed.

Lemma X6_witness :
  let w := World [Data (bs "LIST")] PeerSilent None [] false ∅ (fun _ => None)
             (Some (OSError (bs "[Errno 13] Permission denied: 'server_storage'")))
             None [] 0 0 in
  let r := handler process_pool w in
  sent (snd r) = [bs "Operation failed: [Errno 13] Permission denied: 'server_storage'"] /\
  successful_ops (snd r) = 1 /\ failed_ops (snd r) = 0.
Proof.
  intros w.
  exact (proj2 (proj2 (X6_failed_listing process_pool w (bs "LIST") [] (bs "LIST") []
           (OSError (bs "[Errno 13] Permission denied: 'server_storage'"))
           eq_refl eq_refl eq_refl eq_refl eq_refl eq_refl))).
Defined.

(** X7. Process-pool server: a download of a stored file is always sent in
    full -- the encoding of the whole file and the sentinel -- but it is
    counted by the text of the reply: when the lower-cased reply holds the
    word [unavailable], the download is counted as a failure. *)
Theorem X7_download_counted_by_reply_text (w : world) (raw : bytes)
  (rest : list recv_event) (command name : bytes) (more : list bytes) (content : bytes) :
  incoming w = Data raw :: rest ->
  forallb is_ascii raw = true ->
  split (strip raw) = command :: name :: more ->
  upper command = bs "DOWNLOAD" ->
  writable w = None ->
  open_fault w (path_join ProcessPool.STORAGE_DIR name) = None ->
  files w !! path_join ProcessPool.STORAGE_DIR name = Some content ->
  let r := ProcessPool.manage_connection w in
  let response := b64encode content ++ bs "__EOF__" in
  fst r = Ok tt /\ sent (snd r) = sent w ++ [response] /\
  if contains (bs "unavailable") (lower response)
  then successful_ops (snd r) = successful_ops w /\ failed_ops (snd r) = failed_ops w + 1
  else successful_ops (snd r) = successful_ops w + 1 /\ failed_ops (snd r) = failed_ops w.
Proof.
  intros Hin Hascii Hsplit Hcmd Hw Hop Hfile. cbv zeta.
  pose proof (ProcessPool_handle_request_dispatch w raw rest command (name :: more)
                Hin Hascii Hsplit) as Hd.
  rewrite Hcmd in Hd.
  rewrite (ProcessPool_download_present _ command name content more) in Hd;
    [|exact Hfile|exact Hop|state_fields; rewrite Hw; discriminate].
  rewrite (ProcessPool_manage_ok w _ Hd). state_fields.
  destruct (contains (bs "unavailable") (lower (b64encode content ++ bs "__EOF__")));
    state_fields; auto.
Qed.

Lemma X7_witness :
  let content := [xba; x76; xaf; x6a; x29; x5a; x6e; x57; x80] in
  let r := ProcessPool.manage_connection
             (connection [bs "DOWNLOAD a.bin"] PeerSilent
                {[ bs "server_storage/a.bin" := content ]}) in
  sent (snd r) = [bs "unavailableA__EOF__"] /\
  successful_ops (snd r) = 0 /\ failed_ops (snd r) = 1.
Proof.
  intros content.
  exact (proj2 (X7_download_counted_by_reply_text
           (connection [bs "DOWNLOAD a.bin"] PeerSilent
              {[ bs "server_storage/a.bin" := content ]})
           (bs "DOWNLOAD a.bin") [] (bs "DOWNLOAD") (bs "a.bin") [] content
           eq_refl eq_refl eq_refl eq_refl eq_refl eq_refl eq_refl)).
Defined.

(** X8. A download of a stored file that cannot be opened: the thread-pool
    server answers [Retrieval error: ] with the error text and counts a
    failure; the process-pool server answers [Operation failed: ] with the
    error text and counts a success, unless that text holds the word
    [unavailable]. *)
Theorem X8_unreadable_download (v : variant) (w : world) (raw : bytes)
  (rest : list recv_event) (command name : bytes) (more : list bytes)
  (content : bytes) (e : exn) :
  incoming w = Data raw :: rest ->
  forallb is_ascii raw = true ->
  split (strip raw) = command :: name :: more ->
  upper command = download_word v ->
  writable w = None ->
  files w !! path_join (storage_root v) name = Some content ->
  open_fault w (path_join (storage_root v) name) = Some e ->
  let r := handler v w in
  fst r = Ok tt /\
  match v with
  | thread_pool =>
      sent (snd r) = sent w ++ [bs "Retrieval error: " ++ str_exn e] /\
      successful_ops (snd r) = successful_ops w /\
      failed_ops (snd r) = failed_ops w + 1
  | process_pool =>
      sent (snd r) = sent w ++ [bs "Operation failed: " ++ str_exn e] /\
      if contains (bs "unavailable") (lower (bs "Operation failed: " ++ str_exn e))
      then successful_ops (snd r) = successful_ops w /\
           failed_ops (snd r) = failed_ops w + 1
      else successful_ops (snd r) = successful_ops w + 1 /\
           failed_ops (snd r) = failed_ops w
  end.
Proof.
  intros Hin Hascii Hsplit Hcmd Hw Hfile Hop. cbv zeta.
  pose proof (handle_request_dispatch v w raw rest command (name :: more)
                Hin Hascii Hsplit) as Hd.
  rewrite Hcmd in Hd. destruct v; cbn [dispatch download_word storage_root] in *.
  - assert (Hrun : ThreadPool.dispatch (bs "FETCH") (command :: name :: more)
                     (set_incoming rest w)
                   = (Ok tt, set_counters (successful_ops w) (failed_ops w + 1)
                               (set_socket None
                                  (sent w ++ [bs "Retrieval error: " ++ str_exn e])
                                  (set_incoming rest w)))).
    { unfold ThreadPool.dispatch. literal_tests.
      unfold bind at 1. rewrite (os_path_exists_present _ content) by exact Hfile.
      cbn [negb]. unfold try_except, bind at 1, open_rb. state_fields. rewrite Hop.
      unfold bind, send, incr_failed_ops. state_fields. rewrite Hw. reflexivity. }
    rewrite Hrun in Hd. rewrite (handler_ok thread_pool w _ Hd). state_fields. auto.
  - set (response := bs "Operation failed: " ++ str_exn e).
    assert (Hrun : ProcessPool.dispatch (bs "DOWNLOAD") (command :: name :: more)
                     (set_incoming rest w)
                   = (Ok tt,
                      (if contains (bs "unavailable") (lower response)
                       then set_counters (successful_ops w) (failed_ops w + 1)
                       else set_counters (successful_ops w + 1) (failed_ops w))
                        (set_socket None (sent w ++ [response]) (set_incoming rest w)))).
    { unfold ProcessPool.dispatch. literal_tests.
      unfold ProcessPool.execute_command. literal_tests.
      unfold bind at 1, try_except, bind at 1.
      rewrite (os_path_exists_present _ content) by exact Hfile.
      cbn [negb]. unfold bind at 1, open_rb. state_fields. rewrite Hop.
      unfold ret. fold response.
      destruct (contains (bs "unavailable") (lower response));
        unfold bind, sendall, send, incr_failed_ops, incr_successful_ops;
        state_fields; rewrite Hw; reflexivity. }
    rewrite Hrun in Hd. rewrite (handler_ok process_pool w _ Hd).
    destruct (contains (bs "unavailable") (lower response)); state_fields; auto.
Qed.

Lemma X8_witness :
  let w := World [Data (bs "DOWNLOAD a.txt")] PeerSilent None [] false
             {[ bs "server_storage/a.txt" := bs "ABC" ]}
             (fun _ => Some (OSError (bs "[Errno 13] Permission denied: 'server_storage/a.txt'")))
             None None [] 0 0 in
  let r := handler process_pool w in
  sent (snd r)
  = [bs "Operation failed: [Errno 13] Permission denied: 'server_storage/a.txt'"] /\
  successful_ops (snd r) = 1 /\ failed_ops (snd r) = 0.
Proof.
  intros w.
  exact (proj2 (X8_unreadable_download process_pool w (bs "DOWNLOAD a.txt") []
           (bs "DOWNLOAD") (bs "a.txt") [] (bs "ABC")
           (OSError (bs "[Errno 13] Permission denied: 'server_storage/a.txt'"))
           eq_refl eq_refl eq_refl eq_refl eq_refl eq_refl eq_refl)).
Defined.

(** ** What a successful upload leaves behind *)

Lemma handler_upload_files (v : variant) (w : world) (raw command name : bytes)
  (more pre : list bytes) (last p data : bytes) (later : list recv_event) :
  incoming w = Data raw :: map Data (pre ++ [last]) ++ later ->
  forallb is_ascii raw = true ->
  split (strip raw) = command :: name :: more ->
  upper command = upload_word v ->
  writable w = None ->
  (forall path, open_fault w path = None) ->
  Forall (fun c => c <> UNDERSCORE) p ->
  concat pre ++ last = p ++ sentinel v ->
  contains (sentinel v) last = true ->
  b64decode p = Some data ->
  (v = process_pool -> files w !! staging_path name w = None) ->
  exists w', handler v w = (Ok tt, w') /\
    files w' = <[path_join (storage_root v) name := data]> (files w) /\
    sent w' = sent w ++ [go_ahead v; bs "File stored successfully"] /\
    successful_ops w' = successful_ops w + 1 /\ failed_ops w' = failed_ops w.
Proof.
  intros Hin Hascii Hsplit Hcmd Hw Hop Hp Hcat Hlast Hdec Hfresh.
  pose proof (handle_request_dispatch v w raw _ command (name :: more)
                Hin Hascii Hsplit) as Hd.
  rewrite Hcmd in Hd.
  destruct v; cbn [dispatch upload_word storage_root sentinel go_ahead] in *.
  - rewrite (ThreadPool_store_run _ command name more pre last p data later) in Hd;
      [|exact Hw|reflexivity|exact Hp|exact Hcat|exact Hlast|exact Hdec|apply Hop].
    rewrite (handler_ok thread_pool w _ Hd). eexists. split; [reflexivity|].
    state_fields. auto.
  - rewrite (ProcessPool_upload_run _ command name more pre last p data later) in Hd;
      [|exact Hw|reflexivity|exact Hp|exact Hcat|exact Hlast|exact Hdec
       |apply Hop|apply Hop|apply staging_path_fresh].
    rewrite (handler_ok process_pool w _ Hd). eexists. split; [reflexivity|].
    state_fields. split; [|auto].
    fold (staging_path name w).
    rewrite delete_insert_ne by apply staging_path_fresh.
    rewrite delete_insert_id by (apply Hfresh; reflexivity). reflexivity.
Qed.

(** X9. A successful upload changes the storage in exactly one place: the
    file of that name now holds the decoded payload, replacing what was
    there, and every other file is as before; in the process-pool variant no
    staging file remains.  The reply is [File stored successfully] and one
    success is counted. *)
Theorem X9_upload_writes_exactly_one_file (v : variant) (w : world)
  (raw command name : bytes) (more pre : list bytes) (last p data : bytes)
  (later : list recv_event) :
  incoming w = Data raw :: map Data (pre ++ [last]) ++ later ->
  forallb is_ascii raw = true ->
  split (strip raw) = command :: name :: more ->
  upper command = upload_word v ->
  writable w = None ->
  (forall path, open_fault w path = None) ->
  Forall (fun c => c <> UNDERSCORE) p ->
  concat pre ++ last = p ++ sentinel v ->
  contains (sentinel v) last = true ->
  b64decode p = Some data ->
  (v = process_pool -> files w !! staging_path name w = None) ->
  let r := handler v w in
  fst r = Ok tt /\
  files (snd r) = <[path_join (storage_root v) name := data]> (files w) /\
  sent (snd r) = sent w ++ [go_ahead v; bs "File stored successfully"] /\
  successful_ops (snd r) = successful_ops w + 1 /\
  failed_ops (snd r) = failed_ops w.
Proof.
  intros Hin Hascii Hsplit Hcmd Hw Hop Hp Hcat Hlast Hdec Hfresh. cbv zeta.
  destruct (handler_upload_files v w raw command name more pre last p data later)
    as (w' & -> & H); auto.
Qed.

Lemma X9_witness :
  files (snd (handler process_pool
                (connection [bs "UPLOAD a.txt"; bs "QUJD__EOF__"] PeerSilent
                   (<[ bs "server_storage/a.txt" := bs "old" ]>
                      {[ bs "server_storage/b.txt" := bs "other" ]}))))
  = <[ bs "server_storage/a.txt" := bs "ABC" ]>
      (<[ bs "server_storage/a.txt" := bs "old" ]>
         {[ bs "server_storage/b.txt" := bs "other" ]}).
Proof.
  refine (proj1 (proj2 (X9_upload_writes_exactly_one_file process_pool
            (connection [bs "UPLOAD a.txt"; bs "QUJD__EOF__"] PeerSilent
               (<[ bs "server_storage/a.txt" := bs "old" ]>
                  {[ bs "server_storage/b.txt" := bs "other" ]}))
            (bs "UPLOAD a.txt") (bs "UPLOAD") (bs "a.txt") [] []
            (bs "QUJD__EOF__") (bs "QUJD") (bs "ABC") []
            eq_refl eq_refl eq_refl eq_refl eq_refl (fun _ => eq_refl) _
            eq_refl eq_refl eq_refl _))).
  - repeat constructor; discriminate.
  - intros _. vm_compute. reflexivity.
Defined.

Lemma path_join_absolute (directory name : bytes) :
  starts_with (bs "/") name = true -> path_join directory name = name.
Proof. intros H. unfold path_join. now rewrite H. Qed.

(** X10. File names are not confined to the storage directory: a name
    that starts with a slash is used as the path itself.  An upload under
    such a name writes that path, and a download of it sends whatever file
    is at that path. *)
Theorem X10_absolute_names_leave_the_storage_directory (v : variant) (name : bytes)
  (wu : world) (raw command : bytes) (more pre : list bytes) (last p data : bytes)
  (later : list recv_event)
  (wd : world) (raw' command' : bytes) (more' : list bytes) (rest' : list recv_event)
  (content : bytes) :
  starts_with (bs "/") name = true ->
  (* the upload *)
  incoming wu = Data raw :: map Data (pre ++ [last]) ++ later ->
  forallb is_ascii raw = true ->
  split (strip raw) = command :: name :: more ->
  upper command = upload_word v ->
  writable wu = None ->
  (forall path, open_fault wu path = None) ->
  Forall (fun c => c <> UNDERSCORE) p ->
  concat pre ++ last = p ++ sentinel v ->
  contains (sentinel v) last = true ->
  b64decode p = Some data ->
  (v = process_pool -> files wu !! staging_path name wu = None) ->
  (* the download *)
  incoming wd = Data raw' :: rest' ->
  forallb is_ascii raw' = true ->
  split (strip raw') = command' :: name :: more' ->
  upper command' = download_word v ->
  writable wd = None ->
  (forall path, open_fault wd path = None) ->
  files wd !! name = Some content ->
  files (snd (handler v wu)) = <[name := data]> (files wu) /\
  sent (snd (handler v wd)) = sent wd ++ download_reply v content.
Proof.
  intros Habs Hin Hascii Hsplit Hcmd Hw Hop Hp Hcat Hlast Hdec Hfresh
    Hin' Hascii' Hsplit' Hcmd' Hw' Hop' Hfile.
  split.
  - destruct (handler_upload_files v wu raw command name more pre last p data later)
      as (w' & -> & Hf & _); auto.
    cbn [snd]. now rewrite (path_join_absolute _ name Habs) in Hf.
  - destruct (handler_download_present v wd raw' rest' command' name more' content)
      as (w' & -> & Hs & _); auto.
    now rewrite (path_join_absolute _ name Habs).
Qed.

Lemma X10_witness :
  files (snd (handler thread_pool
                (connection [bs "STORE /etc/motd"; bs "QUJD__COMPLETE__"] PeerSilent ∅)))
  = {[ bs "/etc/motd" := bs "ABC" ]} /\
  sent (snd (handler thread_pool
               (connection [bs "FETCH /etc/motd"] PeerSilent {[ bs "/etc/motd" := bs "ABC" ]})))
  = [bs "QUJD"; bs "__COMPLETE__"].
Proof.
  refine (X10_absolute_names_leave_the_storage_directory thread_pool (bs "/etc/motd")
            (connection [bs "STORE /etc/motd"; bs "QUJD__COMPLETE__"] PeerSilent ∅)
            (bs "STORE /etc/motd") (bs "STORE") [] [] (bs "QUJD__COMPLETE__")
            (bs "QUJD") (bs "ABC") []
            (connection [bs "FETCH /etc/motd"] PeerSilent {[ bs "/etc/motd" := bs "ABC" ]})
            (bs "FETCH /etc/motd") (bs "FETCH") [] [] (bs "ABC")
            eq_refl eq_refl eq_refl eq_refl eq_refl eq_refl (fun _ => eq_refl) _
            eq_refl eq_refl eq_refl _
            eq_refl eq_refl eq_refl eq_refl eq_refl (fun _ => eq_refl) _).
  - repeat constructor; discriminate.
  - discriminate.
  - vm_compute. reflexivity.
Defined.

(** ** How a request line is read *)

Lemma dispatch_reads_two_words (v : variant) (action c c' name : bytes)
  (more more' : list bytes) :
  dispatch v action (c :: name :: more) = dispatch v action (c' :: name :: more').
Proof. destruct v; reflexivity. Qed.

(** X11. Of a request line only the first two words count, the first
    without regard to case: white space around and between the words and
    every word after the file name are ignored, so a file name is cut at its
    first space.  Two requests that agree on these two words get the same
    run of the handler. *)
Theorem X11_only_the_first_two_words_count (v : variant) (w : world)
  (raw1 raw2 : bytes) (rest : list recv_event) (c1 c2 name : bytes)
  (more1 more2 : list bytes) :
  forallb is_ascii raw1 = true -> forallb is_ascii raw2 = true ->
  split (strip raw1) = c1 :: name :: more1 ->
  split (strip raw2) = c2 :: name :: more2 ->
  upper c1 = upper c2 ->
  handler v (set_incoming (Data raw1 :: rest) w)
  = handler v (set_incoming (Data raw2 :: rest) w).
Proof.
  intros Ha1 Ha2 Hs1 Hs2 Hup. apply handler_from_handle_request.
  rewrite (handle_request_dispatch v (set_incoming (Data raw1 :: rest) w) raw1 rest c1
             (name :: more1) eq_refl Ha1 Hs1).
  rewrite (handle_request_dispatch v (set_incoming (Data raw2 :: rest) w) raw2 rest c2
             (name :: more2) eq_refl Ha2 Hs2).
  rewrite !set_incoming_twice, Hup.
  now rewrite (dispatch_reads_two_words v (upper c2) c1 c2 name more1 more2).
Qed.

Lemma X11_witness :
  handler process_pool
    (set_incoming [Data (bs "UPLOAD my file.txt"); Data (bs "QUJD__EOF__")]
       (connection [] PeerSilent ∅))
  = handler process_pool
      (set_incoming [Data ([x20; x09] ++ bs "upload  my" ++ [x0a]); Data (bs "QUJD__EOF__")]
         (connection [] PeerSilent ∅)).
Proof.
  apply (X11_only_the_first_two_words_count process_pool (connection [] PeerSilent ∅)
           (bs "UPLOAD my file.txt") ([x20; x09] ++ bs "upload  my" ++ [x0a])
           [Data (bs "QUJD__EOF__")] (bs "UPLOAD") (bs "upload") (bs "my")
           [bs "file.txt"] []); reflexivity.
Defined.

(** ** Uploads that never see the sentinel *)

Lemma set_files_same (w : world) (fs : gmap bytes bytes) :
  fs = files w -> set_files fs w = w.
Proof. intros ->. now destruct w. Qed.

Lemma file_write_nothing (tp old : bytes) (w : world) :
  files w !! tp = Some old -> file_write tp [] w = (Ok tt, w).
Proof.
  intros H. unfold file_write. rewrite H. cbn [default]. rewrite app_nil_r.
  rewrite set_files_same; [reflexivity|]. now apply insert_id.
Qed.

(** Once the peer has closed, the staging loop reads the empty string for
    ever. *)
Lemma stage_rounds_spin (tp old : bytes) (w : world) :
  incoming w = [] -> at_end w = PeerClosed -> files w !! tp = Some old ->
  forall fuel : nat, ProcessPool.stage_rounds tp fuel w = (Hang, w).
Proof.
  intros Hin He Hf fuel. induction fuel as [|fuel IH]; [reflexivity|].
  cbn [ProcessPool.stage_rounds]. unfold bind at 1, recv. rewrite Hin, He.
  change (contains (bs "__EOF__") []) with false. cbv iota.
  unfold bind. rewrite (file_write_nothing tp old w Hf). exact IH.
Qed.

Lemma stage_rounds_missed (tp : bytes) (reads : list bytes) :
  Forall (fun d => contains (bs "__EOF__") d = false) reads ->
  forall (w : world) (fuel : nat) (old : bytes),
    incoming w = map Data reads ->
    files w !! tp = Some old ->
    (length reads < fuel)%nat ->
    ProcessPool.stage_rounds tp fuel w =
      (match at_end w with PeerClosed => Hang | PeerSilent => Raise socket_timeout end,
       set_incoming [] (set_files (<[tp := old ++ concat reads]> (files w)) w)).
Proof.
  induction 1 as [|d reads Hd _ IH]; intros w fuel old Hin Hf Hfuel.
  - cbn [concat]. rewrite app_nil_r.
    rewrite (set_files_same w) by (now apply insert_id).
    assert (Hw : set_incoming [] w = w) by (destruct w; cbn in *; now subst).
    rewrite Hw. destruct (at_end w) eqn:He.
    + now apply (stage_rounds_spin tp old).
    + destruct fuel as [|fuel]; [cbn in Hfuel; lia|].
      cbn [ProcessPool.stage_rounds]. unfold bind, recv. rewrite Hin, He. reflexivity.
  - destruct fuel as [|fuel]; [cbn in Hfuel; lia|].
    cbn [ProcessPool.stage_rounds]. unfold bind at 1.
    rewrite (recv_data _ w d (map Data reads)) by exact Hin.
    rewrite Hd. unfold bind at 1, file_write. state_fields. rewrite Hf. cbn [default].
    rewrite (IH _ fuel (old ++ d)); [|reflexivity|state_fields; apply lookup_insert_eq
                                     |cbn in Hfuel; lia].
    state_fields. rewrite insert_insert_eq. cbn [concat]. rewrite <- app_assoc.
    destruct w; reflexivity.
Qed.

Lemma handler_hang (v : variant) (w w' : world) :
  handle_request v w = (Hang, w') -> handler v w = (Hang, w').
Proof.
  intros H. rewrite handler_unfold. unfold try_finally, try_except. now rewrite H.
Qed.

(** The upload branch of either variant when no read holds the sentinel:
    the go-ahead is sent, the reads are used up, and the receiving loop ends
    as the peer dictates. *)
Lemma dispatch_upload_missed (v : variant) (w : world) (command name : bytes)
  (more reads : list bytes) :
  writable w = None ->
  incoming w = map Data reads ->
  (v = process_pool -> open_fault w (staging_path name w) = None) ->
  Forall (fun d => contains (sentinel v) d = false) reads ->
  dispatch v (upload_word v) (command :: name :: more) w =
    (match at_end w with PeerClosed => Hang | PeerSilent => Raise socket_timeout end,
     set_incoming []
       (set_files
          match v with
          | thread_pool => files w
          | process_pool => <[staging_path name w := concat reads]> (files w)
          end
          (set_socket None (sent w ++ [go_ahead v]) w))).
Proof.
  intros Hw Hin Hot Hreads.
  destruct v; cbn [dispatch upload_word sentinel go_ahead] in *.
  - unfold ThreadPool.dispatch. literal_tests.
    unfold bind at 1. unfold send at 1. rewrite Hw.
    unfold bind at 1, recv_until, while_true.
    rewrite (recv_rounds_missed (bs "__COMPLETE__") ThreadPool.DATA_CHUNK reads);
      [|discriminate|exact Hreads|exact Hin|state_fields; rewrite Hin, length_map; lia].
    state_fields. rewrite (set_files_same _ (files w)) by reflexivity.
    destruct (at_end w); reflexivity.
  - specialize (Hot eq_refl). unfold staging_path in *.
    set (temp_path := path_join ProcessPool.STORAGE_DIR
                        (name ++ bs "_" ++ uuid4 w ++ bs ".tmp")) in *.
    unfold ProcessPool.dispatch. literal_tests.
    unfold bind at 1. unfold send at 1. rewrite Hw.
    unfold bind at 1. cbn [uuid4 set_socket]. fold temp_path.
    unfold bind at 1. unfold open_wb at 1. cbn [open_fault set_socket]. rewrite Hot.
    unfold bind at 1, while_true.
    rewrite (stage_rounds_missed temp_path reads Hreads _ _ []);
      [|state_fields; exact Hin|state_fields; apply lookup_insert_eq
       |state_fields; rewrite Hin, length_map; lia].
    state_fields. rewrite insert_insert_eq. cbn [app].
    clearbody temp_path. destruct w as [inc ae wr se cl fs op ld cf uu so fo].
    state_fields. destruct ae; reflexivity.
Qed.

(** X12. An upload whose peer closes the connection before any read holds
    the sentinel is never finished by the server: the handler stays in its
    receiving loop, so the connection is not closed and nothing is
    counted. *)
Theorem X12_upload_cut_short_never_returns (v : variant) (w : world)
  (raw command name : bytes) (more reads : list bytes) :
  incoming w = Data raw :: map Data reads ->
  forallb is_ascii raw = true ->
  split (strip raw) = command :: name :: more ->
  upper command = upload_word v ->
  writable w = None ->
  at_end w = PeerClosed ->
  (v = process_pool -> open_fault w (staging_path name w) = None) ->
  Forall (fun d => contains (sentinel v) d = false) reads ->
  let r := handler v w in
  fst r = Hang /\ closed (snd r) = closed w /\
  sent (snd r) = sent w ++ [go_ahead v] /\
  successful_ops (snd r) = successful_ops w /\
  failed_ops (snd r) = failed_ops w.
Proof.
  intros Hin Hascii Hsplit Hcmd Hw He Hot Hreads. cbv zeta.
  pose proof (handle_request_dispatch v w raw _ command (name :: more)
                Hin Hascii Hsplit) as Hd.
  rewrite Hcmd in Hd.
  rewrite (dispatch_upload_missed v _ command name more reads) in Hd;
    [|exact Hw|reflexivity|exact Hot|exact Hreads].
  state_fields. rewrite He in Hd.
  rewrite (handler_hang v w _ Hd). state_fields. auto.
Qed.

Lemma X12_witness :
  fst (handler thread_pool
         (connection [bs "STORE a.txt"; bs "QUJD"] PeerClosed ∅)) = Hang.
Proof.
  refine (proj1 (X12_upload_cut_short_never_returns thread_pool
            (connection [bs "STORE a.txt"; bs "QUJD"] PeerClosed ∅)
            (bs "STORE a.txt") (bs "STORE") (bs "a.txt") [] [bs "QUJD"]
            eq_refl eq_refl eq_refl eq_refl eq_refl eq_refl _ _)).
  - discriminate.
  - repeat constructor.
Defined.

(** X13. An upload whose peer goes silent before any read holds the
    sentinel ends with the socket timeout: the server answers
    [Error: timed out] and counts a failure.  The thread-pool server has
    stored nothing; the process-pool server leaves the staging file, holding
    what was received, in the storage directory. *)
Theorem X13_upload_timeout (v : variant) (w : world)
  (raw command name : bytes) (more reads : list bytes) :
  incoming w = Data raw :: map Data reads ->
  forallb is_ascii raw = true ->
  split (strip raw) = command :: name :: more ->
  upper command = upload_word v ->
  writable w = None ->
  at_end w = PeerSilent ->
  (v = process_pool -> open_fault w (staging_path name w) = None) ->
  Forall (fun d => contains (sentinel v) d = false) reads ->
  let r := handler v w in
  fst r = Ok tt /\ closed (snd r) = true /\
  sent (snd r) = sent w ++ [go_ahead v; bs "Error: timed out"] /\
  successful_ops (snd r) = successful_ops w /\
  failed_ops (snd r) = failed_ops w + 1 /\
  files (snd r) = match v with
                  | thread_pool => files w
                  | process_pool => <[staging_path name w := concat reads]> (files w)
                  end.
Proof.
  intros Hin Hascii Hsplit Hcmd Hw He Hot Hreads. cbv zeta.
  pose proof (handle_request_dispatch v w raw _ command (name :: more)
                Hin Hascii Hsplit) as Hd.
  rewrite Hcmd in Hd.
  rewrite (dispatch_upload_missed v _ command name more reads) in Hd;
    [|exact Hw|reflexivity|exact Hot|exact Hreads].
  state_fields. rewrite He in Hd.
  rewrite (handler_raise v w _ _ Hd).
  match goal with |- context [report_failure ?e ?w0] =>
    destruct (report_failure_run e w0) as (w' & -> & Hf & Hs & Hfo & _ & _ & Hsent)
  end.
  state_fields. rewrite bool_decide_eq_false_2 in Hsent by discriminate.
  rewrite <- app_assoc in Hsent. auto 10.
Qed.

Lemma X13_witness :
  let r := handler process_pool
             (connection [bs "UPLOAD a.txt"; bs "QU"; bs "JD"] PeerSilent ∅) in
  sent (snd r) = [bs "PROCEED"; bs "Error: timed out"] /\
  files (snd r)
  = {[ bs "server_storage/a.txt_0f8fad5b-d9cb-469f-a165-70867728950e.tmp" := bs "QUJD" ]}.
Proof.
  pose proof (X13_upload_timeout process_pool
                (connection [bs "UPLOAD a.txt"; bs "QU"; bs "JD"] PeerSilent ∅)
                (bs "UPLOAD a.txt") (bs "UPLOAD") (bs "a.txt") [] [bs "QU"; bs "JD"]
                eq_refl eq_refl eq_refl eq_refl eq_refl eq_refl (fun _ => eq_refl)) as H.
  destruct H as (_ & _ & Hs & _ & _ & Hf); [repeat constructor|].
  split; [exact Hs|exact Hf].
Defined.

(** ** Upload, then download, at the server *)

(** X14. What an upload has stored is what a later download serves: after
    a successful upload of a payload decoding to [data], a download of the
    same name from the storage it left sends the reply for [data] -- in the
    process-pool variant its encoding and the sentinel in one message, in
    the thread-pool variant the encoding of each block of 1048576 bytes and
    then the sentinel. *)
Theorem X14_stored_file_is_served (v : variant) (name : bytes)
  (wu : world) (raw command : bytes) (more pre : list bytes) (last p data : bytes)
  (later : list recv_event)
  (wd : world) (raw' command' : bytes) (more' : list bytes) (rest' : list recv_event) :
  (* the upload *)
  incoming wu = Data raw :: map Data (pre ++ [last]) ++ later ->
  forallb is_ascii raw = true ->
  split (strip raw) = command :: name :: more ->
  upper command = upload_word v ->
  writable wu = None ->
  (forall path, open_fault wu path = None) ->
  Forall (fun c => c <> UNDERSCORE) p ->
  concat pre ++ last = p ++ sentinel v ->
  contains (sentinel v) last = true ->
  b64decode p = Some data ->
  (v = process_pool -> files wu !! staging_path name wu = None) ->
  (* the download, from the storage the upload left *)
  files wd = files (snd (handler v wu)) ->
  incoming wd = Data raw' :: rest' ->
  forallb is_ascii raw' = true ->
  split (strip raw') = command' :: name :: more' ->
  upper command' = download_word v ->
  writable wd = None ->
  (forall path, open_fault wd path = None) ->
  let r := handler v wd in
  fst r = Ok tt /\
  sent (snd r) = sent wd ++ download_reply v data /\
  files (snd r) = files wd.
Proof.
  intros Hin Hascii Hsplit Hcmd Hw Hop Hp Hcat Hlast Hdec Hfresh
    Hfiles Hin' Hascii' Hsplit' Hcmd' Hw' Hop'. cbv zeta.
  destruct (handler_upload_files v wu raw command name more pre last p data later)
    as (w' & Hrun & Hf & _); auto.
  rewrite Hrun in Hfiles. cbn [snd] in Hfiles.
  destruct (handler_download_present v wd raw' rest' command' name more' data)
    as (w'' & -> & Hs & Hf'); auto.
  rewrite Hfiles, Hf. apply lookup_insert_eq.
Qed.

Lemma X14_witness :
  sent (snd (handler thread_pool
               (connection [bs "FETCH a.txt"] PeerSilent
                  (files (snd (handler thread_pool
                                 (connection [bs "STORE a.txt"; bs "QUJD__COMPLETE__"]
                                    PeerSilent ∅)))))))
  = [bs "QUJD"; bs "__COMPLETE__"].
Proof.
  refine (proj1 (proj2 (X14_stored_file_is_served thread_pool (bs "a.txt")
            (connection [bs "STORE a.txt"; bs "QUJD__COMPLETE__"] PeerSilent ∅)
            (bs "STORE a.txt") (bs "STORE") [] [] (bs "QUJD__COMPLETE__")
            (bs "QUJD") (bs "ABC") []
            (connection [bs "FETCH a.txt"] PeerSilent
               (files (snd (handler thread_pool
                              (connection [bs "STORE a.txt"; bs "QUJD__COMPLETE__"]
                                 PeerSilent ∅)))))
            (bs "FETCH a.txt") (bs "FETCH") [] []
            eq_refl eq_refl eq_refl eq_refl eq_refl (fun _ => eq_refl) _
            eq_refl eq_refl eq_refl _
            eq_refl eq_refl eq_refl eq_refl eq_refl eq_refl (fun _ => eq_refl)))).
  - repeat constructor; discriminate.
  - discriminate.
Defined.

(** ** More on the reading of the request line *)

Lemma split_from_spaces (sp : bytes) :
  forallb isspace sp = true ->
  forall word, split_from word sp = split_from word [].
Proof.
  induction sp as [|c sp IH]; [reflexivity|]. cbn [forallb]. intros H word.
  apply andb_prop in H as [Hc Hsp]. cbn [split_from]. rewrite Hc.
  destruct word; rewrite (IH Hsp); reflexivity.
Qed.

Lemma split_from_trailing (sp : bytes) :
  forallb isspace sp = true ->
  forall s word, split_from word (s ++ sp) = split_from word s.
Proof.
  intros Hsp s. induction s as [|c s IH]; intros word.
  - apply (split_from_spaces sp Hsp).
  - cbn [app split_from]. destruct (isspace c); [destruct word|]; now rewrite IH.
Qed.

Lemma lstrip_spec (s : bytes) :
  exists sp, forallb isspace sp = true /\ s = sp ++ lstrip s.
Proof.
  induction s as [|c s (sp & Hsp & IH)]; [now exists []|].
  cbn [lstrip]. destruct (isspace c) eqn:Hc.
  - exists (c :: sp). cbn [forallb app]. rewrite Hc, Hsp. split; [reflexivity|congruence].
  - now exists [].
Qed.

Lemma lstrip_head (s : bytes) (c : byte) (t : bytes) :
  lstrip s = c :: t -> isspace c = false.
Proof.
  induction s as [|d s IH]; [discriminate|]. cbn [lstrip].
  destruct (isspace d) eqn:Hd; [exact IH|]. now intros [= <- _].
Qed.

Lemma rstrip_spec (s : bytes) :
  exists sp, forallb isspace sp = true /\ s = rstrip s ++ sp.
Proof.
  destruct (lstrip_spec (rev s)) as (sp & Hsp & Hrev).
  exists (rev sp). split.
  - rewrite forallb_forall in *. intros c Hc. apply Hsp. now apply in_rev.
  - unfold rstrip. rewrite <- rev_app_distr, <- Hrev. symmetry. apply rev_involutive.
Qed.

Lemma split_lstrip (s : bytes) : split (lstrip s) = split s.
Proof.
  unfold split. induction s as [|c s IH]; [reflexivity|].
  cbn [lstrip split_from]. destruct (isspace c) eqn:Hc; [exact IH|].
  cbn [split_from]. now rewrite Hc.
Qed.

(** [strip] before [split] changes nothing. *)
Lemma split_strip (s : bytes) : split (strip s) = split s.
Proof.
  unfold strip. destruct (rstrip_spec (lstrip s)) as (sp & Hsp & Hx).
  rewrite <- (split_lstrip s). rewrite Hx at 2. unfold split.
  now rewrite (split_from_trailing sp Hsp).
Qed.

Lemma split_from_word (s word : bytes) : word <> [] -> split_from word s <> [].
Proof.
  revert word. induction s as [|c s IH]; intros word Hw; cbn [split_from].
  - now destruct word.
  - destruct (isspace c).
    + now destruct word.
    + apply IH. now destruct word.
Qed.

(** Text that is not empty after [strip] has at least one word. *)
Lemma split_of_stripped (s : bytes) : strip s <> [] -> split (strip s) <> [].
Proof.
  intros Hne. rewrite split_strip, <- split_lstrip.
  destruct (lstrip s) as [|c t] eqn:Hl.
  - unfold strip in Hne. rewrite Hl in Hne. now contradiction Hne.
  - unfold split. cbn [split_from]. rewrite (lstrip_head s c t Hl).
    now apply split_from_word.
Qed.

(** X15. Process-pool server: a request line of white space only is
    treated like an empty read -- a failure is counted and the connection
    closed without any reply.  The reply [Invalid request] of the source is
    never sent for such a line, because text that is not empty after
    [strip] always has a first word. *)
Theorem X15_blank_request_gets_no_reply (w : world) (raw : bytes)
  (rest : list recv_event) :
  incoming w = Data raw :: rest ->
  forallb is_ascii raw = true ->
  split (strip raw) = [] ->
  fails_silently process_pool w.
Proof.
  intros Hin Hascii Hsplit.
  assert (Hstrip : strip raw = []).
  { destruct (list_eq_nil_dec (strip raw)) as [He|Hne]; [exact He|].
    now destruct (split_of_stripped raw Hne). }
  apply (handler_silent process_pool w (set_incoming rest w)); try reflexivity.
  cbn [handle_request]. unfold ProcessPool.handle_request, bind at 1.
  rewrite (recv_data _ w raw rest Hin). unfold bind.
  rewrite (decode_ascii raw _ Hascii). now rewrite Hstrip.
Qed.

Lemma X15_witness :
  fails_silently process_pool (connection [[x20; x0a]] PeerSilent ∅).
Proof.
  apply (X15_blank_request_gets_no_reply _ [x20; x0a] []); reflexivity.
Defined.

(** * The client against a server that turns the request down *)

Lemma perform_upload_refused (file_name content reply : bytes) (w : world)
  (later : list recv_event) :
  files w !! path_join Client.LOCAL_FOLDER file_name = Some content ->
  connect_fault w = None -> writable w = None ->
  incoming w = Data reply :: later ->
  reply <> bs "PROCEED" -> forallb is_ascii reply = true ->
  Client.perform_upload file_name w =
    (Ok (false, bs "Server response: " ++ reply),
     set_closed true
       (set_incoming later (set_socket None (sent w ++ [bs "UPLOAD " ++ file_name]) w))).
Proof.
  intros Hf Hc Hw Hin Hr Ha.
  unfold Client.perform_upload, try_except, try_finally, bind, os_path_getsize,
    connect, send, recv, close, decode, ret.
  rewrite Hf, Hc, Hw. state_fields. rewrite Hin.
  rewrite bool_decide_eq_false_2 by exact Hr. cbn [negb]. now rewrite Ha.
Qed.

Lemma perform_download_unfinished (file_name : bytes) (w : world) (reads : list bytes) :
  connect_fault w = None -> writable w = None ->
  incoming w = map Data reads -> at_end w = PeerClosed ->
  Forall (fun d => contains (bs "__EOF__") d = false) reads ->
  Client.perform_download file_name w
  = (Hang, set_incoming [] (set_socket None (sent w ++ [bs "DOWNLOAD " ++ file_name]) w)).
Proof.
  intros Hc Hw Hin He Hreads.
  unfold Client.perform_download, try_except, try_finally, bind, connect, send,
    recv_until, while_true.
  rewrite Hc, Hw.
  rewrite (recv_rounds_missed (bs "__EOF__") Client.TRANSFER_BLOCK reads);
    [|discriminate|exact Hreads|exact Hin|state_fields; rewrite Hin, length_map; lia].
  state_fields. rewrite He. reflexivity.
Qed.

Lemma upload_request_words (file_name : bytes) :
  split (strip (bs "UPLOAD " ++ file_name)) = bs "UPLOAD" :: split file_name.
Proof. rewrite split_strip. reflexivity. Qed.

Lemma download_request_words (file_name : bytes) :
  split (strip (bs "DOWNLOAD " ++ file_name)) = bs "DOWNLOAD" :: split file_name.
Proof. rewrite split_strip. reflexivity. Qed.

Lemma request_ascii (word file_name : bytes) :
  forallb is_ascii word = true -> forallb is_ascii file_name = true ->
  forallb is_ascii (word ++ file_name) = true.
Proof. intros Hw Hf. now rewrite forallb_app, Hw, Hf. Qed.

Lemma delivered_short (size : N) (message : bytes) :
  message <> [] -> N.of_nat (length message) <= size ->
  delivered size [message] = [message].
Proof.
  intros Hne Hlen. rewrite delivered_cons, (read_chunks_one size message Hne Hlen).
  reflexivity.
Qed.

(** X16. The client does not work against the thread-pool server, which
    uses other command words: its upload request is answered with
    [Unrecognized command] and counted as a failure, so [perform_upload]
    returns [False] with that reply and sends nothing of the file; its
    download request gets the same answer, without a sentinel, so
    [perform_download] never returns. *)
Theorem X16_client_against_thread_pool_server (file_name content : bytes)
  (fs : gmap bytes bytes) :
  forallb is_ascii file_name = true ->
  let served := request_served thread_pool (bs "UPLOAD " ++ file_name) fs in
  let upload := upload_against thread_pool file_name content fs in
  (fst served = Ok tt /\ sent (snd served) = [bs "Unrecognized command"] /\
   failed_ops (snd served) = 1 /\ files (snd served) = fs) /\
  (fst upload = Ok (false, bs "Server response: Unrecognized command") /\
   sent (snd upload) = [bs "UPLOAD " ++ file_name]) /\
  fst (download_against thread_pool file_name fs) = Hang.
Proof.
  intros Hascii. cbv zeta.
  assert (Hserved : forall word command args,
            forallb is_ascii word = true ->
            split (strip (word ++ file_name)) = command :: args ->
            upper command <> bs "DIRECTORY" -> upper command <> bs "STORE" ->
            upper command <> bs "FETCH" ->
            let r := request_served thread_pool (word ++ file_name) fs in
            fst r = Ok tt /\ sent (snd r) = [bs "Unrecognized command"] /\
            failed_ops (snd r) = 1 /\ files (snd r) = fs).
  { intros word command args Hword Hsplit H1 H2 H3. cbv zeta. unfold request_served.
    destruct (unknown_command_rejected thread_pool
                (connection [word ++ file_name] PeerSilent fs) (word ++ file_name) []
                command args eq_refl (request_ascii word file_name Hword Hascii)
                Hsplit H1 H2 H3)
      as (Hr & Hf & _ & Hfo & _ & Hs).
    split; [exact Hr|]. split; [apply Hs; discriminate|]. split; [exact Hfo|exact Hf]. }
  pose proof (Hserved (bs "UPLOAD ") (bs "UPLOAD") (split file_name) eq_refl
                (upload_request_words file_name)) as Hup.
  pose proof (Hserved (bs "DOWNLOAD ") (bs "DOWNLOAD") (split file_name) eq_refl
                (download_request_words file_name)) as Hdown.
  clear Hserved. cbv zeta in Hup, Hdown.
  destruct Hup as (Hr & Hs & Hfo & Hf); [discriminate..|].
  destruct Hdown as (_ & Hs' & _); [discriminate..|].
  split; [auto|]. split.
  - unfold upload_against. rewrite Hs, delivered_short by (discriminate || reflexivity).
    rewrite (perform_upload_refused file_name content (bs "Unrecognized command") _ []);
      try reflexivity; [|apply lookup_singleton_eq|discriminate].
    split; reflexivity.
  - unfold download_against. rewrite Hs', delivered_short by (discriminate || reflexivity).
    rewrite (perform_download_unfinished file_name _ [bs "Unrecognized command"]);
      try reflexivity.
    repeat constructor.
Qed.

Lemma X16_witness :
  fst (upload_against thread_pool (bs "10mb.txt") (bs "ABC") ∅)
  = Ok (false, bs "Server response: Unrecognized command") /\
  fst (download_against thread_pool (bs "10mb.txt") ∅) = Hang.
Proof.
  pose proof (X16_client_against_thread_pool_server (bs "10mb.txt") (bs "ABC") ∅ eq_refl)
    as (_ & (Hu & _) & Hd).
  split; [exact Hu|exact Hd].
Defined.

Lemma download_missing_rejected (v : variant) (w : world) (raw : bytes)
  (rest : list recv_event) (command name : bytes) (more : list bytes) :
  incoming w = Data raw :: rest ->
  forallb is_ascii raw = true ->
  split (strip raw) = command :: name :: more ->
  upper command = download_word v ->
  files w !! path_join (storage_root v) name = None ->
  replies_and_fails v w (bs "File unavailable").
Proof.
  intros Hin Hascii Hsplit Hcmd Hmiss.
  apply (handler_rejects v w (set_incoming rest w) (bs "File unavailable"));
    try reflexivity.
  rewrite (handle_request_dispatch v w raw rest command (name :: more) Hin Hascii Hsplit).
  rewrite Hcmd. destruct v; cbn [dispatch download_word storage_root] in *.
  - unfold ThreadPool.dispatch. literal_tests.
    unfold bind at 1. unfold os_path_exists. cbn [files set_incoming].
    now rewrite Hmiss.
  - unfold ProcessPool.dispatch. literal_tests.
    unfold bind at 1.
    rewrite ProcessPool_retrieve_missing by exact Hmiss.
    reflexivity.
Qed.

(** X17. A client download of a file the process-pool server does not
    have never returns: the server answers [File unavailable], counts a
    failure and closes, and the client, finding no sentinel in the reply,
    stays in its receiving loop. *)
Theorem X17_download_of_missing_file_never_returns (file_name name : bytes)
  (more : list bytes) (fs : gmap bytes bytes) :
  forallb is_ascii file_name = true ->
  split file_name = name :: more ->
  fs !! path_join ProcessPool.STORAGE_DIR name = None ->
  let served := request_served process_pool (bs "DOWNLOAD " ++ file_name) fs in
  fst served = Ok tt /\ sent (snd served) = [bs "File unavailable"] /\
  failed_ops (snd served) = 1 /\
  fst (download_against process_pool file_name fs) = Hang.
Proof.
  intros Hascii Hsplit Hmiss. cbv zeta.
  assert (Hwords : split (strip (bs "DOWNLOAD " ++ file_name))
                   = bs "DOWNLOAD" :: name :: more)
    by (now rewrite download_request_words, Hsplit).
  destruct (download_missing_rejected process_pool
              (connection [bs "DOWNLOAD " ++ file_name] PeerSilent fs)
              (bs "DOWNLOAD " ++ file_name) [] (bs "DOWNLOAD") name more eq_refl
              (request_ascii (bs "DOWNLOAD ") file_name eq_refl Hascii) Hwords eq_refl Hmiss)
    as (Hr & _ & _ & Hfo & _ & Hs).
  specialize (Hs ltac:(discriminate)).
  change (sent (snd (request_served process_pool (bs "DOWNLOAD " ++ file_name) fs))
          = [bs "File unavailable"]) in Hs.
  fold (request_served process_pool (bs "DOWNLOAD " ++ file_name) fs) in Hr, Hfo.
  split; [exact Hr|]. split; [exact Hs|]. split; [exact Hfo|].
  unfold download_against. rewrite Hs, delivered_short by (discriminate || reflexivity).
  rewrite (perform_download_unfinished file_name _ [bs "File unavailable"]);
    try reflexivity.
  repeat constructor.
Qed.

Lemma X17_witness :
  fst (download_against process_pool (bs "10mb.txt") ∅) = Hang.
Proof.
  apply (X17_download_of_missing_file_never_returns (bs "10mb.txt") (bs "10mb.txt") [] ∅);
    reflexivity.
Defined.

(** * The client when the server goes along *)

(** X18. Once the server has answered [PROCEED], the client sends the
    encoding of each block of 1048576 bytes of the local file, one message
    per block, then the sentinel, and returns [True] with the server's next
    reply, whatever that reply says: a reply reporting a failure is returned
    as a success too.  The local files are not changed. *)
Theorem X18_upload_reports_success_whatever_the_reply (file_name content reply : bytes)
  (w : world) (later : list recv_event) :
  files w !! path_join Client.LOCAL_FOLDER file_name = Some content ->
  open_fault w (path_join Client.LOCAL_FOLDER file_name) = None ->
  connect_fault w = None -> writable w = None ->
  incoming w = Data (bs "PROCEED") :: Data reply :: later ->
  forallb is_ascii reply = true ->
  let r := Client.perform_upload file_name w in
  fst r = Ok (true, reply) /\
  sent (snd r) = sent w ++ [bs "UPLOAD " ++ file_name]
                        ++ map b64encode (read_chunks Client.TRANSFER_BLOCK content)
                        ++ [bs "__EOF__"] /\
  files (snd r) = files w.
Proof.
  intros Hf Hop Hc Hw Hin Ha. cbv zeta.
  destruct (perform_upload_run file_name content reply w later Hf Hop Hc Hw Hin Ha)
    as (w' & -> & H). exact (conj eq_refl H).
Qed.

Lemma X18_witness :
  fst (Client.perform_upload (bs "a.txt")
         (connection [bs "PROCEED"; bs "Operation failed: Incorrect padding"] PeerClosed
            {[ bs "client_data/a.txt" := bs "ABC" ]}))
  = Ok (true, bs "Operation failed: Incorrect padding").
Proof.
  refine (proj1 (X18_upload_reports_success_whatever_the_reply (bs "a.txt") (bs "ABC")
            (bs "Operation failed: Incorrect padding")
            (connection [bs "PROCEED"; bs "Operation failed: Incorrect padding"] PeerClosed
               {[ bs "client_data/a.txt" := bs "ABC" ]}) []
            _ eq_refl eq_refl eq_refl eq_refl eq_refl)).
  vm_compute. reflexivity.
Defined.

(** X19. A download whose reply arrives with the sentinel whole, at the
    end of the last read, writes the decoded payload to the file of that
    name under [client_downloads], replacing what was there, changes no
    other file, and returns [True] with [Download completed]. *)
Theorem X19_download_writes_the_decoded_payload (file_name : bytes) (w : world)
  (pre : list bytes) (last p data : bytes) (later : list recv_event) :
  connect_fault w = None -> writable w = None ->
  incoming w = map Data (pre ++ [last]) ++ later ->
  Forall (fun c => c <> UNDERSCORE) p ->
  concat pre ++ last = p ++ bs "__EOF__" ->
  contains (bs "__EOF__") last = true ->
  b64decode p = Some data ->
  open_fault w (path_join Client.RECEIVED_FOLDER file_name) = None ->
  let r := Client.perform_download file_name w in
  fst r = Ok (true, bs "Download completed") /\
  sent (snd r) = sent w ++ [bs "DOWNLOAD " ++ file_name] /\
  files (snd r) = <[path_join Client.RECEIVED_FOLDER file_name := data]> (files w).
Proof.
  intros Hc Hw Hin Hp Hcat Hlast Hdec Hop. cbv zeta.
  destruct (perform_download_run file_name w pre last p data later
              Hc Hw Hin Hp Hcat Hlast Hdec Hop) as (w' & -> & H).
  exact (conj eq_refl H).
Qed.

Lemma X19_witness :
  files (snd (Client.perform_download (bs "a.txt")
                (connection [bs "QU"; bs "JD__EOF__"] PeerClosed
                   {[ bs "client_downloads/a.txt" := bs "old" ]})))
  = <[ bs "client_downloads/a.txt" := bs "ABC" ]>
      {[ bs "client_downloads/a.txt" := bs "old" ]}.
Proof.
  refine (proj2 (proj2 (X19_download_writes_the_decoded_payload (bs "a.txt")
            (connection [bs "QU"; bs "JD__EOF__"] PeerClosed
               {[ bs "client_downloads/a.txt" := bs "old" ]})
            [bs "QU"] (bs "JD__EOF__") (bs "QUJD") (bs "ABC") []
            eq_refl eq_refl eq_refl _ eq_refl eq_refl eq_refl eq_refl))).
  repeat constructor; discriminate.
Defined.

(** * Timing an operation *)

Lemma zero_divided (duration : PrimFloat.float) :
  PrimFloat.ltb PrimFloat.zero duration = true ->
  PrimFloat.div (float_of_N 0) duration = PrimFloat.zero.
Proof.
  intros Hpos. apply FloatAxioms.Prim2SF_inj. rewrite FloatAxioms.div_spec.
  rewrite FloatAxioms.ltb_spec in Hpos.
  change (FloatOps.Prim2SF (float_of_N 0)) with (SpecFloat.S754_zero false).
  change (FloatOps.Prim2SF PrimFloat.zero) with (SpecFloat.S754_zero false) in *.
  destruct (FloatOps.Prim2SF duration) as [s|s| |s m e]; try discriminate;
    destruct s; try discriminate; reflexivity.
Qed.

Lemma try_except_never_raises {A} (body : M A) (h : exn -> A) (w : world) (e : exn) :
  fst (try_except body (fun e => ret (h e)) w) <> Raise e.
Proof.
  unfold try_except. destruct (body w) as [[a|e'|] w']; discriminate.
Qed.

Lemma perform_upload_never_raises (file_name : bytes) (w : world) (e : exn) :
  fst (Client.perform_upload file_name w) <> Raise e.
Proof. apply try_except_never_raises. Qed.

Lemma perform_download_never_raises (file_name : bytes) (w : world) (e : exn) :
  fst (Client.perform_download file_name w) <> Raise e.
Proof. apply try_except_never_raises. Qed.

Lemma measured_size_never_raises (path : bytes) (w : world) :
  exists size,
    (found <- os_path_exists path ;; if found then os_path_getsize path else ret 0) w
    = (Ok size, w).
Proof.
  unfold bind, os_path_exists, os_path_getsize, ret.
  destruct (files w !! path) as [content|] eqn:Hf.
  - rewrite bool_decide_eq_true_2 by (now exists content). rewrite Hf. now eexists.
  - rewrite bool_decide_eq_false_2 by (intros [x Hx]; discriminate). now eexists.
Qed.

(** X20. [execute_operation] never raises.  When it returns, the
    operation it reports as successful was an upload or a download, its
    message is the one of the transfer, and an operation that did not
    succeed is reported with a throughput of zero: its file is not
    measured. *)
Theorem X20_failed_operation_has_no_throughput (start_time end_time : PrimFloat.float)
  (op_type file_name : bytes) (w : world) :
  match fst (execute_operation start_time end_time op_type file_name w) with
  | Ok (success, duration, speed, message) =>
      (success = true -> op_type = bs "upload" \/ op_type = bs "download") /\
      (success = false -> is_zero speed) /\
      (op_type = bs "upload" ->
       fst (Client.perform_upload file_name w) = Ok (success, message)) /\
      (op_type = bs "download" ->
       fst (Client.perform_download file_name w) = Ok (success, message))
  | Raise _ => False
  | Hang => True
  end.
Proof.
  assert (Htimed : forall (upload : bool) (b : bool) (msg : bytes) (w1 : world),
    exists size,
      (size <- (if b then
                  found <- os_path_exists
                             (path_join (if upload then Client.LOCAL_FOLDER
                                         else Client.RECEIVED_FOLDER) file_name) ;;
                  if found
                  then os_path_getsize
                         (path_join (if upload then Client.LOCAL_FOLDER
                                     else Client.RECEIVED_FOLDER) file_name)
                  else ret 0
                else ret 0) ;;
       ret (b, Float (PrimFloat.sub end_time start_time),
            if PrimFloat.ltb PrimFloat.zero (PrimFloat.sub end_time start_time)
            then Float (PrimFloat.div (float_of_N size) (PrimFloat.sub end_time start_time))
            else Int 0, msg)) w1
      = (Ok (b, Float (PrimFloat.sub end_time start_time),
             if PrimFloat.ltb PrimFloat.zero (PrimFloat.sub end_time start_time)
             then Float (PrimFloat.div (float_of_N size) (PrimFloat.sub end_time start_time))
             else Int 0, msg), w1)
      /\ (b = false -> size = 0)).
  { intros upload b msg w1. destruct b.
    - destruct (measured_size_never_raises
                  (path_join (if upload then Client.LOCAL_FOLDER
                              else Client.RECEIVED_FOLDER) file_name) w1) as (size & Hsize).
      exists size. unfold bind at 1. rewrite Hsize. split; [reflexivity|discriminate].
    - exists 0. split; reflexivity. }
  assert (Hzero : forall size, size = 0 ->
            is_zero (if PrimFloat.ltb PrimFloat.zero (PrimFloat.sub end_time start_time)
                     then Float (PrimFloat.div (float_of_N size)
                                   (PrimFloat.sub end_time start_time))
                     else Int 0)).
  { intros size ->.
    destruct (PrimFloat.ltb PrimFloat.zero (PrimFloat.sub end_time start_time)) eqn:Hpos;
      [apply (zero_divided _ Hpos)|reflexivity]. }
  unfold execute_operation.
  destruct (bool_decide (op_type = bs "upload")) eqn:Hup.
  - apply bool_decide_eq_true_1 in Hup. subst op_type.
    unfold bind at 1.
    pose proof (perform_upload_never_raises file_name w) as Hnr.
    destruct (Client.perform_upload file_name w) as [[[b msg]|e|] w1]; cbn [fst] in *;
      [|now destruct (Hnr e)|exact I].
    destruct (Htimed true b msg w1) as (size & -> & Hsize). cbn [fst].
    split; [auto|]. split; [intros Hb; apply Hzero; auto|]. split; [reflexivity|discriminate].
  - destruct (bool_decide (op_type = bs "download")) eqn:Hdown.
    + apply bool_decide_eq_true_1 in Hdown. subst op_type.
      unfold bind at 1.
      pose proof (perform_download_never_raises file_name w) as Hnr.
      destruct (Client.perform_download file_name w) as [[[b msg]|e|] w1]; cbn [fst] in *;
        [|now destruct (Hnr e)|exact I].
      destruct (Htimed false b msg w1) as (size & -> & Hsize). cbn [fst].
      split; [auto|]. split; [intros Hb; apply Hzero; auto|].
      split; [discriminate|reflexivity].
    + apply bool_decide_eq_false_1 in Hup, Hdown. cbn [fst ret].
      split; [discriminate|]. split; [reflexivity|]. split; intros; contradiction.
Qed.

(** * The benchmark driver *)

(** The loop over the completed tasks counts each of them once. *)
Lemma count_task_totals (results : list task_outcome) (t : totals) :
  let t' := fold_left count_task results t in
  (success_total t' + failure_total t'
   = success_total t + failure_total t + Z.of_nat (length results))%Z /\
  (success_total t <= success_total t')%Z /\
  (failure_total t <= failure_total t')%Z /\
  (Forall (fun r => fst (fst (fst r)) = false) results ->
   success_total t' = success_total t /\
   time_accumulated t' = time_accumulated t /\
   speed_accumulated t' = speed_accumulated t).
Proof.
  revert t. induction results as [|[[[status elapsed] throughput] msg] results IH];
    intros t; cbn [fold_left length].
  - cbv zeta. repeat split; try lia; reflexivity.
  - specialize (IH (count_task t (status, elapsed, throughput, msg))).
    cbv zeta in *. destruct IH as (Hsum & Hs & Hf & Hall).
    unfold count_task in *. destruct status; cbn [success_total failure_total] in *.
    + split; [lia|]. split; [lia|]. split; [lia|].
      intros Hfalse. inversion Hfalse; subst. discriminate.
    + split; [lia|]. split; [lia|]. split; [lia|].
      intros Hfalse. inversion Hfalse; subst. now apply Hall.
Qed.



Lemma execute_operation_invalid (start_time end_time : PrimFloat.float)
  (op_type file_name : bytes) (w : world) :
  op_type <> bs "upload" -> op_type <> bs "download" ->
  execute_operation start_time end_time op_type file_name w
  = (Ok (false, Int 0, Int 0, bs "Invalid operation: " ++ op_type), w).
Proof.
  intros Hu Hd. unfold execute_operation.
  now rewrite !bool_decide_eq_false_2 by assumption.
Qed.

(** X22. [run_client] does not check the operation word.  Any word other
    than [upload] and [download] (in any case) is passed to the workers,
    each of which returns at once, without opening a connection, with the
    message [Invalid operation: ] and the word; the run ends with as many
    failures as workers, no success, and both averages zero. *)
Theorem X22_operation_word_is_not_checked (int : bytes -> option Z)
  (completed : nat -> bytes -> bytes -> task_outcome)
  (program operation size_option workers mode target_file : bytes) (worker_count : Z) :
  int workers = Some worker_count ->
  (0 < worker_count)%Z ->
  file_mapping !! size_option = Some target_file ->
  lower mode = bs "thread" \/ lower mode = bs "process" ->
  lower operation <> bs "upload" -> lower operation <> bs "download" ->
  (forall i, exists start_time end_time w w',
     execute_operation start_time end_time (lower operation) target_file w
     = (Ok (completed i (lower operation) target_file), w')) ->
  run_client int completed [program; operation; size_option; workers; mode]
  = (StartingTest (lower operation) target_file worker_count (lower mode)
       :: repeat (TaskReport false (Int 0) (Int 0)
                    (bs "Invalid operation: " ++ lower operation))
            (Z.to_nat worker_count)
       ++ [TestSummary (upper (lower operation)) target_file worker_count (lower mode)
             (Int 0) (Int 0) 0 worker_count],
     Returns).
Proof.
  intros Hint Hpos Hfile Hmode Hu Hd Htasks.
  assert (Hres : forall i, completed i (lower operation) target_file
                           = (false, Int 0, Int 0, bs "Invalid operation: " ++ lower operation)).
  { intros i. destruct (Htasks i) as (st & en & w & w' & Hrun).
    rewrite execute_operation_invalid in Hrun by assumption. congruence. }
  unfold run_client. rewrite Hint, Hfile.
  assert (Hm : negb (bool_decide (lower mode = bs "thread"))
               && negb (bool_decide (lower mode = bs "process")) = false).
  { destruct Hmode as [-> | ->]; reflexivity. }
  rewrite Hm. destruct (Z.leb_spec worker_count 0) as [Hle|_]; [lia|].
  assert (Hmap : map (fun i => completed i (lower operation) target_file)
                   (seq 0 (Z.to_nat worker_count))
                 = repeat (false, Int 0, Int 0, bs "Invalid operation: " ++ lower operation)
                     (Z.to_nat worker_count)).
  { generalize 0%nat. induction (Z.to_nat worker_count) as [|n IH]; intros k;
      [reflexivity|]. cbn [seq map repeat]. now rewrite Hres, IH. }
  rewrite Hmap. clear Hmap.
  pose proof (count_task_totals
                (repeat (false, Int 0, Int 0, bs "Invalid operation: " ++ lower operation)
                   (Z.to_nat worker_count))
                (Totals 0 0 (Int 0) (Int 0))) as Ht.
  cbv zeta in Ht. set (t := fold_left count_task _ _) in *.
  destruct Ht as (Hsum & _ & _ & Hall). cbn [success_total failure_total] in *.
  destruct Hall as (Hs & _ & _).
  { apply List.Forall_forall. intros r Hr. apply repeat_spec in Hr. now subst r. }
  cbn [success_total] in Hs. rewrite repeat_length in Hsum.
  assert (Hf : failure_total t = worker_count) by lia.
  rewrite Hs, Hf. cbn [Z.eqb].
  clear. do 3 f_equal.
  induction (Z.to_nat worker_count) as [|n IH]; [reflexivity|].
  cbn [repeat map report_task]. now rewrite IH.
Qed.

Lemma X22_witness :
  run_client (fun _ => Some 2%Z)
    (fun _ op _ => (false, Int 0, Int 0, bs "Invalid operation: " ++ op))
    [bs "client.py"; bs "LIST"; bs "10MB"; bs "2"; bs "thread"]
  = ([StartingTest (bs "list") (bs "10mb.txt") 2 (bs "thread");
      TaskReport false (Int 0) (Int 0) (bs "Invalid operation: list");
      TaskReport false (Int 0) (Int 0) (bs "Invalid operation: list");
      TestSummary (bs "LIST") (bs "10mb.txt") 2 (bs "thread") (Int 0) (Int 0) 0 2],
     Returns).
Proof.
  apply (X22_operation_word_is_not_checked (fun _ => Some 2%Z)
           (fun _ op _ => (false, Int 0, Int 0, bs "Invalid operation: " ++ op))
           (bs "client.py") (bs "LIST") (bs "10MB") (bs "2") (bs "thread")
           (bs "10mb.txt") 2 eq_refl eq_refl eq_refl (or_introl eq_refl)).
  - discriminate.
  - discriminate.
  - intros i. exists PrimFloat.zero, PrimFloat.zero, (connection [] PeerClosed ∅),
      (connection [] PeerClosed ∅). reflexivity.
Defined.

(** * The accept loop with one worker *)

Lemma handler_counts_one (v : variant) (w : world) :
  let r := handler v w in
  (fst r = Ok tt /\ exactly_one_incremented w (snd r)) \/
  (fst r = Hang /\ successful_ops (snd r) = successful_ops w /\
   failed_ops (snd r) = failed_ops w /\ at_end w = PeerClosed).
Proof.
  cbv zeta. rewrite handler_unfold. unfold try_finally, try_except, close.
  pose proof (counts_handle_request v w) as H.
  destruct (handle_request v w) as [[[]|e|] w'].
  - left. destruct H as [(Hs & Hf & Hsum) _].
    unfold exactly_one_incremented. state_fields. split; [reflexivity|lia].
  - left. destruct H as [(Hs & Hf & Hsum) _].
    destruct (report_failure_run e w') as (w'' & -> & _ & Hs' & Hf' & _).
    unfold exactly_one_incremented. state_fields. split; [reflexivity|lia].
  - right. destruct H as [(Hs & Hf & Hsum) He]. state_fields.
    split; [reflexivity|]. split; [lia|]. split; [lia|exact He].
Qed.

(** X23. Thread-pool server with one worker: when all the handlers of the
    accepted connections return, the two counters together have gone up by
    the number of connections; otherwise one handler never returns -- its
    peer closed during an upload -- and the connections accepted after it
    are never served: the counters have gone up by the number of
    connections before it.  The loop itself never raises. *)
Theorem X23_one_worker_serves_in_turn (connections : list accepted) (w : world) :
  let r := launch_server connections w in
  let served := (successful_ops (snd r) + failed_ops (snd r))
                - (successful_ops w + failed_ops w) in
  successful_ops w <= successful_ops (snd r) /\
  failed_ops w <= failed_ops (snd r) /\
  match fst r with
  | Ok _ => served = N.of_nat (length connections)
  | Hang =>
      served < N.of_nat (length connections) /\
      (exists c, nth_error connections (N.to_nat served) = Some c /\
                 conn_peer c = PeerClosed)
  | Raise _ => False
  end.
Proof.
  cbv zeta. revert w. induction connections as [|c rest IH]; intros w.
  - cbn [launch_server ret fst snd length]. repeat split; lia.
  - cbn [launch_server]. unfold bind.
    pose proof (handler_counts_one thread_pool (accept c w)) as Hc.
    cbv zeta in Hc. cbn [handler] in Hc.
    destruct (ThreadPool.process_client_request (accept c w)) as [[[]|e|] w1];
      cbn [fst snd] in Hc.
    + destruct Hc as [(_ & Hone)|(Hx & _)]; [|discriminate].
      unfold exactly_one_incremented, accept in Hone. state_fields.
      specialize (IH w1). destruct IH as (Hs & Hf & IH).
      split; [lia|]. split; [lia|].
      destruct (fst (launch_server rest w1)).
      * cbn [length]. lia.
      * exact IH.
      * destruct IH as (Hlt & c' & Hnth & Hpeer). split; [cbn [length]; lia|].
        exists c'. split; [|exact Hpeer].
        replace (N.to_nat (successful_ops (snd (launch_server rest w1))
                           + failed_ops (snd (launch_server rest w1))
                           - (successful_ops w + failed_ops w)))
          with (S (N.to_nat (successful_ops (snd (launch_server rest w1))
                             + failed_ops (snd (launch_server rest w1))
                             - (successful_ops w1 + failed_ops w1)))) by lia.
        exact Hnth.
    + destruct Hc as [(Hx & _)|(Hx & _)]; discriminate.
    + destruct Hc as [(Hx & _)|(_ & Hs & Hf & Hpeer)]; [discriminate|].
      unfold accept in Hs, Hf, Hpeer. state_fields.
      split; [lia|]. split; [lia|]. split; [cbn [length]; lia|].
      exists c. replace (successful_ops w1 + failed_ops w1
                         - (successful_ops w + failed_ops w)) with 0 by lia.
      split; [reflexivity|exact Hpeer].
Qed.

(** * An upload whose destination cannot be written *)

(** X24. An upload with a sound payload whose destination file cannot be
    opened for writing stores nothing under that name.  The thread-pool
    server answers [Storage error: ] with the error text and counts a
    failure.  The process-pool server answers [Operation failed: ] with the
    error text, leaves the staging file behind, and counts by the text of
    its answer: when the answer holds the word [success] -- as it does when
    the file name does -- the failed upload is counted as a success. *)
Theorem X24_unwritable_destination (v : variant) (w : world)
  (raw command name : bytes) (more pre : list bytes) (last p data : bytes)
  (later : list recv_event) (e : exn) :
  incoming w = Data raw :: map Data (pre ++ [last]) ++ later ->
  forallb is_ascii raw = true ->
  split (strip raw) = command :: name :: more ->
  upper command = upload_word v ->
  writable w = None ->
  Forall (fun c => c <> UNDERSCORE) p ->
  concat pre ++ last = p ++ sentinel v ->
  contains (sentinel v) last = true ->
  b64decode p = Some data ->
  open_fault w (path_join (storage_root v) name) = Some e ->
  (v = process_pool -> open_fault w (staging_path name w) = None) ->
  let r := handler v w in
  fst r = Ok tt /\
  match v with
  | thread_pool =>
      sent (snd r) = sent w ++ [bs "READY_FOR_DATA"; bs "Storage error: " ++ str_exn e] /\
      files (snd r) = files w /\
      successful_ops (snd r) = successful_ops w /\
      failed_ops (snd r) = failed_ops w + 1
  | process_pool =>
      sent (snd r) = sent w ++ [bs "PROCEED"; bs "Operation failed: " ++ str_exn e] /\
      files (snd r) = <[staging_path name w := p]> (files w) /\
      if contains (bs "success") (lower (bs "Operation failed: " ++ str_exn e))
      then successful_ops (snd r) = successful_ops w + 1 /\
           failed_ops (snd r) = failed_ops w
      else successful_ops (snd r) = successful_ops w /\
           failed_ops (snd r) = failed_ops w + 1
  end.
Proof.
  intros Hin Hascii Hsplit Hcmd Hw Hp Hcat Hlast Hdec Hod Hot. cbv zeta.
  pose proof (handle_request_dispatch v w raw _ command (name :: more)
                Hin Hascii Hsplit) as Hd.
  rewrite Hcmd in Hd.
  destruct v; cbn [dispatch upload_word storage_root sentinel] in *.
  - assert (Hrun : ThreadPool.dispatch (bs "STORE") (command :: name :: more)
                     (set_incoming (map Data (pre ++ [last]) ++ later) w)
                   = (Ok tt, set_counters (successful_ops w) (failed_ops w + 1)
                               (set_socket None
                                  (sent w ++ [bs "READY_FOR_DATA";
                                              bs "Storage error: " ++ str_exn e])
                                  (set_incoming later w)))).
    { unfold ThreadPool.dispatch. literal_tests.
      unfold bind at 1. unfold send at 1. state_fields. rewrite Hw.
      unfold bind at 1.
      change (bs "__COMPLETE__") with (UNDERSCORE :: bs "_COMPLETE__") in *.
      rewrite (recv_until_stream UNDERSCORE _ _ pre last p later _ Hp Hcat Hlast)
        by reflexivity.
      unfold try_except, bind at 1. rewrite (b64decode_or_raise_ok p data) by exact Hdec.
      unfold bind at 1, open_wb. state_fields. rewrite Hod.
      unfold bind, send, incr_failed_ops. state_fields.
      destruct w as [inc ae wr se cl fs op ld cf uu so fo]; state_fields.
      rewrite <- app_assoc. reflexivity. }
    rewrite Hrun in Hd. rewrite (handler_ok thread_pool w _ Hd). state_fields. auto.
  - specialize (Hot eq_refl). unfold staging_path in *.
    set (temp_path := path_join ProcessPool.STORAGE_DIR
                        (name ++ bs "_" ++ uuid4 w ++ bs ".tmp")) in *.
    set (response := bs "Operation failed: " ++ str_exn e).
    assert (Hrun : ProcessPool.dispatch (bs "UPLOAD") (command :: name :: more)
                     (set_incoming (map Data (pre ++ [last]) ++ later) w)
                   = (Ok tt,
                      (if contains (bs "success") (lower response)
                       then set_counters (successful_ops w + 1) (failed_ops w)
                       else set_counters (successful_ops w) (failed_ops w + 1))
                        (set_socket None (sent w ++ [bs "PROCEED"; response])
                           (set_files (<[temp_path := p]> (files w))
                              (set_incoming later w))))).
    { unfold ProcessPool.dispatch. literal_tests.
      unfold bind at 1. unfold send at 1. state_fields. rewrite Hw.
      unfold bind at 1. cbn [uuid4 set_socket set_incoming]. fold temp_path.
      unfold bind at 1. unfold open_wb at 1. state_fields. rewrite Hot.
      unfold bind at 1.
      rewrite (stage_rounds_stream temp_path pre last p later _ Hp Hcat Hlast)
        by reflexivity.
      state_fields. rewrite lookup_insert_eq. cbn [default app]. rewrite insert_insert_eq.
      unfold bind at 1.
      unfold ProcessPool.execute_command. literal_tests.
      unfold try_except, bind at 1.
      rewrite (os_path_exists_present temp_path p) by (state_fields; apply lookup_insert_eq).
      cbn [negb]. unfold bind at 1.
      rewrite (open_rb_present temp_path p)
        by (state_fields; first [apply lookup_insert_eq|exact Hot]).
      unfold bind at 1. rewrite (b64decode_or_raise_ok p data) by exact Hdec.
      unfold bind at 1, open_wb. state_fields. rewrite Hod.
      unfold ret at 1. fold response.
      unfold bind at 1, sendall, send. state_fields.
      clearbody temp_path response.
      destruct (contains (bs "success") (lower response));
        [unfold incr_successful_ops|unfold incr_failed_ops];
        destruct w as [inc ae wr se cl fs op ld cf uu so fo]; state_fields;
        rewrite <- app_assoc; reflexivity. }
    rewrite Hrun in Hd. rewrite (handler_ok process_pool w _ Hd).
    destruct (contains (bs "success") (lower response)); state_fields; auto.
Qed.

Lemma X24_witness :
  let denied := OSError (bs "[Errno 13] Permission denied: 'server_storage/success.txt'") in
  let w := World [Data (bs "UPLOAD success.txt"); Data (bs "QUJD__EOF__")] PeerSilent
             None [] false ∅
             (fun path => if bool_decide (path = bs "server_storage/success.txt")
                          then Some denied else None)
             None None (bs "0f8fad5b") 0 0 in
  let r := handler process_pool w in
  sent (snd r)
  = [bs "PROCEED";
     bs "Operation failed: [Errno 13] Permission denied: 'server_storage/success.txt'"] /\
  files (snd r) = {[ bs "server_storage/success.txt_0f8fad5b.tmp" := bs "QUJD" ]} /\
  successful_ops (snd r) = 1 /\ failed_ops (snd r) = 0.
Proof.
  intros denied w.
  refine (proj2 (X24_unwritable_destination process_pool w (bs "UPLOAD success.txt")
            (bs "UPLOAD") (bs "success.txt") [] [] (bs "QUJD__EOF__") (bs "QUJD")
            (bs "ABC") [] denied
            eq_refl eq_refl eq_refl eq_refl eq_refl _ eq_refl eq_refl eq_refl eq_refl
            (fun _ => eq_refl))).
  repeat constructor; discriminate.
Defined.

(** * A connection that is never counted *)

(** C4.  Not every accepted connection is counted.  When the peer closes
    the connection in the middle of an upload -- after the request line and
    the go-ahead, before any read holds the sentinel -- the receiving loop
    reads the empty string for ever: the handler reaches no exit path, so
    neither counter is incremented and the connection is not closed.  The
    same connection with a peer that goes silent instead ends with the
    socket timeout and is counted once, as a failure. *)
Theorem C4_disconnect_during_upload_is_never_counted (v : variant) (w : world)
  (raw command name : bytes) (more reads : list bytes) :
  incoming w = Data raw :: map Data reads ->
  forallb is_ascii raw = true ->
  split (strip raw) = command :: name :: more ->
  upper command = upload_word v ->
  writable w = None ->
  (v = process_pool -> open_fault w (staging_path name w) = None) ->
  Forall (fun d => contains (sentinel v) d = false) reads ->
  let r := handler v w in
  match at_end w with
  | PeerClosed =>
      fst r = Hang /\
      successful_ops (snd r) = successful_ops w /\
      failed_ops (snd r) = failed_ops w /\
      closed (snd r) = closed w
  | PeerSilent =>
      fst r = Ok tt /\
      successful_ops (snd r) = successful_ops w /\
      failed_ops (snd r) = failed_ops w + 1 /\
      closed (snd r) = true
  end.
Proof.
  intros Hin Hascii Hsplit Hcmd Hw Hot Hreads. cbv zeta.
  pose proof (handle_request_dispatch v w raw _ command (name :: more)
                Hin Hascii Hsplit) as Hd.
  rewrite Hcmd in Hd.
  rewrite (dispatch_upload_missed v _ command name more reads) in Hd;
    [|exact Hw|reflexivity|exact Hot|exact Hreads].
  state_fields. destruct (at_end w).
  - rewrite (handler_hang v w _ Hd). state_fields. auto.
  - rewrite (handler_raise v w _ _ Hd).
    match goal with |- context [report_failure ?e ?w0] =>
      destruct (report_failure_run e w0) as (w' & -> & _ & Hs & Hfo & _)
    end.
    state_fields. auto.
Qed.

Lemma C4_witness :
  let r := handler thread_pool (connection [bs "STORE a.txt"; bs "QUJD"] PeerClosed ∅) in
  fst r = Hang /\ successful_ops (snd r) = 0 /\ failed_ops (snd r) = 0 /\
  closed (snd r) = false.
Proof.
  refine (C4_disconnect_during_upload_is_never_counted thread_pool
            (connection [bs "STORE a.txt"; bs "QUJD"] PeerClosed ∅)
            (bs "STORE a.txt") (bs "STORE") (bs "a.txt") [] [bs "QUJD"]
            eq_refl eq_refl eq_refl eq_refl eq_refl _ _).
  - discriminate.
  - repeat constructor.
Defined.
